(** * Android File Transfer: the dual-tree transfer engine

    A shallow embedding of the transfer code of the application:

    - the main-process IPC handlers [pull-file], [push-file],
      [create-directory] and [delete-item] (main.js);
    - the renderer-side transfer functions of
      modules/transferOperations.js: [transferLocalFileToAndroid],
      [transferLocalFolderToAndroid], [transferAndroidFileToLocal] and
      [transferAndroidFolderToLocal];
    - the directory test of modules/fileSystem.js ([renderFileList]);
    - the shared [state] of modules/state.js and the two transfer-button
      click handlers of renderer.js.

    JavaScript promises are modelled by their outcome, [try]/[catch] by a
    case analysis on that outcome, closure variables by explicit state
    passing, and every call that leaves the renderer (status line, IPC
    invocation, synchronous [fs] call) is appended to a trace of events. *)

From Stdlib Require Import String Ascii List ZArith Lia Bool Arith DecimalString.
Import ListNotations.
Open Scope string_scope.

(** ** Promises and [try]/[catch] *)

(** The outcome of awaiting a promise: it resolved with a value, or it
    rejected with an [Error] whose [message] is kept. A synchronous call
    that may throw is modelled the same way. *)
Inductive promise (A : Type) : Type :=
| Resolved (value : A)
| Rejected (message : string).
Arguments Resolved {A} value.
Arguments Rejected {A} message.

(** [promise.then(k)] for an asynchronous continuation [k]. *)
Definition and_then {A B : Type} (p : promise A) (k : A -> promise B) : promise B :=
  match p with
  | Resolved a => k a
  | Rejected m => Rejected m
  end.

Definition is_resolved {A : Type} (p : promise A) : bool :=
  match p with
  | Resolved _ => true
  | Rejected _ => false
  end.

(** Decimal rendering of a counter inside a template literal. *)
Definition show_nat (n : nat) : string := NilEmpty.string_of_uint (Nat.to_uint n).

(** ** Main process: the bridge client and the IPC handlers *)

Module Main.

(** The object every one of the four handlers resolves with. *)
Record ipc_result : Type := {
  success : bool;
  error : option string
}.

Definition ok : ipc_result := {| success := true; error := None |}.
Definition failed (message : string) : ipc_result :=
  {| success := false; error := Some message |}.

(** The adbkit client, an external collaborator. [pull] resolves with a
    transfer stream, identified here by the remote path it reads;
    [pipe] is the promise built around
    [transfer.pipe(fs.createWriteStream(localPath))], resolved on
    [finish] and rejected on [error]. *)
Record client : Type := {
  pull : string -> string -> promise string;
  pipe : string -> string -> promise unit;
  push : string -> string -> string -> promise unit;
  shell : string -> string -> promise unit
}.

(** The shape shared by the four handlers:
    [try { await work; return { success: true }; }
     catch (err) { return { success: false, error: err.message }; }]. *)
Definition try_await (work : promise unit) : promise ipc_result :=
  match work with
  | Resolved _ => Resolved ok
  | Rejected message => Resolved (failed message)
  end.

(** [ipcMain.handle('pull-file', ...)] *)
Definition pull_file (c : client) (deviceId remotePath localPath : string)
  : promise ipc_result :=
  try_await (and_then (pull c deviceId remotePath)
                      (fun transfer => pipe c transfer localPath)).

(** [ipcMain.handle('push-file', ...)] *)
Definition push_file (c : client) (deviceId localPath remotePath : string)
  : promise ipc_result :=
  try_await (push c deviceId localPath remotePath).

(** The double-quote character that wraps a path in a shell command. *)
Definition dquote : string := String (Ascii.ascii_of_nat 34) EmptyString.

Definition mkdir_command (path : string) : string :=
  "mkdir -p " ++ dquote ++ path ++ dquote.

(** [ipcMain.handle('create-directory', ...)] *)
Definition create_directory (c : client) (deviceId path : string)
  : promise ipc_result :=
  try_await (shell c deviceId (mkdir_command path)).

Definition rm_command (path : string) (isDirectory : bool) : string :=
  if isDirectory then "rm -rf " ++ dquote ++ path ++ dquote
  else "rm " ++ dquote ++ path ++ dquote.

(** [ipcMain.handle('delete-item', ...)] *)
Definition delete_item (c : client) (deviceId path : string) (isDirectory : bool)
  : promise ipc_result :=
  try_await (shell c deviceId (rm_command path isDirectory)).

End Main.

(** ** Renderer: what the transfer code can observe and do *)

(** [ipcRenderer.invoke(channel, args)] for the three channels the transfer
    functions call. The promise rejects exactly when the handler of the
    main process rejects. *)
Record ipc : Type := {
  invoke_pull_file : string -> string -> string -> promise Main.ipc_result;
  invoke_push_file : string -> string -> string -> promise Main.ipc_result;
  invoke_create_directory : string -> string -> promise Main.ipc_result
}.

(** The application as it is wired: every channel is served by its handler
    of the main process. *)
Definition main_process (c : Main.client) : ipc := {|
  invoke_pull_file := Main.pull_file c;
  invoke_push_file := Main.push_file c;
  invoke_create_directory := Main.create_directory c
|}.

(** The functions of Node's [path] module that the transfer code calls.
    They depend on the host platform and are taken as given. *)
Record node_path : Type := {
  join : string -> string -> string;
  basename : string -> string
}.

(** Messages handed to [setStatus]; [render_status] gives their text. *)
Inductive status : Type :=
| ErrorMessage (message : string)
| PreparingFrom (totalFiles : nat) (folder : string)
| ErrorCountingFiles (message : string)
| ErrorCreatingFolderOnAndroid (message : string)
| ErrorCreatingFolderLocally (message : string)
| ScanningAndroid
| Transferring (processedFiles totalFiles : nat) (name : string)
| ErrorAt (processedFiles totalFiles : nat) (name message : string)
| NoDeviceSelected
| NoItemsSelected
| TransferAlreadyInProgress
| PreparingTransferToAndroid
| PreparingTransferToLocal
| TransferringItem (current total : nat) (itemName : string)
| TransferComplete (successCount errorCount : nat)
| TransferCompletedRefreshed
| TransferError (message : string).

Definition render_status (s : status) : string :=
  match s with
  | ErrorMessage m => "Error: " ++ m
  | PreparingFrom n folder =>
      "Preparing to transfer " ++ show_nat n ++ " files from " ++ folder ++ "..."
  | ErrorCountingFiles m => "Error counting files: " ++ m
  | ErrorCreatingFolderOnAndroid m => "Error creating folder on Android: " ++ m
  | ErrorCreatingFolderLocally m => "Error creating folder locally: " ++ m
  | ScanningAndroid => "Scanning Android folder structure..."
  | Transferring p t name =>
      "Transferring " ++ show_nat p ++ "/" ++ show_nat t ++ ": " ++ name
  | ErrorAt p t name m =>
      "Error (" ++ show_nat p ++ "/" ++ show_nat t ++ "): " ++ name ++ " - " ++ m
  | NoDeviceSelected => "No device selected"
  | NoItemsSelected => "No items selected for transfer"
  | TransferAlreadyInProgress => "Transfer already in progress"
  | PreparingTransferToAndroid => "Preparing transfer to Android..."
  | PreparingTransferToLocal => "Preparing transfer to local..."
  | TransferringItem c t itemName =>
      "Transferring (" ++ show_nat c ++ "/" ++ show_nat t ++ "): " ++ itemName
  | TransferComplete s e =>
      "Transfer complete. Success: " ++ show_nat s ++ ", Errors: " ++ show_nat e
  | TransferCompletedRefreshed => "Transfer completed and views refreshed"
  | TransferError m => "Transfer error: " ++ m
  end.

(** The IPC invocations of the transfer code, with their arguments. *)
Inductive request : Type :=
| ListFiles (deviceId path : string)
| PullFile (deviceId remotePath localPath : string)
| PushFile (deviceId localPath remotePath : string)
| CreateDirectory (deviceId path : string).

(** The first argument of [updateProgressBar]: a literal percentage, or
    [Math.floor(done / total * 100)], kept unevaluated. *)
Inductive percent : Type :=
| Exactly (p : nat)
| FloorOf (done total : nat).

(** One entry of the trace of a run, in the order the calls are made:
    [setStatus], [ipcRenderer.invoke], [fs.mkdirSync],
    [updateProgressBar], the pair [loadLocalFiles(); loadAndroidFiles();],
    the assignment [state.isTransferring = b] and [clearSelections()]. *)
Inductive event : Type :=
| SetStatus (s : status)
| Invoke (r : request)
| MkdirSync (path : string)
| UpdateProgressBar (p : percent) (text : string)
| Refresh
| Assign_isTransferring (b : bool)
| Call_clearSelections.

(** The closure variables of a folder transfer. *)
Record counters : Type := {
  totalFiles : nat;
  processedFiles : nat;
  successCount : nat;
  errorCount : nat
}.

Definition initial (total : nat) : counters :=
  {| totalFiles := total; processedFiles := 0; successCount := 0; errorCount := 0 |}.

(** [processedFiles++; successCount++] *)
Definition file_succeeded (v : counters) : counters :=
  {| totalFiles := totalFiles v;
     processedFiles := S (processedFiles v);
     successCount := S (successCount v);
     errorCount := errorCount v |}.

(** [processedFiles++; errorCount++] *)
Definition file_failed (v : counters) : counters :=
  {| totalFiles := totalFiles v;
     processedFiles := S (processedFiles v);
     successCount := successCount v;
     errorCount := S (errorCount v) |}.

(** [errorCount++] *)
Definition error_counted (v : counters) : counters :=
  {| totalFiles := totalFiles v;
     processedFiles := processedFiles v;
     successCount := successCount v;
     errorCount := S (errorCount v) |}.

(** The object [{ success, errors }] a folder transfer returns. *)
Record result : Type := {
  success : nat;
  errors : nat
}.

(** [{ success: successCount, errors: errorCount }] *)
Definition current_result (v : counters) : result :=
  {| success := successCount v; errors := errorCount v |}.

(** [successCount += r.success; errorCount += r.errors] *)
Definition add_result (v : counters) (r : result) : counters :=
  {| totalFiles := totalFiles v;
     processedFiles := processedFiles v;
     successCount := successCount v + success r;
     errorCount := errorCount v + errors r |}.

(** A [for ... of] loop whose body updates the variables [v] of the
    enclosing function and never throws: the traces of the iterations are
    concatenated. *)
Definition for_of {A S : Type} (body : A -> S -> S * list event)
  : list A -> S -> S * list event :=
  fix each (items : list A) (v : S) {struct items} : S * list event :=
    match items with
    | [] => (v, [])
    | item :: rest =>
        let '(v1, t1) := body item v in
        let '(v2, t2) := each rest v1 in
        (v2, (t1 ++ t2)%list)
    end.

(** [items.forEach(callback)] for a callback that updates the variables
    [v] of the enclosing function and may throw. *)
Definition forEach {A S : Type} (callback : A -> S -> promise S)
  : list A -> S -> promise S :=
  fix each (items : list A) (v : S) {struct items} : promise S :=
    match items with
    | [] => Resolved v
    | item :: rest =>
        match callback item v with
        | Resolved v1 => each rest v1
        | Rejected message => Rejected message
        end
    end.

(** ** Single files *)

Section SingleFile.

Variable renderer : ipc.

(** [transferLocalFileToAndroid]: the returned boolean and the calls made. *)
Definition transferLocalFileToAndroid (deviceId localPath androidPath : string)
  : bool * list event :=
  match invoke_push_file renderer deviceId localPath androidPath with
  | Resolved _ => (true, [Invoke (PushFile deviceId localPath androidPath)])
  | Rejected message =>
      (false, [Invoke (PushFile deviceId localPath androidPath);
               SetStatus (ErrorMessage message)])
  end.

(** [transferAndroidFileToLocal] *)
Definition transferAndroidFileToLocal (deviceId androidPath localPath : string)
  : bool * list event :=
  match invoke_pull_file renderer deviceId androidPath localPath with
  | Resolved _ => (true, [Invoke (PullFile deviceId androidPath localPath)])
  | Rejected message =>
      (false, [Invoke (PullFile deviceId androidPath localPath);
               SetStatus (ErrorMessage message)])
  end.

End SingleFile.

(** ** Local folder to Android *)

(** The local source tree as [fs.readdirSync(dir, { withFileTypes: true })]
    shows it. [File] stands for every entry whose [isDirectory()] is
    false. Reading a directory throws an [Error] with message [m] when
    its [scandir_error] is [Some m], and returns [entries] otherwise. *)
#[warnings="-register-all"]
Inductive dirent : Type :=
| File (name : string)
| Directory (name : string) (scandir_error : option string) (entries : list dirent).

(** [countFiles]: the number of files below a directory, added to the
    closure variable [totalFiles]; it throws at the first directory that
    cannot be read. *)
Fixpoint countFiles_item (item : dirent) (total : nat) {struct item} : promise nat :=
  match item with
  | File _ => Resolved (S total)
  | Directory _ (Some message) _ => Rejected message
  | Directory _ None entries => forEach countFiles_item entries total
  end.

Definition countFiles (scandir_error : option string) (entries : list dirent)
  : promise nat :=
  countFiles_item (Directory EmptyString scandir_error entries) 0.

Section LocalToAndroid.

Variable host : node_path.
Variable renderer : ipc.
Variable deviceId : string.

(** The body of [processDirectory] once [fs.readdirSync] has answered:
    the loop over the items, then [return { success: successCount,
    errors: errorCount }]. The loop body is [item_body]. *)
Definition run_directory (item_body : dirent -> counters -> counters * list event)
    (scandir_error : option string) (entries : list dirent) (v : counters)
  : promise result * counters * list event :=
  match scandir_error with
  | Some message => (Rejected message, v, [])
  | None =>
      let '(v1, t) := for_of item_body entries v in
      (Resolved (current_result v1), v1, t)
  end.

(** One iteration of the loop of [processDirectory(localDir, androidDir)]. *)
Fixpoint processItem (localDir androidDir : string) (item : dirent) (v : counters)
    {struct item} : counters * list event :=
  match item with
  | Directory name scandir_error entries =>
      let localItemPath := join host localDir name in
      let androidItemPath := androidDir ++ "/" ++ name in
      match invoke_create_directory renderer deviceId androidItemPath with
      | Rejected _ =>
          (error_counted v, [Invoke (CreateDirectory deviceId androidItemPath)])
      | Resolved _ =>
          match run_directory (processItem localItemPath androidItemPath)
                              scandir_error entries v with
          | (Resolved subDirResult, v1, t) =>
              (add_result v1 subDirResult,
               Invoke (CreateDirectory deviceId androidItemPath) :: t)
          | (Rejected _, v1, t) =>
              (error_counted v1,
               Invoke (CreateDirectory deviceId androidItemPath) :: t)
          end
      end
  | File name =>
      let localItemPath := join host localDir name in
      let androidItemPath := androidDir ++ "/" ++ name in
      match invoke_push_file renderer deviceId localItemPath androidItemPath with
      | Resolved _ =>
          let v1 := file_succeeded v in
          (v1, [Invoke (PushFile deviceId localItemPath androidItemPath);
                SetStatus (Transferring (processedFiles v1) (totalFiles v1) name)])
      | Rejected message =>
          let v1 := file_failed v in
          (v1, [Invoke (PushFile deviceId localItemPath androidItemPath);
                SetStatus (ErrorAt (processedFiles v1) (totalFiles v1) name message)])
      end
  end.

(** [processDirectory(localDir, androidDir)] *)
Definition processDirectory (localDir androidDir : string)
    (scandir_error : option string) (entries : list dirent) (v : counters)
  : promise result * counters * list event :=
  run_directory (processItem localDir androidDir) scandir_error entries v.

(** [transferLocalFolderToAndroid(deviceId, localFolderPath,
    androidFolderPath, setStatus)] on a local folder whose listing is
    [scandir_error], [entries]. *)
Definition transferLocalFolderToAndroid (localFolderPath androidFolderPath : string)
    (scandir_error : option string) (entries : list dirent)
  : promise result * list event :=
  match countFiles scandir_error entries with
  | Rejected message =>
      (Resolved {| success := 0; errors := 1 |},
       [SetStatus (ErrorCountingFiles message)])
  | Resolved total =>
      let prepared :=
        [SetStatus (PreparingFrom total (basename host localFolderPath));
         Invoke (CreateDirectory deviceId androidFolderPath)] in
      match invoke_create_directory renderer deviceId androidFolderPath with
      | Rejected message =>
          (Resolved {| success := 0; errors := 1 |},
           (prepared ++ [SetStatus (ErrorCreatingFolderOnAndroid message)])%list)
      | Resolved _ =>
          let '(outcome, _, t) :=
            processDirectory localFolderPath androidFolderPath
                             scandir_error entries (initial total) in
          (outcome, (prepared ++ t)%list)
      end
  end.

End LocalToAndroid.

(** ** Android folder to local *)

(** JavaScript's [ToInt32]: the operands of a bitwise operator are reduced
    modulo 2^32 into the signed 32-bit range. *)
Definition to_int32 (z : Z) : Z := ((z + 2 ^ 31) mod 2 ^ 32 - 2 ^ 31)%Z.

(** JavaScript's [a & b] on integers. *)
Definition js_bitand (a b : Z) : Z := Z.land (to_int32 a) (to_int32 b).

(** [(item.mode & 0x4000) === 0x4000], the test of
    [listAndroidFilesRecursively]. *)
Definition isDir (mode : Z) : bool := Z.eqb (js_bitand mode 0x4000) 0x4000.

(** The remote source tree. An entry is what [list-files] reports for it
    ([name], [mode], [size]); [listing_error] and [children] say what
    [list-files] answers when it is asked for the entry's own path: it
    rejects with message [m] when [listing_error] is [Some m], and
    resolves with [children] otherwise. *)
#[warnings="-register-all"]
Inductive remote_entry : Type :=
| RemoteEntry (name : string) (mode : Z) (size : Z)
              (listing_error : option string) (children : list remote_entry).

Record android_file : Type := {
  file_path : string;
  file_name : string;
  file_size : Z
}.

Record android_directory : Type := {
  dir_path : string;
  dir_name : string
}.

(** The object [results] of [listAndroidFilesRecursively]. *)
Record file_list : Type := {
  files : list android_file;
  directories : list android_directory
}.

Definition empty_results : file_list := {| files := []; directories := [] |}.

(** [results.directories.push(d)] *)
Definition push_directory (results : file_list) (d : android_directory) : file_list :=
  {| files := files results; directories := (directories results ++ [d])%list |}.

(** [results.files.push(f)] *)
Definition push_file (results : file_list) (f : android_file) : file_list :=
  {| files := (files results ++ [f])%list; directories := directories results |}.

(** [results.files.push(...sub.files);
     results.directories.push(...sub.directories)] *)
Definition push_all (results sub : file_list) : file_list :=
  {| files := (files results ++ files sub)%list;
     directories := (directories results ++ directories sub)%list |}.

(** [path.endsWith('/')] *)
Fixpoint endsWith_slash (path : string) : bool :=
  match path with
  | EmptyString => false
  | String c EmptyString => Ascii.eqb c "/"%char
  | String _ rest => endsWith_slash rest
  end.

(** [path.endsWith('/') ? path + name : path + '/' + name], the [itemPath]
    of [listAndroidFilesRecursively]. *)
Definition itemPath_of (path name : string) : string :=
  if endsWith_slash path then path ++ name else path ++ "/" ++ name.

(** [s.substring(start)] *)
Definition substring_from (start : nat) (s : string) : string :=
  substring start (String.length s - start) s.

(** A [for ... of] loop over [results] whose body may throw: the first
    exception leaves the loop. *)
Definition for_of_throwing {A S : Type} (body : A -> S -> promise S * list event)
  : list A -> S -> promise S * list event :=
  fix each (items : list A) (acc : S) {struct items} : promise S * list event :=
    match items with
    | [] => (Resolved acc, [])
    | item :: rest =>
        match body item acc with
        | (Resolved acc1, t1) =>
            let '(outcome, t2) := each rest acc1 in
            (outcome, (t1 ++ t2)%list)
        | (Rejected message, t1) => (Rejected message, t1)
        end
    end.

(** The local disk on the destination side: which paths exist before the
    transfer, and whether [fs.mkdirSync(path, { recursive: true })]
    throws. Of the directories a transfer makes, the model keeps those it
    names in a call; a directory is always named after its parent. *)
Record local_disk : Type := {
  exists_before : string -> bool;
  mkdir : string -> promise unit
}.

Definition mem (p : string) (made : list string) : bool :=
  existsb (String.eqb p) made.

Section AndroidToLocal.

Variable host : node_path.
Variable renderer : ipc.
Variable disk : local_disk.
Variable deviceId : string.

(** The body of [listAndroidFilesRecursively(path)]: the [list-files]
    invocation, then the loop into a fresh [results]; any rejection is
    thrown again. The loop body is [item_body]. *)
Definition run_listing (item_body : remote_entry -> file_list -> promise file_list * list event)
    (path : string) (listing_error : option string) (children : list remote_entry)
  : promise file_list * list event :=
  match listing_error with
  | Some message => (Rejected message, [Invoke (ListFiles deviceId path)])
  | None =>
      let '(outcome, t) := for_of_throwing item_body children empty_results in
      (outcome, Invoke (ListFiles deviceId path) :: t)
  end.

(** One iteration of the loop of [listAndroidFilesRecursively(path)]. *)
Fixpoint listItem (path : string) (item : remote_entry) (results : file_list)
    {struct item} : promise file_list * list event :=
  match item with
  | RemoteEntry name mode size listing_error children =>
      let itemPath := itemPath_of path name in
      if isDir mode then
        let results1 :=
          push_directory results {| dir_path := itemPath; dir_name := name |} in
        match run_listing (listItem itemPath) itemPath listing_error children with
        | (Resolved subResults, t) => (Resolved (push_all results1 subResults), t)
        | (Rejected message, t) => (Rejected message, t)
        end
      else
        (Resolved (push_file results
                     {| file_path := itemPath; file_name := name; file_size := size |}),
         [])
  end.

(** [listAndroidFilesRecursively(path)] *)
Definition listAndroidFilesRecursively (path : string)
    (listing_error : option string) (children : list remote_entry)
  : promise file_list * list event :=
  run_listing (listItem path) path listing_error children.

(** [if (!fs.existsSync(p)) { fs.mkdirSync(p, { recursive: true }); }]
    where [made] lists the directories this transfer has made so far. *)
Definition ensure_directory (p : string) (made : list string)
  : promise (list string) * list event :=
  if exists_before disk p || mem p made then (Resolved made, [])
  else
    match mkdir disk p with
    | Resolved _ => (Resolved (p :: made), [MkdirSync p])
    | Rejected message => (Rejected message, [MkdirSync p])
    end.

Section Executor.

Variables androidFolderPath localFolderPath : string.

(** [path.join(localFolderPath, p.substring(androidFolderPath.length))] *)
Definition targetPath (p : string) : string :=
  join host localFolderPath (substring_from (String.length androidFolderPath) p).

(** The loop "Create all directories first". *)
Definition create_directories
  : list android_directory -> list string -> promise (list string) * list event :=
  for_of_throwing (fun dir made => ensure_directory (targetPath (dir_path dir)) made).

(** One iteration of the loop "Then transfer all files". *)
Definition pull_one (file : android_file) (v : counters) : counters * list event :=
  let target := targetPath (file_path file) in
  match invoke_pull_file renderer deviceId (file_path file) target with
  | Resolved _ =>
      let v1 := file_succeeded v in
      (v1, [Invoke (PullFile deviceId (file_path file) target);
            SetStatus (Transferring (processedFiles v1) (totalFiles v1)
                                    (file_name file))])
  | Rejected message =>
      let v1 := file_failed v in
      (v1, [Invoke (PullFile deviceId (file_path file) target);
            SetStatus (ErrorAt (processedFiles v1) (totalFiles v1)
                               (file_name file) message)])
  end.

(** [transferAndroidFolderToLocal(deviceId, androidFolderPath,
    localFolderPath, setStatus)] on a remote folder whose listing is
    [listing_error], [children]. *)
Definition transferAndroidFolderToLocal
    (listing_error : option string) (children : list remote_entry)
  : result * list event :=
  match ensure_directory localFolderPath [] with
  | (Rejected message, t0) =>
      ({| success := 0; errors := 1 |},
       (t0 ++ [SetStatus (ErrorCreatingFolderLocally message)])%list)
  | (Resolved made, t0) =>
      match listAndroidFilesRecursively androidFolderPath listing_error children with
      | (Rejected message, t1) =>
          ({| success := 0; errors := 0 + 1 |},
           (t0 ++ SetStatus ScanningAndroid :: t1
               ++ [SetStatus (ErrorMessage message)])%list)
      | (Resolved fileList, t1) =>
          let total := List.length (files fileList) in
          let scanned :=
            (t0 ++ SetStatus ScanningAndroid :: t1
                ++ [SetStatus (PreparingFrom total "Android")])%list in
          match create_directories (directories fileList) made with
          | (Rejected message, t2) =>
              ({| success := 0; errors := 0 + 1 |},
               (scanned ++ t2 ++ [SetStatus (ErrorMessage message)])%list)
          | (Resolved _, t2) =>
              let '(v, t3) := for_of pull_one (files fileList) (initial total) in
              (current_result v, (scanned ++ t2 ++ t3)%list)
          end
      end
  end.

End Executor.

End AndroidToLocal.

(** ** Rendering a file list (modules/fileSystem.js) *)


(** [itemElem.dataset.isDir = isDir ? 'true' : 'false'] *)
Definition dataset_isDir (isDir : bool) : string :=
  if isDir then "true" else "false".

(** ** The shared state (modules/state.js) *)

(** The [state] object. The two selection sets are JavaScript [Set]s,
    kept here in insertion order, which is the order a [for ... of] visits
    them in. *)
Record state : Type := {
  selectedDevice : option string;
  localPath : string;
  androidPath : string;
  localSelectedItems : list string;
  androidSelectedItems : list string;
  isTransferring : bool;
  isSwapped : bool
}.

(** The initial value of [state] for a home directory [homedir]. *)
Definition initial_state (homedir : string) : state := {|
  selectedDevice := None;
  localPath := homedir;
  androidPath := "/sdcard";
  localSelectedItems := [];
  androidSelectedItems := [];
  isTransferring := false;
  isSwapped := false
|}.

(** [clearSelections()] *)
Definition clearSelections (st : state) : state := {|
  selectedDevice := selectedDevice st;
  localPath := localPath st;
  androidPath := androidPath st;
  localSelectedItems := [];
  androidSelectedItems := [];
  isTransferring := isTransferring st;
  isSwapped := isSwapped st
|}.

(** [state.isTransferring = b] *)
Definition set_isTransferring (b : bool) (st : state) : state := {|
  selectedDevice := selectedDevice st;
  localPath := localPath st;
  androidPath := androidPath st;
  localSelectedItems := localSelectedItems st;
  androidSelectedItems := androidSelectedItems st;
  isTransferring := b;
  isSwapped := isSwapped st
|}.

(** ** The transfer buttons (renderer.js) *)

(** [s.replace(/[...]/g, '_')] for a character class [bad]. *)
Fixpoint replace_class (bad : ascii -> bool) (s : string) : string :=
  match s with
  | EmptyString => EmptyString
  | String c rest =>
      String (if bad c then "_"%char else c) (replace_class bad rest)
  end.

Definition one_of (class : list ascii) (c : ascii) : bool :=
  existsb (Ascii.eqb c) class.

Definition double_quote : ascii := ascii_of_nat 34.

(** The character class of the Android target name: backslash, slash,
    bar, colon, ampersand, both angle brackets, double quote, question
    mark and star. *)
Definition android_unsafe : ascii -> bool :=
  one_of ["\"; "/"; "|"; ":"; "&"; ">"; "<"; double_quote; "?"; "*"]%char.

(** The character class of the local target name: backslash, slash,
    colon, star, question mark, double quote, both angle brackets and
    bar. *)
Definition local_unsafe : ascii -> bool :=
  one_of ["\"; "/"; ":"; "*"; "?"; double_quote; "<"; ">"; "|"]%char.

(** [s.replace(/\/+/g, '/')] *)
Fixpoint collapse_slashes (s : string) : string :=
  match s with
  | EmptyString => EmptyString
  | String c rest =>
      match rest with
      | String d _ =>
          if Ascii.eqb c "/" && Ascii.eqb d "/" then collapse_slashes rest
          else String c (collapse_slashes rest)
      | EmptyString => String c EmptyString
      end
  end.

(** [s.replace(/\\/g, '/')] *)
Fixpoint backslashes_to_slashes (s : string) : string :=
  match s with
  | EmptyString => EmptyString
  | String c rest =>
      String (if Ascii.eqb c "\" then "/"%char else c) (backslashes_to_slashes rest)
  end.

(** [s.includes('.')] *)
Fixpoint includes_dot (s : string) : bool :=
  match s with
  | EmptyString => false
  | String c rest => Ascii.eqb c "." || includes_dot rest
  end.

(** What the handler learns about a local path from [fs.existsSync] and
    [fs.statSync]; a directory comes with its listing. *)
Inductive local_stat : Type :=
| Missing
| StatThrows (message : string)
| IsFile
| IsDirectory (scandir_error : option string) (entries : list dirent).

(** The answer of
    [document.querySelector('#android-files .file-item[data-name=...]')]:
    the selector is refused, no element matches, or an element is found,
    with its [dataset.isDir] when that is a string. *)
Inductive dom_query : Type :=
| SelectorThrows (message : string)
| NotFound
| Found (dataset_isDir : option string).

(** The [isDirectory] of the transfer-to-local handler. *)
Definition android_isDirectory (q : dom_query) (itemName : string) : bool :=
  match q with
  | Found (Some isDir) => String.eqb isDir "true"
  | Found None => false
  | NotFound => negb (includes_dot itemName)
  | SelectorThrows _ => false
  end.

(** [successCount++] and [errorCount++] of a handler. *)
Definition one_more_success (r : result) : result :=
  {| success := S (success r); errors := errors r |}.
Definition one_more_error (r : result) : result :=
  {| success := success r; errors := S (errors r) |}.
Definition plus_result (r folderResult : result) : result :=
  {| success := success r + success folderResult;
     errors := errors r + errors folderResult |}.

(** The first statements of a handler that passed its guards, and its
    [finally] block. *)
Definition started (st : state) : state := set_isTransferring true st.
Definition finished (st : state) : state := clearSelections (set_isTransferring false st).

(** [!state.selectedDevice]: [null] and the empty string are both falsy. *)
Definition no_device (st : state) : bool :=
  match selectedDevice st with
  | None => true
  | Some d => String.eqb d EmptyString
  end.

(** The guards of a transfer handler whose selection is [selection]: the
    status of the early return, if one is taken. *)
Definition guard (st : state) (selection : list string) : option status :=
  if no_device st then Some NoDeviceSelected
  else if Nat.eqb (List.length selection) 0 then Some NoItemsSelected
  else if isTransferring st then Some TransferAlreadyInProgress
  else None.

(** The guards of the transfer-to-Android handler. *)
Definition toAndroid_guard (st : state) : option status :=
  guard st (localSelectedItems st).

(** The guards of the transfer-to-local handler. *)
Definition toLocal_guard (st : state) : option status :=
  guard st (androidSelectedItems st).

Section Handlers.

Variable host : node_path.
Variable renderer : ipc.
Variable disk : local_disk.
(** [fs.existsSync] and [fs.statSync] of a local path. *)
Variable stat_of : string -> local_stat.
(** What [list-files] answers for a remote folder. *)
Variable listing_of : string -> option string * list remote_entry.
(** The rendered Android list, queried by item name. *)
Variable query : string -> dom_query.
(** [loadLocalFiles(); loadAndroidFiles();], which may throw. *)
Variable load_views : promise unit.

(** The tail shared by both handlers: the last statements of the [try]
    block and, when they throw, the [catch (err)] block, whose second
    refresh throws in turn and makes the handler reject; the [finally]
    block follows in either case. *)
Definition complete_and_refresh (r : result) : promise unit * list event :=
  let summary :=
    [UpdateProgressBar (Exactly 100) "Complete";
     SetStatus (TransferComplete (success r) (errors r));
     Refresh] in
  match load_views with
  | Resolved _ => (Resolved tt, (summary ++ [SetStatus TransferCompletedRefreshed])%list)
  | Rejected message =>
      (Rejected message, (summary ++ [SetStatus (TransferError message); Refresh])%list)
  end.

(** One iteration of the loop over [state.localSelectedItems]; the
    variables are [successCount], [errorCount] and [current]. *)
Definition toAndroid_item (st : state) (device : string) (total : nat)
    (itemName : string) (acc : result * nat) : (result * nat) * list event :=
  let '(r, previous) := acc in
  let current := S previous in
  let localItemPath := join host (localPath st) itemName in
  let sanitizedItemName := replace_class android_unsafe itemName in
  let androidTargetPath :=
    collapse_slashes (androidPath st ++ "/" ++ sanitizedItemName) in
  let announced :=
    [SetStatus (TransferringItem current total itemName);
     UpdateProgressBar (FloorOf (current - 1) total)
                       (show_nat current ++ "/" ++ show_nat total)] in
  let closing :=
    [UpdateProgressBar (FloorOf current total)
                       (show_nat current ++ "/" ++ show_nat total)] in
  match stat_of localItemPath with
  | Missing => ((one_more_error r, current), [])
  | StatThrows _ => ((one_more_error r, current), [])
  | IsDirectory scandir_error entries =>
      match transferLocalFolderToAndroid host renderer device
              localItemPath androidTargetPath scandir_error entries with
      | (Resolved folderResult, t) =>
          ((plus_result r folderResult, current), (announced ++ t ++ closing)%list)
      | (Rejected _, t) =>
          ((one_more_error r, current), (announced ++ t ++ closing)%list)
      end
  | IsFile =>
      let '(ok, t) :=
        transferLocalFileToAndroid renderer device localItemPath androidTargetPath in
      ((if ok then one_more_success r else one_more_error r, current),
       (announced ++ t ++ closing)%list)
  end.

(** The click handler of [transferToAndroidBtn]: the state it leaves,
    the calls it makes and whether its promise rejects. *)
Definition transferToAndroid_click (st : state) : state * list event * promise unit :=
  match toAndroid_guard st with
  | Some s => (st, [SetStatus s], Resolved tt)
  | None =>
      let st1 := started st in
      let device := match selectedDevice st1 with Some d => d | None => EmptyString end in
      let total := List.length (localSelectedItems st1) in
      let '((r, _), t) :=
        for_of (toAndroid_item st1 device total) (localSelectedItems st1)
               ({| success := 0; errors := 0 |}, 0) in
      let '(outcome, t') := complete_and_refresh r in
      (finished st1,
       (Assign_isTransferring true :: SetStatus PreparingTransferToAndroid
          :: t ++ t' ++ [Assign_isTransferring false; Call_clearSelections])%list,
       outcome)
  end.

(** One iteration of the loop over [state.androidSelectedItems]. *)
Definition toLocal_item (st : state) (device : string) (total : nat)
    (itemName : string) (acc : result * nat) : (result * nat) * list event :=
  let '(r, previous) := acc in
  let current := S previous in
  let androidItemPath :=
    backslashes_to_slashes (join host (androidPath st) itemName) in
  let sanitizedItemName := replace_class local_unsafe itemName in
  let localTargetPath := join host (localPath st) sanitizedItemName in
  let isDirectory := android_isDirectory (query itemName) itemName in
  let announced :=
    [SetStatus (TransferringItem current total itemName);
     UpdateProgressBar (FloorOf (current - 1) total)
                       (show_nat current ++ "/" ++ show_nat total)] in
  let closing :=
    [UpdateProgressBar (FloorOf current total)
                       (show_nat current ++ "/" ++ show_nat total)] in
  if isDirectory then
    let '(scandir_error, children) := listing_of androidItemPath in
    let '(folderResult, t) :=
      transferAndroidFolderToLocal host renderer disk device
        androidItemPath localTargetPath scandir_error children in
    ((plus_result r folderResult, current), (announced ++ t ++ closing)%list)
  else
    let '(ok, t) :=
      transferAndroidFileToLocal renderer device androidItemPath localTargetPath in
    ((if ok then one_more_success r else one_more_error r, current),
     (announced ++ t ++ closing)%list).

(** The click handler of [transferToLocalBtn]. *)
Definition transferToLocal_click (st : state) : state * list event * promise unit :=
  match toLocal_guard st with
  | Some s => (st, [SetStatus s], Resolved tt)
  | None =>
      let st1 := started st in
      let device := match selectedDevice st1 with Some d => d | None => EmptyString end in
      let total := List.length (androidSelectedItems st1) in
      let '((r, _), t) :=
        for_of (toLocal_item st1 device total) (androidSelectedItems st1)
               ({| success := 0; errors := 0 |}, 0) in
      let '(outcome, t') := complete_and_refresh r in
      (finished st1,
       (Assign_isTransferring true :: SetStatus PreparingTransferToLocal
          :: t ++ t' ++ [Assign_isTransferring false; Call_clearSelections])%list,
       outcome)
  end.

End Handlers.

(** ** The renderer between two events *)

(** The shared state together with the number of transfer handlers that
    have passed their guards and not reached their [finally] block yet:
    the transfers in flight. *)
Record app : Type := {
  shared : state;
  in_flight : nat
}.

(** What can happen next. A transfer handler suspends at each [await], so
    other events are served while it runs: a click on either transfer
    button, a running handler reaching its [finally] block, or any other
    handler, which may assign every field of [state] but
    [isTransferring]. *)
Inductive action : Type :=
| ClickTransferToAndroid
| ClickTransferToLocal
| HandlerFinishes
| OtherHandler (update : state).

Definition keep_isTransferring (st update : state) : state :=
  set_isTransferring (isTransferring st) update.

Definition begin_if_accepted (a : app) (g : option status) : app :=
  match g with
  | Some _ => a
  | None => {| shared := started (shared a); in_flight := S (in_flight a) |}
  end.

Definition step (a : app) (x : action) : app :=
  match x with
  | ClickTransferToAndroid => begin_if_accepted a (toAndroid_guard (shared a))
  | ClickTransferToLocal => begin_if_accepted a (toLocal_guard (shared a))
  | HandlerFinishes =>
      match in_flight a with
      | 0 => a
      | S n => {| shared := finished (shared a); in_flight := n |}
      end
  | OtherHandler update =>
      {| shared := keep_isTransferring (shared a) update; in_flight := in_flight a |}
  end.

Definition run_app (a : app) (xs : list action) : app := fold_left step xs a.

Definition boot (homedir : string) : app :=
  {| shared := initial_state homedir; in_flight := 0 |}.

(** ** Vocabulary of the specification *)

(** Whether a string holds a slash. *)
Fixpoint includes_slash (s : string) : bool :=
  match s with
  | EmptyString => false
  | String c rest => Ascii.eqb c "/" || includes_slash rest
  end.

(** What an IPC handler owes to the bridge call [work] it wraps: it
    resolves, with [{ success: true }] when [work] resolved and with
    [{ success: false, error: message }] when [work] rejected. *)
Definition answers (work : promise unit) (answer : promise Main.ipc_result) : Prop :=
  match work with
  | Resolved _ => answer = Resolved {| Main.success := true; Main.error := None |}
  | Rejected message =>
      answer = Resolved {| Main.success := false; Main.error := Some message |}
  end.



(** The events a transfer function of modules/transferOperations.js can
    cause: it sets the status, invokes the main process and makes local
    directories; it never touches [state]. *)
Inductive transfer_event : event -> Prop :=
| transfer_status (s : status) : transfer_event (SetStatus s)
| transfer_invoke (r : request) : transfer_event (Invoke r)
| transfer_mkdir (p : string) : transfer_event (MkdirSync p).

(** The only event of a scan: a [list-files] invocation. *)
Inductive listing_event : event -> Prop :=
| listing_invoke (deviceId path : string) : listing_event (Invoke (ListFiles deviceId path)).

(** The events that assign to [state]. *)
Definition touches_state (e : event) : bool :=
  match e with
  | Assign_isTransferring _ => true
  | Call_clearSelections => true
  | _ => false
  end.

Definition leaves_state_alone (e : event) : Prop := touches_state e = false.

(** The run of a handler that passed its guards on [st]: it sets the flag
    first, leaves [state] alone while it works, and ends with its
    [finally] block, in the state [finished (started st)]. *)
Definition bracketed (st : state) (out : state * list event * promise unit) : Prop :=
  exists (work : list event) (outcome : promise unit),
    out = (finished (started st),
           (Assign_isTransferring true :: work
              ++ [Assign_isTransferring false; Call_clearSelections])%list,
           outcome)
    /\ existsb touches_state work = false.

(** The flag tells how many transfers are in flight. *)
Definition flag_counts (a : app) : Prop :=
  in_flight a = if isTransferring (shared a) then 1 else 0.

(** The calls that change the destination of a transfer: a directory made
    locally, and a file pulled, a file pushed or a directory created
    through the main process. *)
Definition touches_destination (e : event) : bool :=
  match e with
  | MkdirSync _ => true
  | Invoke (PullFile _ _ _) => true
  | Invoke (PushFile _ _ _) => true
  | Invoke (CreateDirectory _ _) => true
  | _ => false
  end.

Definition destination_calls (t : list event) : list event :=
  filter touches_destination t.




(** A file name, as every file system hands it out, has no slash. *)
Definition slash_free (name : string) : bool := negb (includes_slash name).

Fixpoint well_named (item : dirent) : bool :=
  match item with
  | File name => slash_free name
  | Directory name _ entries => slash_free name && forallb well_named entries
  end.

Fixpoint remote_well_named (item : remote_entry) : bool :=
  match item with
  | RemoteEntry name _ _ _ children =>
      slash_free name && forallb remote_well_named children
  end.

(** [D] is a directory on the way to [p]: [p] is [D], a slash, and the
    rest of the path. *)
Definition ancestor (D p : string) : Prop := exists rest, p = D ++ "/" ++ rest.

(** [D] is the root of the transfer or lies above it: the root starts
    with [D]. Such a directory is not for the transfer to make. *)
Definition above (D root : string) : Prop := exists rest, root = D ++ rest.

(** One step of a folder transfer on the destination side, named by the
    source-side or device-side path the code computes for it. *)
Inductive entry : Type :=
| MakeDirectory (path : string)
| CopyFile (path : string).

Definition entry_path (e : entry) : string :=
  match e with
  | MakeDirectory path => path
  | CopyFile path => path
  end.

(** The processing order of a transfer from local to Android, read off
    its trace: the directories created and the files pushed, by their
    Android paths. *)
Definition processed (e : event) : list entry :=
  match e with
  | Invoke (CreateDirectory _ path) => [MakeDirectory path]
  | Invoke (PushFile _ _ remotePath) => [CopyFile remotePath]
  | _ => []
  end.

Definition processing_order (t : list event) : list entry := flat_map processed t.

(** The processing order of the plan of a transfer from Android to local:
    the loop over [fileList.directories], then the loop over
    [fileList.files]. *)
Definition dir_order (dirs : list android_directory) : list entry :=
  map (fun d => MakeDirectory (dir_path d)) dirs.

Definition file_order (fileList : list android_file) : list entry :=
  map (fun f => CopyFile (file_path f)) fileList.

Definition plan_order (fileList : file_list) : list entry :=
  (dir_order (directories fileList) ++ file_order (files fileList))%list.

(** Parent before child: whatever is processed at position [i], each
    directory [D] on the way to it, below the root of the transfer, has its
    creation entry at a position [j < i]. *)
Definition parent_before_child (root : string) (order : list entry) : Prop :=
  forall i e D,
    nth_error order i = Some e ->
    ancestor D (entry_path e) ->
    above D root
    \/ exists j, j < i /\ nth_error order j = Some (MakeDirectory D).

(** A requirement checked from left to right along a processing order:
    [created] holds the directories made so far, and each entry has to
    meet the requirement when its turn comes. *)
Definition creates (e : entry) (D : string) : Prop :=
  match e with
  | MakeDirectory path => D = path
  | CopyFile _ => False
  end.

Fixpoint monitored (requirement : (string -> Prop) -> entry -> Prop)
    (created : string -> Prop) (order : list entry) : Prop :=
  match order with
  | [] => True
  | e :: rest =>
      requirement created e
      /\ monitored requirement (fun D => created D \/ creates e D) rest
  end.

(** A requirement that keeps holding when more directories are made. *)
Definition monotone (requirement : (string -> Prop) -> entry -> Prop) : Prop :=
  forall (created created' : string -> Prop) e,
    (forall D, created D -> created' D) ->
    requirement created e -> requirement created' e.

(** Every directory on the way to the entry is above the root or made. *)
Definition way_made (root : string) (created : string -> Prop) (e : entry) : Prop :=
  forall D, ancestor D (entry_path e) -> above D root \/ created D.

(** The directory that holds a copied file is made: the path of the file
    is the path of that directory, a slash, and a name without slash. *)
Definition holder_made (created : string -> Prop) (e : entry) : Prop :=
  match e with
  | CopyFile path =>
      exists dir name,
        path = dir ++ "/" ++ name /\ slash_free name = true /\ created dir
  | MakeDirectory _ => True
  end.

(** The directories made by a stretch of the processing order. *)
Definition made_by (order : list entry) (D : string) : Prop :=
  In (MakeDirectory D) order.

(** [path] with a slash at its end, as its children see it. *)
Definition slashed (path : string) : string :=
  if endsWith_slash path then path else path ++ "/".

(** All that lies on the way to the children of a directory, whose path
    with its slash is [prefix], is above the root or has been made. *)
Definition way_covered (root : string) (created : string -> Prop) (prefix : string)
  : Prop :=
  forall D, ancestor D prefix -> above D root \/ created D.

(** What a stretch of the scan adds to [results]: directories in an order
    that meets [way_made], and files whose way is made once those
    directories are. *)
Definition extends_plan (root : string) (created : string -> Prop)
    (results results' : file_list) : Prop :=
  exists newdirs newfiles,
    directories results' = (directories results ++ newdirs)%list
    /\ files results' = (files results ++ newfiles)%list
    /\ monitored (way_made root) created (dir_order newdirs)
    /\ Forall (fun f => way_made root
                          (fun D => created D \/ made_by (dir_order newdirs) D)
                          (CopyFile (file_path f)))
              newfiles.

(** Every file copy of the processing order at position [i] goes into a
    directory whose creation stands at a position [j < i]: the directory
    that holds the file, its path being what stands before the last slash
    of the path of the file. *)
Definition holder_before_file (order : list entry) : Prop :=
  forall i path,
    nth_error order i = Some (CopyFile path) ->
    exists dir name j,
      path = dir ++ "/" ++ name
      /\ slash_free name = true
      /\ j < i
      /\ nth_error order j = Some (MakeDirectory dir).

(** The calls of a trace that make a directory on the destination, and
    those that copy a file to it. *)
Definition makes_directory (e : event) : bool :=
  match e with
  | MkdirSync _ => true
  | Invoke (CreateDirectory _ _) => true
  | _ => false
  end.

Definition copies_file (e : event) : bool :=
  match e with
  | Invoke (PullFile _ _ _) => true
  | Invoke (PushFile _ _ _) => true
  | _ => false
  end.

(** Every directory is made before any file is copied. *)
Definition directories_first (t : list event) : Prop :=
  forall i j made copied,
    nth_error t i = Some made -> makes_directory made = true ->
    nth_error t j = Some copied -> copies_file copied = true ->
    i < j.

(** ** Fixtures *)

(** What follows the last slash of a path. *)
Fixpoint last_segment (s : string) : string :=
  match s with
  | EmptyString => EmptyString
  | String c rest =>
      if includes_slash rest then last_segment rest
      else if Ascii.eqb c "/" then rest else s
  end.

(** A host whose [path.join] glues with a slash and collapses repeated
    slashes, and whose [path.basename] keeps what follows the last slash;
    on the paths of the examples below this is what Node does on a POSIX
    host. *)
Definition posix : node_path :=
  {| join := fun a b => collapse_slashes (a ++ "/" ++ b); basename := last_segment |}.

(** A bridge on which every call succeeds. *)
Definition healthy : Main.client := {|
  Main.pull := fun _ remotePath => Resolved remotePath;
  Main.pipe := fun _ _ => Resolved tt;
  Main.push := fun _ _ _ => Resolved tt;
  Main.shell := fun _ _ => Resolved tt
|}.

(** A bridge that fails to copy the one file named [bad], in either
    direction, and succeeds at everything else. *)
Definition failing_on (bad : string) : Main.client := {|
  Main.pull := fun _ remotePath =>
    if String.eqb remotePath bad then Rejected "remote object does not exist"
    else Resolved remotePath;
  Main.pipe := fun _ _ => Resolved tt;
  Main.push := fun _ localPath _ =>
    if String.eqb localPath bad then Rejected "Permission denied"
    else Resolved tt;
  Main.shell := fun _ _ => Resolved tt
|}.

(** A bridge whose device went away: every call fails. *)
Definition offline : Main.client := {|
  Main.pull := fun _ _ => Rejected "device offline";
  Main.pipe := fun _ _ => Rejected "device offline";
  Main.push := fun _ _ _ => Rejected "device offline";
  Main.shell := fun _ _ => Rejected "device offline"
|}.

(** An [ipcRenderer.invoke] that would reject when the one file [bad]
    cannot be copied; the handlers of the main process never do. *)
Definition rejecting_on (bad : string) : ipc := {|
  invoke_pull_file := fun _ remotePath _ =>
    if String.eqb remotePath bad then Rejected "remote object does not exist"
    else Resolved Main.ok;
  invoke_push_file := fun _ localPath _ =>
    if String.eqb localPath bad then Rejected "Permission denied"
    else Resolved Main.ok;
  invoke_create_directory := fun _ _ => Resolved Main.ok
|}.

(** A local disk on which nothing exists yet and every directory can be
    made; a lookup that finds a regular file everywhere; a remote side
    without folders; a rendered list without elements. *)
Definition empty_disk : local_disk :=
  {| exists_before := fun _ => false; mkdir := fun _ => Resolved tt |}.
Definition all_files (p : string) : local_stat := IsFile.
Definition no_listing (p : string) : option string * list remote_entry := (None, []).
Definition no_element (name : string) : dom_query := NotFound.


(** A state in which a transfer is running, a device is selected, and
    nothing is selected on the local side. *)
Definition busy_without_selection : state := {|
  selectedDevice := Some "emulator-5554";
  localPath := "/home/u";
  androidPath := "/sdcard";
  localSelectedItems := [];
  androidSelectedItems := ["DCIM"];
  isTransferring := true;
  isSwapped := false
|}.

(** A state in which a transfer is running while items are selected on
    both sides. *)
Definition busy_with_selection : state := {|
  selectedDevice := Some "emulator-5554";
  localPath := "/home/u";
  androidPath := "/sdcard";
  localSelectedItems := ["a.txt"];
  androidSelectedItems := ["DCIM"];
  isTransferring := true;
  isSwapped := false
|}.

(** An idle state with one local file selected. *)
Definition one_file_selected : state := {|
  selectedDevice := Some "emulator-5554";
  localPath := "/home/u";
  androidPath := "/sdcard";
  localSelectedItems := ["a.txt"];
  androidSelectedItems := [];
  isTransferring := false;
  isSwapped := false
|}.

(** A local folder with one file and one subfolder that holds one file. *)
Definition music_folder : list dirent :=
  [File "a.mp3"; Directory "live" None [File "b.mp3"]].

(** A local folder with two files, and a remote folder with two files. *)
Definition two_songs : list dirent := [File "a.mp3"; File "b.mp3"].
Definition two_pictures : list remote_entry :=
  [RemoteEntry "a.jpg" 33188 10 None []; RemoteEntry "b.jpg" 33188 20 None []].

(** A local folder whose only file sits in a subfolder. *)
Definition nested_song : list dirent := [Directory "live" None [File "b.mp3"]].

(** A local folder three levels deep. *)
Definition deep_folder : list dirent :=
  [Directory "a" None [Directory "b" None [File "c.txt"]]].


(** The same three levels on the device. *)
Definition deep_remote_folder : list remote_entry :=
  [RemoteEntry "a" 16877 4096 None
     [RemoteEntry "b" 16877 4096 None
        [RemoteEntry "c.txt" 33188 3 None []]]].


(** * The rest of the transfer code

    The functions around the transfers: what a scan and a count amount to,
    path normalisation, file types, navigation on the device, the status
    line, the [list-files] handler of the main process, the selection of
    items, deletion, the dialog for a new folder and the file pulled for
    the viewer. *)

(** ** What a count and a scan amount to *)

(** The messages of the directories of a local tree that cannot be read,
    in the order a depth-first walk meets them; the walk does not look
    below a directory it cannot read. *)
Fixpoint unreadable (item : dirent) : list string :=
  match item with
  | File _ => []
  | Directory _ (Some message) _ => [message]
  | Directory _ None entries => flat_map unreadable entries
  end.

(** The number of entries of a local tree that are not directories. *)
Fixpoint files_in (item : dirent) : nat :=
  match item with
  | File _ => 1
  | Directory _ _ entries => list_sum (map files_in entries)
  end.

(** The [push-file] invocations of a trace, in order. *)
Definition pushes (t : list event) : list (string * string) :=
  flat_map (fun e => match e with
                     | Invoke (PushFile _ localPath remotePath) => [(localPath, remotePath)]
                     | _ => []
                     end) t.

(** The files below a local directory with the Android paths that
    [processDirectory] computes for them, in traversal order. *)
Fixpoint files_below (host : node_path) (localDir androidDir : string) (item : dirent)
  : list (string * string) :=
  match item with
  | File name => [(join host localDir name, androidDir ++ "/" ++ name)]
  | Directory name _ entries =>
      flat_map (files_below host (join host localDir name) (androidDir ++ "/" ++ name))
               entries
  end.

(** What [countFiles] leaves in [totalFiles], starting from [total]: it
    throws the error of the first directory that cannot be read, and
    otherwise adds the number of files. *)
Definition counted (messages : list string) (total files : nat) : promise nat :=
  match messages with
  | [] => Resolved (total + files)
  | message :: _ => Rejected message
  end.

(** The [pull-file] invocations of a trace, the directories made locally
    and the remote folders listed, each in order. *)
Definition pulls (t : list event) : list (string * string) :=
  flat_map (fun e => match e with
                     | Invoke (PullFile _ remotePath localPath) => [(remotePath, localPath)]
                     | _ => []
                     end) t.

Definition mkdirs (t : list event) : list string :=
  flat_map (fun e => match e with MkdirSync p => [p] | _ => [] end) t.

Definition listings (t : list event) : list string :=
  flat_map (fun e => match e with Invoke (ListFiles _ p) => [p] | _ => [] end) t.

(** The trace of a scan that lists the folders [paths] one after the
    other. *)
Definition listed (deviceId : string) (paths : list string) : list event :=
  map (fun p => Invoke (ListFiles deviceId p)) paths.

(** What a stretch of directory creation does, starting with the
    directories [made]: it makes no directory twice, none that existed
    before and none of [made], and remembers those it made. *)
Definition makes_only_new (disk : local_disk) (made : list string)
    (out : promise (list string) * list event) : Prop :=
  NoDup (mkdirs (snd out))
  /\ Forall (fun p => exists_before disk p = false /\ ~ In p made) (mkdirs (snd out))
  /\ forall made', fst out = Resolved made' ->
                   forall p, In p made' <-> In p made \/ In p (mkdirs (snd out)).

(** ** Strings the handlers build *)

(** Whether a string holds two slashes in a row. *)
Fixpoint double_slash (s : string) : bool :=
  match s with
  | EmptyString => false
  | String c rest =>
      match rest with
      | String d _ => (Ascii.eqb c "/" && Ascii.eqb d "/") || double_slash rest
      | EmptyString => false
      end
  end.

(** Whether a string holds a character of the class [bad]. *)
Fixpoint has_any (bad : ascii -> bool) (s : string) : bool :=
  match s with
  | EmptyString => false
  | String c rest => bad c || has_any bad rest
  end.

Definition is_backslash (c : ascii) : bool := Ascii.eqb c "\".
Definition is_slash (c : ascii) : bool := Ascii.eqb c "/".

(** ** Path normalisation (modules/fileSystem.js, modules/state.js) *)

(** The host: whether [process.platform] is ['win32'], and Node's
    [path.normalize]. *)
Record platform : Type := {
  win32 : bool;
  normalize : string -> string
}.

(** [adaptPathToOS(inputPath, isLocalPath)] *)
Definition adaptPathToOS (os : platform) (inputPath : string) (isLocalPath : bool)
  : string :=
  if negb isLocalPath then backslashes_to_slashes inputPath
  else if win32 os && isLocalPath then normalize os inputPath
  else backslashes_to_slashes inputPath.

(** [normalizePlatformPath(inputPath, isAndroidPath)] *)
Definition normalizePlatformPath (os : platform) (inputPath : string)
    (isAndroidPath : bool) : string :=
  if isAndroidPath then backslashes_to_slashes inputPath
  else if win32 os then normalize os inputPath
  else backslashes_to_slashes inputPath.

(** A letter of [A-Z] or [a-z], and its upper case. *)
Definition is_letter (c : ascii) : bool :=
  let n := nat_of_ascii c in
  (Nat.leb 65 n && Nat.leb n 90) || (Nat.leb 97 n && Nat.leb n 122).

Definition toUpperCase_letter (c : ascii) : ascii :=
  let n := nat_of_ascii c in
  if Nat.leb 97 n && Nat.leb n 122 then ascii_of_nat (n - 32) else c.

(** [s.endsWith(suffix)] *)
Fixpoint endsWith (suffix s : string) : bool :=
  String.eqb s suffix
  || match s with
     | EmptyString => false
     | String _ rest => endsWith suffix rest
     end.

(** [s.replace('\\', '/')]: the first backslash only. *)
Fixpoint replace_first_backslash (s : string) : string :=
  match s with
  | EmptyString => EmptyString
  | String c rest =>
      if Ascii.eqb c "\" then String "/" rest
      else String c (replace_first_backslash rest)
  end.

(** The test for a drive at the start of the path, and the path with the
    letter of its drive in upper case, a colon and [slice(2)]. *)
Definition starts_with_drive (s : string) : bool :=
  match s with
  | String c0 (String c1 _) => is_letter c0 && Ascii.eqb c1 ":"
  | _ => false
  end.

Definition with_drive_letter (s : string) : string :=
  match s with
  | String c0 (String _ rest) => String (toUpperCase_letter c0) (String ":" rest)
  | _ => s
  end.

(** The tests of the two branches for root drives. *)
Definition bare_drive (normalizedPath : string) : bool :=
  Nat.eqb (String.length normalizedPath) 2 && endsWith ":" normalizedPath.

Definition drive_and_backslash (normalizedPath : string) : bool :=
  Nat.eqb (String.length normalizedPath) 3 && endsWith ":\" normalizedPath.

(** [normalizePath(filePath)] *)
Definition normalizePath (os : platform) (filePath : string) : string :=
  let normalizedPath := backslashes_to_slashes filePath in
  if win32 os && starts_with_drive normalizedPath then
    let normalizedPath := with_drive_letter normalizedPath in
    if bare_drive normalizedPath then normalizedPath ++ "/"
    else if drive_and_backslash normalizedPath then
      replace_first_backslash normalizedPath
    else normalizedPath
  else normalizedPath.

(** ** File types (modules/fileSystem.js) *)

Inductive file_type : Type := Image | Audio | Video.

Definition FILE_TYPES_IMAGE : list string :=
  ["jpg"; "jpeg"; "png"; "gif"; "bmp"; "webp"; "svg"].
Definition FILE_TYPES_AUDIO : list string :=
  ["mp3"; "wav"; "ogg"; "flac"; "m4a"; "aac"].
Definition FILE_TYPES_VIDEO : list string :=
  ["mp4"; "webm"; "mkv"; "avi"; "mov"; "wmv"; "m4v"; "3gp"].

(** [s.split(sep)] for a separator of one character: the pieces between
    the separators, never an empty array. *)
Fixpoint split (sep : ascii) (s : string) : list string :=
  match s with
  | EmptyString => [EmptyString]
  | String c rest =>
      if Ascii.eqb c sep then EmptyString :: split sep rest
      else
        match split sep rest with
        | piece :: pieces => String c piece :: pieces
        | [] => [String c EmptyString]
        end
  end.

(** [String.prototype.toLowerCase] on a character below 256: the letters
    of [A-Z], and those of the upper half but the multiplication sign. *)
Definition toLowerCase_char (c : ascii) : ascii :=
  let n := nat_of_ascii c in
  if (Nat.leb 65 n && Nat.leb n 90)
     || (Nat.leb 192 n && Nat.leb n 222 && negb (Nat.eqb n 215))
  then ascii_of_nat (n + 32) else c.

Fixpoint toLowerCase (s : string) : string :=
  match s with
  | EmptyString => EmptyString
  | String c rest => String (toLowerCase_char c) (toLowerCase rest)
  end.

(** [getFileType(filename)]; [None] is [null]. The array that [split]
    returns has a last element, which [pop] takes. *)
Definition getFileType (filename : string) : option file_type :=
  let ext := toLowerCase (last (split "." filename) EmptyString) in
  if mem ext FILE_TYPES_IMAGE then Some Image
  else if mem ext FILE_TYPES_AUDIO then Some Audio
  else if mem ext FILE_TYPES_VIDEO then Some Video
  else None.

(** ** Navigation on the device (renderer.js, modules/fileSystem.js) *)

Definition is_empty (s : string) : bool :=
  match s with
  | EmptyString => true
  | String _ _ => false
  end.

(** [parts.filter(Boolean)]: the strings that are not empty. *)
Definition filter_Boolean (parts : list string) : list string :=
  filter (fun s => negb (is_empty s)) parts.

(** [parts.join(sep)] *)
Fixpoint join_with (sep : string) (parts : list string) : string :=
  match parts with
  | [] => EmptyString
  | piece :: rest =>
      match rest with
      | [] => piece
      | _ :: _ => piece ++ sep ++ join_with sep rest
      end
  end.

(** The path the Android back button moves to. *)
Definition androidBack_path (androidPath : string) : string :=
  let parts := filter_Boolean (split "/" androidPath) in
  if Nat.ltb 0 (List.length parts) then
    let parts := removelast parts in
    if Nat.ltb 0 (List.length parts) then "/" ++ join_with "/" parts
    else "/sdcard"
  else "/sdcard".

Definition set_androidPath (p : string) (st : state) : state := {|
  selectedDevice := selectedDevice st;
  localPath := localPath st;
  androidPath := p;
  localSelectedItems := localSelectedItems st;
  androidSelectedItems := androidSelectedItems st;
  isTransferring := isTransferring st;
  isSwapped := isSwapped st
|}.

Definition set_localPath (p : string) (st : state) : state := {|
  selectedDevice := selectedDevice st;
  localPath := p;
  androidPath := androidPath st;
  localSelectedItems := localSelectedItems st;
  androidSelectedItems := androidSelectedItems st;
  isTransferring := isTransferring st;
  isSwapped := isSwapped st
|}.

(** [androidBackBtn.addEventListener('click', ...)]: the state it leaves.
    [loadAndroidFiles], called in between, reads the state only. *)
Definition androidBackBtn_click (st : state) : state :=
  clearSelections (set_androidPath (androidBack_path (androidPath st)) st).

(** [handleItemDoubleClick]: the state it leaves before the views are
    loaded again, for a double click on the view button or elsewhere on
    an item with the given [dataset.name] and [dataset.isDir]. *)
Definition handleItemDoubleClick (host : node_path) (on_view_btn isLocal : bool)
    (name : string) (dataset_isDir : string) (st : state) : state :=
  if on_view_btn then st
  else if negb (String.eqb dataset_isDir "true") then st
  else
    let st := clearSelections st in
    if isLocal then set_localPath (join host (localPath st) name) st
    else set_androidPath (backslashes_to_slashes (join host (androidPath st) name)) st.

(** A segment of a path: not empty, without slash. The depth of a path is
    the number of its segments. *)
Definition segment (s : string) : bool := negb (is_empty s) && slash_free s.

Definition depth (p : string) : nat :=
  List.length (filter_Boolean (split "/" p)).

(** ** The status bar (modules/uiOperations.js) *)

(** [haystack.includes(needle)] *)
Fixpoint includes (needle haystack : string) : bool :=
  String.prefix needle haystack
  || match haystack with
     | EmptyString => false
     | String _ rest => includes needle rest
     end.

Module uiOps.

(** [setStatus(message, statusBar)]: the [textContent] of the status bar
    afterwards. *)
Definition setStatus (message textContent : string) : string :=
  if String.prefix "Loaded " message && includes " items from " message
  then textContent
  else message.

End uiOps.

(** ** Listing a directory of the device (main.js) *)

(** [s.replace(/^\/+/, '')] *)
Fixpoint strip_leading_slashes (s : string) : string :=
  match s with
  | EmptyString => s
  | String c rest => if Ascii.eqb c "/" then strip_leading_slashes rest else s
  end.

Section ListFiles.

(** [client.readdir(deviceId, path)] of the adbkit client. *)
Variable A : Type.
Variable readdir : string -> string -> promise A.

(** The path the handler asks for first. *)
Definition list_files_path (dirPath : string) : string :=
  let normalizedPath := backslashes_to_slashes dirPath in
  if negb (String.prefix "/" normalizedPath) then "/" ++ normalizedPath
  else normalizedPath.

(** [ipcMain.handle('list-files', ...)]: its answer, and the paths it
    hands to [readdir], in order. The outer [catch] throws again what it
    caught. *)
Definition list_files (deviceId dirPath : string) : promise A * list string :=
  let normalizedPath := list_files_path dirPath in
  match readdir deviceId normalizedPath with
  | Resolved files => (Resolved files, [normalizedPath])
  | Rejected innerErr =>
      if negb (String.eqb normalizedPath "/sdcard")
         && negb (String.prefix "/sdcard/" normalizedPath)
      then
        let fallbackPath := "/sdcard/" ++ strip_leading_slashes normalizedPath in
        match readdir deviceId fallbackPath with
        | Resolved files => (Resolved files, [normalizedPath; fallbackPath])
        | Rejected _ => (Rejected innerErr, [normalizedPath; fallbackPath])
        end
      else (Rejected innerErr, [normalizedPath])
  end.

End ListFiles.

Arguments list_files_path dirPath : assert.
Arguments list_files {A} readdir deviceId dirPath.

(** ** Selecting the items of a listing (modules/fileSystem.js) *)

(** A [Set] of names, in the order of insertion. *)
Definition Set_add (name : string) (s : list string) : list string :=
  if mem name s then s else (s ++ [name])%list.

Definition Set_delete (name : string) (s : list string) : list string :=
  filter (fun x => negb (String.eqb name x)) s.

(** The modifier keys of a click, and whether it fell on the view button. *)
Record mouse : Type := {
  on_view_btn : bool;
  ctrlKey : bool;
  metaKey : bool;
  shiftKey : bool
}.

(** An element of class [file-item]: its [dataset.name], and whether its
    class list has [selected]. *)
Record file_item : Type := {
  dataset_name : string;
  selected : bool
}.

(** The container of a listing: its [file-item] elements in document
    order, and its [dataset.lastClicked]. *)
Record container : Type := {
  fileItems : list file_item;
  dataset_lastClicked : option string
}.

(** Whether a [dataset] entry counts as true: it is there and not
    empty. *)
Definition truthy (entry : option string) : bool :=
  match entry with
  | Some (String _ _) => true
  | _ => false
  end.

(** [fileItems.findIndex(item => item.dataset.name === name)]; [None] is
    [-1]. *)
Fixpoint findIndex (name : string) (items : list file_item) : option nat :=
  match items with
  | [] => None
  | item :: rest =>
      if String.eqb (dataset_name item) name then Some 0
      else option_map S (findIndex name rest)
  end.

(** [classList.add('selected')] and [classList.remove('selected')] *)
Definition set_selected (b : bool) (item : file_item) : file_item :=
  {| dataset_name := dataset_name item; selected := b |}.

Fixpoint update_at (i : nat) (f : file_item -> file_item) (items : list file_item)
    {struct items} : list file_item :=
  match items with
  | [] => []
  | item :: rest =>
      match i with
      | 0 => f item :: rest
      | S i => item :: update_at i f rest
      end
  end.

(** [for (let i = rangeStart; i <= rangeEnd; i++)], for [count] indices
    from [i] on. The indices are those of two elements of the list, so
    every [fileItems[i]] is there. *)
Fixpoint select_range (i count : nat) (items : list file_item)
    (selectedItems : list string) : list file_item * list string :=
  match count with
  | 0 => (items, selectedItems)
  | S count =>
      match nth_error items i with
      | Some rangeItem =>
          select_range (S i) count
            (update_at i (set_selected true) items)
            (Set_add (dataset_name rangeItem) selectedItems)
      | None => (items, selectedItems)
      end
  end.

(** The click listener of the element at index [i] of the listing. *)
Definition click (e : mouse) (i : nat) (c : container) (selectedItems : list string)
  : container * list string :=
  if on_view_btn e then (c, selectedItems)
  else
    match nth_error (fileItems c) i with
    | None => (c, selectedItems)
    | Some itemElem =>
        let name := dataset_name itemElem in
        let lastClicked :=
          if negb (shiftKey e) then Some name else dataset_lastClicked c in
        let fileItems := fileItems c in
        if ctrlKey e || metaKey e then
          if mem name selectedItems then
            ({| fileItems := update_at i (set_selected false) fileItems;
                dataset_lastClicked := lastClicked |},
             Set_delete name selectedItems)
          else
            ({| fileItems := update_at i (set_selected true) fileItems;
                dataset_lastClicked := lastClicked |},
             Set_add name selectedItems)
        else if shiftKey e && truthy lastClicked then
          match option_map (fun lc => findIndex lc fileItems) lastClicked,
                findIndex name fileItems with
          | Some (Some startIdx), Some endIdx =>
              let cleared := negb (ctrlKey e) && negb (metaKey e) in
              let rangeStart := Nat.min startIdx endIdx in
              let rangeEnd := Nat.max startIdx endIdx in
              let (marked, chosen) :=
                select_range rangeStart (S (rangeEnd - rangeStart))
                  (if cleared then map (set_selected false) fileItems else fileItems)
                  (if cleared then [] else selectedItems) in
              ({| fileItems := marked; dataset_lastClicked := lastClicked |}, chosen)
          | _, _ =>
              ({| fileItems := fileItems; dataset_lastClicked := lastClicked |},
               selectedItems)
          end
        else
          let cleared := negb (ctrlKey e) && negb (metaKey e) && negb (shiftKey e) in
          ({| fileItems :=
                update_at i (set_selected true)
                  (if cleared then map (set_selected false) fileItems else fileItems);
              dataset_lastClicked := lastClicked |},
           Set_add name (if cleared then [] else selectedItems))
    end.

(** The names of a listing, and the agreement of what is shown with what
    is selected: an element is marked exactly when its name is in the
    set. *)
Definition names (c : container) : list string := map dataset_name (fileItems c).

Definition shown_as_selected (c : container) (selectedItems : list string) : Prop :=
  Forall (fun item => selected item = mem (dataset_name item) selectedItems)
         (fileItems c).

(** A click with the shift key alone, and a plain click. *)
Definition shift_click : mouse :=
  {| on_view_btn := false; ctrlKey := false; metaKey := false; shiftKey := true |}.
Definition plain_click : mouse :=
  {| on_view_btn := false; ctrlKey := false; metaKey := false; shiftKey := false |}.

(** A listing of three items of which none is marked, last clicked on
    [anchor]. *)
Definition three_items (anchor : option string) : container := {|
  fileItems := [ {| dataset_name := "a.txt"; selected := false |};
                 {| dataset_name := "b.txt"; selected := false |};
                 {| dataset_name := "c.txt"; selected := false |} ];
  dataset_lastClicked := anchor
|}.

(** ** Deleting, new folders and the viewer (renderer.js,
    modules/deviceManagement.js, localFileSystem.js, modules/uiOperations.js) *)

(** What these handlers do, in the order they do it: [setStatus],
    [window.confirm], [ipcRenderer.invoke] on the channel [delete-item],
    the [customCreateFunction] of the dialog, [rimraf], [fs.unlinkSync],
    [fs.mkdirSync], [clearSelections], the reloading of a view, and the removal of the
    dialog. *)
Inductive ui_event : Type :=
| SetStatusText (message : string)
| ShowConfirmationDialog (message : string)
| InvokeDeleteItem (deviceId path : string) (isDirectory : bool)
| CallCustomCreateFunction (deviceId path : string)
| Rimraf (itemPath : string)
| UnlinkSync (itemPath : string)
| MkdirSyncPlain (localPath : string)
| ClearSelections
| LoadAndroidFiles
| LoadLocalFiles
| RemoveModal.

(** A [for ... of] loop whose body updates the variables [v] of the
    handler and may throw: the first exception leaves the loop. *)
Definition for_of_items {A S E : Type} (body : A -> S -> promise S * list E)
  : list A -> S -> promise S * list E :=
  fix each (items : list A) (v : S) {struct items} : promise S * list E :=
    match items with
    | [] => (Resolved v, [])
    | item :: rest =>
        match body item v with
        | (Resolved v1, t1) =>
            let '(outcome, t2) := each rest v1 in
            (outcome, (t1 ++ t2)%list)
        | (Rejected message, t1) => (Rejected message, t1)
        end
    end.

(** [ipcRenderer.invoke('delete-item', ...)] *)
Definition delete_channel : Type :=
  string -> string -> bool -> promise Main.ipc_result.

(** [deleteAndroidItem(deviceId, path, isDirectory)] *)
Definition deleteAndroidItem (invoke_delete_item : delete_channel)
    (deviceId path : string) (isDirectory : bool) : promise bool :=
  match invoke_delete_item deviceId path isDirectory with
  | Resolved _ => Resolved true
  | Rejected message => Rejected message
  end.

(** [createAndroidDirectory(deviceId, path)] *)
Definition createAndroidDirectory (renderer : ipc) (deviceId path : string)
  : promise bool :=
  match invoke_create_directory renderer deviceId path with
  | Resolved _ => Resolved true
  | Rejected message => Rejected message
  end.

(** [deleteLocalItem(itemPath, isDirectory)], with [rimraf] and
    [fs.unlinkSync] as given. *)
Definition deleteLocalItem (rimraf unlinkSync : string -> promise unit)
    (itemPath : string) (isDirectory : bool) : promise bool * list ui_event :=
  if isDirectory then
    match rimraf itemPath with
    | Resolved _ => (Resolved true, [Rimraf itemPath])
    | Rejected message => (Rejected message, [Rimraf itemPath])
    end
  else
    match unlinkSync itemPath with
    | Resolved _ => (Resolved true, [UnlinkSync itemPath])
    | Rejected message => (Rejected message, [UnlinkSync itemPath])
    end.

Definition delete_question (n : nat) : string :=
  "Delete " ++ show_nat n ++ " selected item(s)?".

Definition deleted_status (r : result) : string :=
  "Deleted " ++ show_nat (success r) ++ " item(s). Errors: "
  ++ show_nat (errors r) ++ ".".

Section Deleting.

Variable host : node_path.
(** [window.confirm(message)] *)
Variable confirm : string -> bool.

Section OnTheHost.

Variable stat_of : string -> local_stat.
Variables rimraf unlinkSync : string -> promise unit.

(** One iteration of the loop of the local delete button. The test of
    the directory stands before the [try]: when [fs.statSync] throws, the
    handler is left. *)
Definition local_delete_one (st : state) (itemName : string) (r : result)
  : promise result * list ui_event :=
  let itemPath := join host (localPath st) itemName in
  match stat_of itemPath with
  | StatThrows message => (Rejected message, [])
  | found =>
      let isDirectory :=
        match found with IsDirectory _ _ => true | _ => false end in
      match deleteLocalItem rimraf unlinkSync itemPath isDirectory with
      | (Resolved _, t) => (Resolved (one_more_success r), t)
      | (Rejected _, t) => (Resolved (one_more_error r), t)
      end
  end.

(** [localDeleteBtn.addEventListener('click', ...)]: the state and the
    trace it leaves, and whether the handler returns or throws. *)
Definition localDeleteBtn_click (st : state)
  : state * list ui_event * promise unit :=
  if Nat.eqb (List.length (localSelectedItems st)) 0 then
    (st, [SetStatusText "No items selected for deletion"], Resolved tt)
  else
    let size := List.length (localSelectedItems st) in
    if negb (confirm (delete_question size)) then
      (st, [ShowConfirmationDialog (delete_question size)], Resolved tt)
    else
      let opening :=
        [ShowConfirmationDialog (delete_question size);
         SetStatusText ("Deleting " ++ show_nat size ++ " local item(s)...")] in
      match for_of_items (local_delete_one st) (localSelectedItems st)
                         {| success := 0; errors := 0 |} with
      | (Resolved r, t) =>
          (clearSelections st,
           (opening ++ t
            ++ [ClearSelections; SetStatusText (deleted_status r); LoadLocalFiles])%list,
           Resolved tt)
      | (Rejected message, t) => (st, (opening ++ t)%list, Rejected message)
      end.

End OnTheHost.

End Deleting.

(** The delete requests of a trace, and what it removes on the host. *)
Definition delete_requests (t : list ui_event) : list (string * string * bool) :=
  flat_map (fun e => match e with
                     | InvokeDeleteItem deviceId path isDirectory =>
                         [(deviceId, path, isDirectory)]
                     | _ => []
                     end) t.

Definition removed_locally (t : list ui_event) : list string :=
  flat_map (fun e => match e with
                     | Rimraf itemPath => [itemPath]
                     | UnlinkSync itemPath => [itemPath]
                     | _ => []
                     end) t.

(** The application as it is wired: the channel [delete-item] is served
    by its handler of the main process. *)
Definition main_delete_item (c : Main.client) : delete_channel := Main.delete_item c.

(** The answer of the channel to a request. *)
Definition ask (channel : delete_channel) (request : string * string * bool)
  : promise Main.ipc_result :=
  let '(deviceId, path, isDirectory) := request in channel deviceId path isDirectory.

Definition is_rejected {A} (p : promise A) : bool := negb (is_resolved p).

(** A state with a device and two items selected on it, and a rendered
    list in which [Pictures] is a directory. *)
Definition two_selected_on_device : state := {|
  selectedDevice := Some "emulator-5554";
  localPath := "/home/user";
  androidPath := "/sdcard";
  localSelectedItems := ["notes.txt"; "Music"];
  androidSelectedItems := ["Pictures"; "song.mp3"];
  isTransferring := false;
  isSwapped := false
|}.

Definition rendered_list (itemName : string) : dom_query :=
  if String.eqb itemName "Pictures" then Found (Some "true") else Found (Some "false").

(** A bridge whose shell refuses every command. *)
Definition shell_refusing : Main.client := {|
  Main.pull := fun _ remotePath => Resolved remotePath;
  Main.pipe := fun _ _ => Resolved tt;
  Main.push := fun _ _ _ => Resolved tt;
  Main.shell := fun _ _ => Rejected "device offline"
|}.

(** Whether [fs.statSync] throws, the texts a trace hands to
    [setStatus], and whether it clears the selections. *)
Definition stat_fails (s : local_stat) : bool :=
  match s with
  | StatThrows _ => true
  | _ => false
  end.

Definition statuses (t : list ui_event) : list string :=
  flat_map (fun e => match e with SetStatusText message => [message] | _ => [] end) t.

Definition clears_selections (t : list ui_event) : bool :=
  existsb (fun e => match e with ClearSelections => true | _ => false end) t.

(** A host on which [Music] is a directory and [locked] cannot be
    examined, and on which nothing can be removed. *)
Definition host_stat (p : string) : local_stat :=
  if String.eqb p "/home/user/Music" then IsDirectory None []
  else if String.eqb p "/home/user/locked" then StatThrows "EACCES"
  else IsFile.

Definition nothing_removable (p : string) : promise unit := Rejected "EPERM".

Definition locked_selected : state := {|
  selectedDevice := None;
  localPath := "/home/user";
  androidPath := "/sdcard";
  localSelectedItems := ["notes.txt"; "locked"; "Music"];
  androidSelectedItems := [];
  isTransferring := false;
  isSwapped := false
|}.

(** ** The dialog for a new folder (modules/uiOperations.js, renderer.js) *)

(** What the user does with the dialog: a click on Cancel, or a click on
    Create with [input.value.trim()] as it is then. *)
Inductive dialog_action : Type :=
| ClickCancel
| ClickCreate (folderName : string).

(** The dialog after a click on Create: removed, or still there with an
    error message. *)
Inductive modal : Type :=
| Removed
| Showing (errorMsg : string).

Section NewFolder.

Variable host : node_path.
Variable isAndroid : bool.
Variable deviceId : option string.
(** [refreshFunction], by what it does, and [customCreateFunction]. *)
Variable refreshFunction : option ui_event.
Variable customCreateFunction : string -> string -> promise bool.
(** [fs.mkdirSync(localPath)], which throws when the folder is there. *)
Variable mkdirSync : string -> promise unit.
Variable currentPath : string.

(** The last statements of the [try] block of the listener. *)
Definition close_and_refresh : list ui_event :=
  RemoveModal :: match refreshFunction with Some e => [e] | None => [] end.

(** The click listener of the Create button. *)
Definition createButton_click (folderName : string) : modal * list ui_event :=
  if is_empty folderName then (Showing "Please enter a folder name", [])
  else if isAndroid then
    match deviceId with
    | Some (String c d) =>
        let device := String c d in
        let androidPath := backslashes_to_slashes (join host currentPath folderName) in
        match customCreateFunction device androidPath with
        | Resolved _ =>
            (Removed, CallCustomCreateFunction device androidPath :: close_and_refresh)
        | Rejected message =>
            (Showing ("Error: " ++ message), [CallCustomCreateFunction device androidPath])
        end
    | _ => (Showing "Error: No device selected", [])
    end
  else
    let localPath := join host currentPath folderName in
    match mkdirSync localPath with
    | Resolved _ => (Removed, MkdirSyncPlain localPath :: close_and_refresh)
    | Rejected message => (Showing ("Error: " ++ message), [MkdirSyncPlain localPath])
    end.

(** [createNewFolder(...)] under the clicks of the user: what its promise
    resolves with, if it does. *)
Fixpoint createNewFolder (actions : list dialog_action)
  : option bool * list ui_event :=
  match actions with
  | [] => (None, [])
  | ClickCancel :: _ => (Some false, [RemoveModal])
  | ClickCreate folderName :: later =>
      match createButton_click folderName with
      | (Removed, t) => (Some true, t)
      | (Showing _, t) =>
          let '(answer, t') := createNewFolder later in
          (answer, (t ++ t')%list)
      end
  end.

End NewFolder.

(** [localNewFolderBtn.addEventListener('click', ...)] *)
Definition localNewFolderBtn_click (host : node_path)
    (mkdirSync : string -> promise unit)
    (st : state) (actions : list dialog_action) : list ui_event :=
  match createNewFolder host false None (Some LoadLocalFiles)
          (fun _ _ => Resolved true) mkdirSync (localPath st) actions with
  | (Some true, t) => (t ++ [SetStatusText "Local folder created"])%list
  | (_, t) => t
  end.

(** ** A file for the viewer (modules/transferOperations.js) *)

(** [pullAndroidFileToTemp(deviceId, androidPath, filename)], with
    [os.tmpdir()] as given. *)
Definition pullAndroidFileToTemp (host : node_path) (renderer : ipc)
    (disk : local_disk) (tmpdir deviceId androidPath filename : string)
  : promise string * list event :=
  let tempDir := join host tmpdir "adb-file-transfer" in
  match ensure_directory disk tempDir [] with
  | (Rejected message, t) => (Rejected message, t)
  | (Resolved _, t) =>
      let tempFile := join host tempDir filename in
      match invoke_pull_file renderer deviceId androidPath tempFile with
      | Resolved _ =>
          (Resolved tempFile, (t ++ [Invoke (PullFile deviceId androidPath tempFile)])%list)
      | Rejected message =>
          (Rejected message, (t ++ [Invoke (PullFile deviceId androidPath tempFile)])%list)
      end
  end.

(** A click that leaves the dialog for a local folder open, and the
    attempts a run of such clicks makes. *)
Definition failed_attempt (host : node_path) (mkdirSync : string -> promise unit)
    (currentPath : string) (a : dialog_action) : bool :=
  match a with
  | ClickCancel => false
  | ClickCreate folderName =>
      is_empty folderName || is_rejected (mkdirSync (join host currentPath folderName))
  end.

Definition attempts (host : node_path) (currentPath : string)
    (retries : list dialog_action) : list ui_event :=
  flat_map (fun a => match a with
                     | ClickCreate (String c name) =>
                         [MkdirSyncPlain (join host currentPath (String c name))]
                     | _ => []
                     end) retries.

(** ** Handlers that wait while other listeners run (renderer.js,
    modules/uiOperations.js) *)

(** What the delete handlers read again each time they come back from an
    [await]: the device, the two paths, the two [Set]s of selected names
    and the rendered Android list. A [Set] is kept as the language keeps
    it while it is iterated: its entries in the order of insertion, a
    deleted entry leaving an empty place behind, so that an iterator,
    which stands at an index, passes over it and meets the entries added
    after it started. *)
Record world : Type := {
  selectedDevice_now : option string;
  localPath_now : string;
  androidPath_now : string;
  localSelectedItems_now : list (option string);
  androidSelectedItems_now : list (option string);
  rendered_now : string -> dom_query
}.

(** The values of a [Set], its [size], and [clear()]. *)
Definition live_values (entries : list (option string)) : list string :=
  flat_map (fun e => match e with Some name => [name] | None => [] end) entries.

Definition live_size (entries : list (option string)) : nat :=
  List.length (live_values entries).

Definition live_clear (entries : list (option string)) : list (option string) :=
  map (fun _ => None) entries.

(** [clearSelections()] *)
Definition clearSelections_now (w : world) : world := {|
  selectedDevice_now := selectedDevice_now w;
  localPath_now := localPath_now w;
  androidPath_now := androidPath_now w;
  localSelectedItems_now := live_clear (localSelectedItems_now w);
  androidSelectedItems_now := live_clear (androidSelectedItems_now w);
  rendered_now := rendered_now w
|}.

(** [!state.selectedDevice] *)
Definition no_device_now (w : world) : bool :=
  match selectedDevice_now w with
  | None => true
  | Some d => String.eqb d EmptyString
  end.

(** The world in which a state is, with a rendered Android list. *)
Definition world_of (query : string -> dom_query) (st : state) : world := {|
  selectedDevice_now := selectedDevice st;
  localPath_now := localPath st;
  androidPath_now := androidPath st;
  localSelectedItems_now := map Some (localSelectedItems st);
  androidSelectedItems_now := map Some (androidSelectedItems st);
  rendered_now := query
|}.

(** The next value of an iterator of a [Set] that stands at [index]: the
    first entry at or after it that is not empty, with the index after
    that entry. *)
Fixpoint next_from (remaining : list (option string)) (index : nat)
  : option (string * nat) :=
  match remaining with
  | [] => None
  | Some name :: _ => Some (name, S index)
  | None :: rest => next_from rest (S index)
  end.

Definition next_entry (entries : list (option string)) (index : nat)
  : option (string * nat) :=
  next_from (skipn index entries) index.

Section LiveLoop.

Context {W V E : Type}.
(** The [Set] the loop iterates, and one iteration in the world as it is
    then; the body awaits once, after it has read the world. *)
Variable entries_of : W -> list (option string).
Variable body : W -> string -> V -> promise V * list E.

(** [for (const itemName of set) { ... await ...; }] over the live [Set],
    from the entry at [index] on. [meanwhile] holds, for one [await]
    after the other, what the listeners that run during it do to the
    world; after the last of them the handler is left alone. When the
    body throws, the loop is left then and there. *)
Fixpoint for_of_live (meanwhile : list (W -> W)) (w : W) (index : nat) (v : V)
  : W * promise V * list E :=
  match meanwhile with
  | [] =>
      let '(outcome, t) :=
        for_of_items (body w) (live_values (skipn index (entries_of w))) v in
      (w, outcome, t)
  | others :: later =>
      match next_entry (entries_of w) index with
      | None => (w, Resolved v, [])
      | Some (name, index') =>
          match body w name v with
          | (Resolved v1, t1) =>
              let '(w', outcome, t2) := for_of_live later (others w) index' v1 in
              (w', outcome, (t1 ++ t2)%list)
          | (Rejected message, t1) => (w, Rejected message, t1)
          end
      end
  end.

End LiveLoop.

Section DeletingMeanwhile.

Variable host : node_path.
(** [window.confirm(message)] *)
Variable confirm : string -> bool.

(** What the Android delete button asks the main process for an item, in
    the world as it is when the turn of the item comes. *)
Definition android_delete_request (w : world) (itemName : string)
  : string * string * bool :=
  (match selectedDevice_now w with Some d => d | None => EmptyString end,
   backslashes_to_slashes (join host (androidPath_now w) itemName),
   android_isDirectory (rendered_now w itemName) itemName).

Section OnAndroid.

Variable invoke_delete_item : delete_channel.

(** One iteration of the loop of the Android delete button. *)
Definition android_delete_one (w : world) (itemName : string) (r : result)
  : promise result * list ui_event :=
  let itemPath := backslashes_to_slashes (join host (androidPath_now w) itemName) in
  let isDirectory := android_isDirectory (rendered_now w itemName) itemName in
  let deviceId :=
    match selectedDevice_now w with Some d => d | None => EmptyString end in
  match deleteAndroidItem invoke_delete_item deviceId itemPath isDirectory with
  | Resolved _ =>
      (Resolved (one_more_success r), [InvokeDeleteItem deviceId itemPath isDirectory])
  | Rejected _ =>
      (Resolved (one_more_error r), [InvokeDeleteItem deviceId itemPath isDirectory])
  end.

(** [androidDeleteBtn.addEventListener('click', ...)]: the world and the
    trace it leaves, when the other listeners do [meanwhile] during its
    requests. *)
Definition androidDeleteBtn_click (meanwhile : list (world -> world)) (w : world)
  : world * list ui_event :=
  if no_device_now w then (w, [SetStatusText "No device selected"])
  else if Nat.eqb (live_size (androidSelectedItems_now w)) 0 then
    (w, [SetStatusText "No items selected for deletion"])
  else
    let size := live_size (androidSelectedItems_now w) in
    if negb (confirm (delete_question size)) then
      (w, [ShowConfirmationDialog (delete_question size)])
    else
      let opening :=
        [ShowConfirmationDialog (delete_question size);
         SetStatusText ("Deleting " ++ show_nat size ++ " Android item(s)...")] in
      match for_of_live androidSelectedItems_now android_delete_one meanwhile w 0
                        {| success := 0; errors := 0 |} with
      | (w', Resolved r, t) =>
          (clearSelections_now w',
           (opening ++ t
            ++ [ClearSelections; SetStatusText (deleted_status r); LoadAndroidFiles])%list)
      | (w', Rejected _, t) => (w', (opening ++ t)%list)
      end.

End OnAndroid.

Section OnTheHostMeanwhile.

Variable stat_of : string -> local_stat.
Variables rimraf unlinkSync : string -> promise unit.

(** One iteration of the loop of the local delete button, as
    [local_delete_one], in the world as it is then. *)
Definition local_delete_one_now (w : world) (itemName : string) (r : result)
  : promise result * list ui_event :=
  let itemPath := join host (localPath_now w) itemName in
  match stat_of itemPath with
  | StatThrows message => (Rejected message, [])
  | found =>
      let isDirectory :=
        match found with IsDirectory _ _ => true | _ => false end in
      match deleteLocalItem rimraf unlinkSync itemPath isDirectory with
      | (Resolved _, t) => (Resolved (one_more_success r), t)
      | (Rejected _, t) => (Resolved (one_more_error r), t)
      end
  end.

(** [localDeleteBtn.addEventListener('click', ...)], when the other
    listeners do [meanwhile] while it awaits [deleteLocalItem]. *)
Definition localDeleteBtn_click_meanwhile (meanwhile : list (world -> world))
    (w : world) : world * list ui_event * promise unit :=
  if Nat.eqb (live_size (localSelectedItems_now w)) 0 then
    (w, [SetStatusText "No items selected for deletion"], Resolved tt)
  else
    let size := live_size (localSelectedItems_now w) in
    if negb (confirm (delete_question size)) then
      (w, [ShowConfirmationDialog (delete_question size)], Resolved tt)
    else
      let opening :=
        [ShowConfirmationDialog (delete_question size);
         SetStatusText ("Deleting " ++ show_nat size ++ " local item(s)...")] in
      match for_of_live localSelectedItems_now local_delete_one_now meanwhile w 0
                        {| success := 0; errors := 0 |} with
      | (w', Resolved r, t) =>
          (clearSelections_now w',
           (opening ++ t
            ++ [ClearSelections; SetStatusText (deleted_status r); LoadLocalFiles])%list,
           Resolved tt)
      | (w', Rejected message, t) => (w', (opening ++ t)%list, Rejected message)
      end.

End OnTheHostMeanwhile.

End DeletingMeanwhile.

(** Whether the Android delete button gets as far as its loop, and the
    same for the local one. *)
Definition android_delete_agreed (confirm : string -> bool) (w : world) : bool :=
  negb (no_device_now w)
  && negb (Nat.eqb (live_size (androidSelectedItems_now w)) 0)
  && confirm (delete_question (live_size (androidSelectedItems_now w))).

Definition local_delete_agreed (confirm : string -> bool) (w : world) : bool :=
  negb (Nat.eqb (live_size (localSelectedItems_now w)) 0)
  && confirm (delete_question (live_size (localSelectedItems_now w))).

(** The event of a delete request, and how the local delete button
    removes an item of a given name. *)
Definition request_event (request : string * string * bool) : ui_event :=
  let '(deviceId, path, isDirectory) := request in
  InvokeDeleteItem deviceId path isDirectory.

Definition is_directory (s : local_stat) : bool :=
  match s with
  | IsDirectory _ _ => true
  | _ => false
  end.

Definition removal (host : node_path) (stat_of : string -> local_stat) (w : world)
    (itemName : string) : ui_event :=
  let itemPath := join host (localPath_now w) itemName in
  if is_directory (stat_of itemPath) then Rimraf itemPath else UnlinkSync itemPath.

(** A removal that suits what [fs.statSync] says of the path: [rimraf]
    for a directory, [fs.unlinkSync] for anything else. *)
Definition suits (stat_of : string -> local_stat) (e : ui_event) : Prop :=
  match e with
  | Rimraf itemPath => is_directory (stat_of itemPath) = true
  | UnlinkSync itemPath => is_directory (stat_of itemPath) = false
  | _ => False
  end.

(** During the first request, another item is selected on the device and
    the user moves to another folder. *)
Definition selects_and_moves (w : world) : world := {|
  selectedDevice_now := selectedDevice_now w;
  localPath_now := "/home/user/Music";
  androidPath_now := "/sdcard/DCIM";
  localSelectedItems_now := (localSelectedItems_now w ++ [Some "cover.jpg"])%list;
  androidSelectedItems_now := (androidSelectedItems_now w ++ [Some "clip.mp4"])%list;
  rendered_now := rendered_now w
|}.

(** ** The dialog for a new folder on the device, step by step *)

(** What happens around the dialog, one step after the other: the user
    clicks Cancel or Create, or presses the keys that click them, which
    takes the dialog to be in the document; the answer to a request that
    is still awaited arrives, the [k]-th of them; or the container of the
    dialog is taken out of the document by another dialog. [UserCreates]
    carries [input.value.trim()]. *)
Inductive dialog_step : Type :=
| UserCancels
| UserCreates (folderName : string)
| AnswerArrives (k : nat)
| ContainerRemoved.

(** The dialog: whether its container is a child of [document.body],
    what the promise of [createNewFolder] has resolved with, and the
    answers to the calls of [customCreateFunction] that are awaited. *)
Record dialog : Type := {
  in_document : bool;
  resolved_with : option bool;
  awaited : list (promise bool)
}.

Definition dialog_opened : dialog :=
  {| in_document := true; resolved_with := None; awaited := [] |}.

(** [array] without its [k]-th element. *)
Fixpoint without (k : nat) {A} (l : list A) : list A :=
  match l with
  | [] => []
  | x :: rest =>
      match k with
      | 0 => rest
      | S k => x :: without k rest
      end
  end.

Section AndroidDialog.

Variable host : node_path.
Variable deviceId : option string.
Variable customCreateFunction : string -> string -> promise bool.
Variable currentPath : string.

(** One step. A promise resolves once: [resolve(true)] after
    [resolve(false)] does nothing. When the promise resolves with true,
    the handler of the button, which awaits it, sets the status.
    [document.body.removeChild(modalContainer)] throws when the container
    is not in the document, which takes the listener of Create to its
    [catch]. The error messages the dialog shows are not kept. *)
Definition dialog_next (d : dialog) (s : dialog_step) : dialog * list ui_event :=
  match s with
  | UserCancels =>
      if in_document d then
        ({| in_document := false;
            resolved_with :=
              match resolved_with d with None => Some false | r => r end;
            awaited := awaited d |},
         [RemoveModal])
      else (d, [])
  | UserCreates folderName =>
      if in_document d then
        if is_empty folderName then (d, [])
        else
          match deviceId with
          | Some (String c rest) =>
              let device := String c rest in
              let androidPath :=
                backslashes_to_slashes (join host currentPath folderName) in
              ({| in_document := in_document d;
                  resolved_with := resolved_with d;
                  awaited :=
                    (awaited d ++ [customCreateFunction device androidPath])%list |},
               [CallCustomCreateFunction device androidPath])
          | _ => (d, [])
          end
      else (d, [])
  | AnswerArrives k =>
      match nth_error (awaited d) k with
      | None => (d, [])
      | Some (Rejected _) =>
          ({| in_document := in_document d;
              resolved_with := resolved_with d;
              awaited := without k (awaited d) |}, [])
      | Some (Resolved _) =>
          if in_document d then
            ({| in_document := false;
                resolved_with :=
                  match resolved_with d with None => Some true | r => r end;
                awaited := without k (awaited d) |},
             (RemoveModal :: LoadAndroidFiles
              :: match resolved_with d with
                 | None => [SetStatusText "Android folder created"]
                 | Some _ => []
                 end)%list)
          else
            ({| in_document := false;
                resolved_with := resolved_with d;
                awaited := without k (awaited d) |}, [])
      end
  | ContainerRemoved =>
      ({| in_document := false;
          resolved_with := resolved_with d;
          awaited := awaited d |}, [])
  end.

Fixpoint dialog_run (d : dialog) (schedule : list dialog_step) : dialog * list ui_event :=
  match schedule with
  | [] => (d, [])
  | s :: later =>
      let '(d1, t1) := dialog_next d s in
      let '(d2, t2) := dialog_run d1 later in
      (d2, (t1 ++ t2)%list)
  end.

End AndroidDialog.

(** [androidNewFolderBtn.addEventListener('click', ...)] with the dialog
    it opens, under the steps of [schedule]. *)
Definition androidNewFolderBtn_click (host : node_path) (renderer : ipc)
    (st : state) (schedule : list dialog_step) : list ui_event :=
  if no_device st then [SetStatusText "No device selected"]
  else
    snd (dialog_run host (selectedDevice st) (createAndroidDirectory renderer)
           (androidPath st) dialog_opened schedule).

(** The same dialog when every call of [customCreateFunction] resolves. *)
Definition androidNewFolderBtn_click_unfailing (host : node_path)
    (st : state) (schedule : list dialog_step) : list ui_event :=
  if no_device st then [SetStatusText "No device selected"]
  else
    snd (dialog_run host (selectedDevice st) (fun _ _ => Resolved true)
           (androidPath st) dialog_opened schedule).

(** What the answers to a list of delete requests add to the counts of
    the handler. *)
Definition tally (channel : delete_channel) (requests : list (string * string * bool))
    (r : result) : result :=
  {| success := success r
                + List.length (filter is_resolved (map (ask channel) requests));
     errors := errors r
               + List.length (filter is_rejected (map (ask channel) requests)) |}.

(** * Properties *)

(** ** The IPC handlers *)

Lemma try_await_answers (work : promise unit) : answers work (Main.try_await work).
Proof. destruct work as [[] | message]; reflexivity. Qed.

Lemma try_await_resolves (work : promise unit) :
  exists r, Main.try_await work = Resolved r.
Proof. destruct work as [[] | message]; eexists; reflexivity. Qed.

(** C10. None of the handlers [pull-file], [push-file], [create-directory]
    and [delete-item] ever rejects: each resolves with [{ success: true }]
    when its bridge call succeeded and with [{ success: false, error }]
    when it failed. Hence, through [ipcRenderer.invoke], the [catch] branch
    of a caller that only awaits the call is never entered: a single-file
    transfer makes no [setStatus] call, whatever the bridge does. *)
Theorem handlers_never_reject (c : Main.client)
    (deviceId remotePath localPath path : string) (isDirectory : bool) :
  answers (and_then (Main.pull c deviceId remotePath)
                    (fun transfer => Main.pipe c transfer localPath))
          (Main.pull_file c deviceId remotePath localPath)
  /\ answers (Main.push c deviceId localPath remotePath)
             (Main.push_file c deviceId localPath remotePath)
  /\ answers (Main.shell c deviceId (Main.mkdir_command path))
             (Main.create_directory c deviceId path)
  /\ answers (Main.shell c deviceId (Main.rm_command path isDirectory))
             (Main.delete_item c deviceId path isDirectory)
  /\ is_resolved (Main.pull_file c deviceId remotePath localPath) = true
  /\ is_resolved (Main.push_file c deviceId localPath remotePath) = true
  /\ is_resolved (Main.create_directory c deviceId path) = true
  /\ is_resolved (Main.delete_item c deviceId path isDirectory) = true
  /\ snd (transferLocalFileToAndroid (main_process c) deviceId localPath remotePath)
     = [Invoke (PushFile deviceId localPath remotePath)]
  /\ snd (transferAndroidFileToLocal (main_process c) deviceId remotePath localPath)
     = [Invoke (PullFile deviceId remotePath localPath)].
Proof.
  unfold Main.pull_file, Main.push_file, Main.create_directory, Main.delete_item.
  repeat split; try apply try_await_answers.
  - destruct (try_await_resolves (and_then (Main.pull c deviceId remotePath)
      (fun transfer => Main.pipe c transfer localPath))) as [r ->]; reflexivity.
  - destruct (try_await_resolves (Main.push c deviceId localPath remotePath)) as [r ->];
      reflexivity.
  - destruct (try_await_resolves (Main.shell c deviceId (Main.mkdir_command path)))
      as [r ->]; reflexivity.
  - destruct (try_await_resolves (Main.shell c deviceId (Main.rm_command path isDirectory)))
      as [r ->]; reflexivity.
  - unfold transferLocalFileToAndroid; cbn [main_process invoke_push_file].
    unfold Main.push_file.
    destruct (try_await_resolves (Main.push c deviceId localPath remotePath)) as [r ->];
      reflexivity.
  - unfold transferAndroidFileToLocal; cbn [main_process invoke_pull_file].
    unfold Main.pull_file.
    destruct (try_await_resolves (and_then (Main.pull c deviceId remotePath)
      (fun transfer => Main.pipe c transfer localPath))) as [r ->]; reflexivity.
Qed.

(** ** Single files *)

(** The renderer functions do what their [catch] blocks say when the
    invocation rejects: they return [false] and set an error status. *)
Lemma transferLocalFileToAndroid_catch (renderer : ipc)
    (deviceId localPath androidPath message : string) :
  invoke_push_file renderer deviceId localPath androidPath = Rejected message ->
  transferLocalFileToAndroid renderer deviceId localPath androidPath
  = (false, [Invoke (PushFile deviceId localPath androidPath);
             SetStatus (ErrorMessage message)]).
Proof. intros H; unfold transferLocalFileToAndroid; rewrite H; reflexivity. Qed.

Lemma transferAndroidFileToLocal_catch (renderer : ipc)
    (deviceId androidPath localPath message : string) :
  invoke_pull_file renderer deviceId androidPath localPath = Rejected message ->
  transferAndroidFileToLocal renderer deviceId androidPath localPath
  = (false, [Invoke (PullFile deviceId androidPath localPath);
             SetStatus (ErrorMessage message)]).
Proof. intros H; unfold transferAndroidFileToLocal; rewrite H; reflexivity. Qed.

(** C5, at a failing input. When the bridge fails to push (or to pull) the
    file, the single-file transfer of the application as it is wired still
    returns [true] and surfaces no status message: the handler resolved
    with [{ success: false }], which the renderer never inspects. *)
Theorem single_file_failure_returns_true (c : Main.client)
    (deviceId localPath androidPath pushMessage pullMessage : string) :
  Main.push c deviceId localPath androidPath = Rejected pushMessage ->
  Main.pull c deviceId androidPath = Rejected pullMessage ->
  transferLocalFileToAndroid (main_process c) deviceId localPath androidPath
  = (true, [Invoke (PushFile deviceId localPath androidPath)])
  /\ transferAndroidFileToLocal (main_process c) deviceId androidPath localPath
     = (true, [Invoke (PullFile deviceId androidPath localPath)]).
Proof.
  intros Hpush Hpull.
  unfold transferLocalFileToAndroid, transferAndroidFileToLocal.
  cbn [main_process invoke_push_file invoke_pull_file].
  unfold Main.push_file, Main.pull_file.
  rewrite Hpush, Hpull. split; reflexivity.
Qed.

Lemma single_file_failure_returns_true_witness :
  transferLocalFileToAndroid (main_process offline)
    "emulator-5554" "/home/u/a.txt" "/sdcard/a.txt"
  = (true, [Invoke (PushFile "emulator-5554" "/home/u/a.txt" "/sdcard/a.txt")])
  /\ transferAndroidFileToLocal (main_process offline)
       "emulator-5554" "/sdcard/a.txt" "/home/u/a.txt"
     = (true, [Invoke (PullFile "emulator-5554" "/sdcard/a.txt" "/home/u/a.txt")]).
Proof.
  apply (single_file_failure_returns_true offline
           "emulator-5554" "/home/u/a.txt" "/sdcard/a.txt"
           "device offline" "device offline"); reflexivity.
Defined.

(** ** The directory test *)






(** ** The transfer buttons *)

Lemma guard_busy (st : state) (selection : list string) :
  isTransferring st = true ->
  exists s, guard st selection = Some s
            /\ (no_device st = false -> selection <> [] -> s = TransferAlreadyInProgress)
            /\ (no_device st = true -> s = NoDeviceSelected)
            /\ (no_device st = false -> selection = [] -> s = NoItemsSelected).
Proof.
  intros Hbusy. unfold guard.
  destruct (no_device st).
  - eexists; split; [reflexivity |].
    split; [discriminate | split; [reflexivity | discriminate]].
  - destruct selection as [| x selection]; cbn [List.length Nat.eqb].
    + eexists; split; [reflexivity |].
      split; [congruence | split; [discriminate | reflexivity]].
    + rewrite Hbusy. eexists; split; [reflexivity |].
      split; [reflexivity | split; discriminate].
Qed.

Lemma guard_accepts (st : state) (selection : list string) :
  guard st selection = None ->
  no_device st = false /\ selection <> [] /\ isTransferring st = false.
Proof.
  unfold guard.
  destruct (no_device st); [discriminate |].
  destruct selection as [| x selection]; cbn [List.length Nat.eqb]; [discriminate |].
  destruct (isTransferring st); [discriminate |].
  intros _. repeat split. discriminate.
Qed.

Lemma step_flag_counts (a : app) (x : action) : flag_counts a -> flag_counts (step a x).
Proof.
  unfold flag_counts. intros Ha.
  assert (Hbegin : forall g, (g = None -> isTransferring (shared a) = false) ->
            in_flight (begin_if_accepted a g)
            = if isTransferring (shared (begin_if_accepted a g)) then 1 else 0).
  { intros [s |] Hg; cbn.
    - exact Ha.
    - rewrite Ha, (Hg eq_refl). reflexivity. }
  destruct x as [| | | update]; cbn [step].
  - apply Hbegin. intros Hg. apply guard_accepts in Hg. tauto.
  - apply Hbegin. intros Hg. apply guard_accepts in Hg. tauto.
  - destruct (in_flight a) as [| n] eqn:Hn.
    + rewrite Hn. exact Ha.
    + cbn. destruct (isTransferring (shared a)); congruence.
  - cbn. exact Ha.
Qed.

Lemma run_app_flag_counts (xs : list action) (a : app) :
  flag_counts a -> flag_counts (run_app a xs).
Proof.
  unfold run_app. revert a.
  induction xs as [| x xs IH]; intros a Ha; cbn [fold_left].
  - exact Ha.
  - apply IH, step_flag_counts, Ha.
Qed.

Lemma at_most_one_in_flight (homedir : string) (xs : list action) :
  in_flight (run_app (boot homedir) xs) <= 1.
Proof.
  assert (H : flag_counts (run_app (boot homedir) xs)).
  { apply run_app_flag_counts. reflexivity. }
  unfold flag_counts in H. rewrite H.
  destruct (isTransferring (shared (run_app (boot homedir) xs))); lia.
Qed.

(** ** Induction over the source trees and over loops *)

Lemma dirent_induction (P : dirent -> Prop) :
  (forall name, P (File name)) ->
  (forall name scandir_error entries,
      Forall P entries -> P (Directory name scandir_error entries)) ->
  forall item, P item.
Proof.
  intros Hfile Hdir.
  fix IH 1.
  intros [name | name scandir_error entries].
  - apply Hfile.
  - apply Hdir.
    induction entries as [| item entries IHentries]; constructor.
    + apply IH.
    + exact IHentries.
Qed.

Lemma remote_entry_induction (P : remote_entry -> Prop) :
  (forall name mode size listing_error children,
      Forall P children -> P (RemoteEntry name mode size listing_error children)) ->
  forall item, P item.
Proof.
  intros Hentry.
  fix IH 1.
  intros [name mode size listing_error children].
  apply Hentry.
  induction children as [| item children IHchildren]; constructor.
  - apply IH.
  - exact IHchildren.
Qed.

Lemma for_of_nil {A S : Type} (body : A -> S -> S * list event) (v : S) :
  for_of body [] v = (v, []).
Proof. reflexivity. Qed.

Lemma for_of_cons {A S : Type} (body : A -> S -> S * list event)
    (item : A) (rest : list A) (v : S) :
  for_of body (item :: rest) v
  = (fst (for_of body rest (fst (body item v))),
     (snd (body item v) ++ snd (for_of body rest (fst (body item v))))%list).
Proof.
  cbn [for_of]. destruct (body item v) as [v1 t1]. cbn [fst snd].
  destruct (for_of body rest v1) as [v2 t2]. reflexivity.
Qed.

Lemma for_of_Forall {A S : Type} (P : event -> Prop) (body : A -> S -> S * list event)
    (items : list A) :
  Forall (fun item => forall v, Forall P (snd (body item v))) items ->
  forall v, Forall P (snd (for_of body items v)).
Proof.
  induction 1 as [| item rest Hitem _ IH]; intros v.
  - constructor.
  - rewrite for_of_cons. cbn [snd]. apply Forall_app. split; [apply Hitem | apply IH].
Qed.

Lemma for_of_throwing_nil {A S : Type} (body : A -> S -> promise S * list event) (acc : S) :
  for_of_throwing body [] acc = (Resolved acc, []).
Proof. reflexivity. Qed.

Lemma for_of_throwing_cons {A S : Type} (body : A -> S -> promise S * list event)
    (item : A) (rest : list A) (acc : S) :
  for_of_throwing body (item :: rest) acc
  = match body item acc with
    | (Resolved acc1, t1) =>
        (fst (for_of_throwing body rest acc1),
         (t1 ++ snd (for_of_throwing body rest acc1))%list)
    | (Rejected message, t1) => (Rejected message, t1)
    end.
Proof.
  cbn [for_of_throwing]. destruct (body item acc) as [[acc1 | message] t1].
  - destruct (for_of_throwing body rest acc1) as [outcome t2]. reflexivity.
  - reflexivity.
Qed.

Lemma for_of_throwing_Forall {A S : Type} (P : event -> Prop)
    (body : A -> S -> promise S * list event) (items : list A) :
  Forall (fun item => forall acc, Forall P (snd (body item acc))) items ->
  forall acc, Forall P (snd (for_of_throwing body items acc)).
Proof.
  induction 1 as [| item rest Hitem _ IH]; intros acc.
  - constructor.
  - rewrite for_of_throwing_cons.
    specialize (Hitem acc). destruct (body item acc) as [[acc1 | message] t1].
    + cbn [snd] in *. apply Forall_app. split; [exact Hitem | apply IH].
    + exact Hitem.
Qed.

(** ** Unfolding the recursive functions *)

Lemma processItem_File (host : node_path) (renderer : ipc) (deviceId : string)
    (localDir androidDir name : string) (v : counters) :
  processItem host renderer deviceId localDir androidDir (File name) v
  = match invoke_push_file renderer deviceId (join host localDir name)
            (androidDir ++ "/" ++ name) with
    | Resolved _ =>
        (file_succeeded v,
         [Invoke (PushFile deviceId (join host localDir name) (androidDir ++ "/" ++ name));
          SetStatus (Transferring (S (processedFiles v)) (totalFiles v) name)])
    | Rejected message =>
        (file_failed v,
         [Invoke (PushFile deviceId (join host localDir name) (androidDir ++ "/" ++ name));
          SetStatus (ErrorAt (S (processedFiles v)) (totalFiles v) name message)])
    end.
Proof. reflexivity. Qed.

Lemma processItem_Directory (host : node_path) (renderer : ipc) (deviceId : string)
    (localDir androidDir name : string) (scandir_error : option string)
    (entries : list dirent) (v : counters) :
  processItem host renderer deviceId localDir androidDir
              (Directory name scandir_error entries) v
  = match invoke_create_directory renderer deviceId (androidDir ++ "/" ++ name) with
    | Rejected _ =>
        (error_counted v, [Invoke (CreateDirectory deviceId (androidDir ++ "/" ++ name))])
    | Resolved _ =>
        match processDirectory host renderer deviceId (join host localDir name)
                (androidDir ++ "/" ++ name) scandir_error entries v with
        | (Resolved subDirResult, v1, t) =>
            (add_result v1 subDirResult,
             Invoke (CreateDirectory deviceId (androidDir ++ "/" ++ name)) :: t)
        | (Rejected _, v1, t) =>
            (error_counted v1,
             Invoke (CreateDirectory deviceId (androidDir ++ "/" ++ name)) :: t)
        end
    end.
Proof. reflexivity. Qed.

Lemma processDirectory_readable (host : node_path) (renderer : ipc) (deviceId : string)
    (localDir androidDir : string) (entries : list dirent) (v : counters) :
  processDirectory host renderer deviceId localDir androidDir None entries v
  = (Resolved (current_result
                 (fst (for_of (processItem host renderer deviceId localDir androidDir)
                              entries v))),
     fst (for_of (processItem host renderer deviceId localDir androidDir) entries v),
     snd (for_of (processItem host renderer deviceId localDir androidDir) entries v)).
Proof.
  unfold processDirectory, run_directory.
  destruct (for_of _ entries v) as [v1 t]. reflexivity.
Qed.

Lemma processDirectory_unreadable (host : node_path) (renderer : ipc) (deviceId : string)
    (localDir androidDir message : string) (entries : list dirent) (v : counters) :
  processDirectory host renderer deviceId localDir androidDir (Some message) entries v
  = (Rejected message, v, []).
Proof. reflexivity. Qed.

Lemma listItem_unfold (deviceId : string) (path : string)
    (name : string) (mode size : Z) (listing_error : option string)
    (children : list remote_entry) (results : file_list) :
  listItem deviceId path (RemoteEntry name mode size listing_error children) results
  = let itemPath := itemPath_of path name in
    if isDir mode then
      match listAndroidFilesRecursively deviceId itemPath listing_error children with
      | (Resolved subResults, t) =>
          (Resolved (push_all (push_directory results
                                 {| dir_path := itemPath; dir_name := name |})
                              subResults), t)
      | (Rejected message, t) => (Rejected message, t)
      end
    else
      (Resolved (push_file results
                   {| file_path := itemPath; file_name := name; file_size := size |}),
       []).
Proof. reflexivity. Qed.

(** ** What the transfer functions can cause *)

Lemma processItem_events (host : node_path) (renderer : ipc) (deviceId : string)
    (item : dirent) :
  forall localDir androidDir v,
    Forall transfer_event
           (snd (processItem host renderer deviceId localDir androidDir item v)).
Proof.
  induction item as [name | name scandir_error entries IH] using dirent_induction;
    intros localDir androidDir v.
  - rewrite processItem_File.
    destruct (invoke_push_file _ _ _ _); cbn [snd]; repeat constructor.
  - rewrite processItem_Directory.
    destruct (invoke_create_directory _ _ _); cbn [snd]; [| repeat constructor].
    destruct scandir_error as [message |].
    + rewrite processDirectory_unreadable. cbn [snd]. repeat constructor.
    + rewrite processDirectory_readable. cbn [snd]. constructor; [constructor |].
      apply for_of_Forall.
      eapply Forall_impl; [| exact IH]. cbn beta. intros item Hitem v0. apply Hitem.
Qed.

Lemma processDirectory_events (host : node_path) (renderer : ipc) (deviceId : string)
    (localDir androidDir : string) (scandir_error : option string)
    (entries : list dirent) (v : counters) :
  Forall transfer_event
         (snd (processDirectory host renderer deviceId localDir androidDir
                                scandir_error entries v)).
Proof.
  destruct scandir_error as [message |].
  - rewrite processDirectory_unreadable. constructor.
  - rewrite processDirectory_readable. cbn [snd]. apply for_of_Forall.
    apply Forall_forall. intros item _ v0. apply processItem_events.
Qed.

Lemma transferLocalFolderToAndroid_events (host : node_path) (renderer : ipc)
    (deviceId localFolderPath androidFolderPath : string)
    (scandir_error : option string) (entries : list dirent) :
  Forall transfer_event
         (snd (transferLocalFolderToAndroid host renderer deviceId localFolderPath
                 androidFolderPath scandir_error entries)).
Proof.
  unfold transferLocalFolderToAndroid.
  destruct (countFiles scandir_error entries) as [total | message]; [| repeat constructor].
  destruct (invoke_create_directory _ _ _); [| repeat constructor].
  pose proof (processDirectory_events host renderer deviceId localFolderPath
                androidFolderPath scandir_error entries (initial total)) as H.
  destruct (processDirectory _ _ _ _ _ _ _ _) as [[outcome v] t]. cbn [snd] in *.
  repeat constructor. exact H.
Qed.

Lemma listItem_events (deviceId : string) (item : remote_entry) :
  forall path results, Forall listing_event (snd (listItem deviceId path item results)).
Proof.
  induction item as [name mode size listing_error children IH]
    using remote_entry_induction; intros path results.
  rewrite listItem_unfold. cbn zeta.
  destruct (isDir mode); [| constructor].
  assert (H : Forall listing_event
                (snd (listAndroidFilesRecursively deviceId (itemPath_of path name)
                        listing_error children))).
  { unfold listAndroidFilesRecursively, run_listing.
    destruct listing_error as [message |]; [repeat constructor |].
    pose proof (for_of_throwing_Forall listing_event
                  (listItem deviceId (itemPath_of path name)) children) as Hloop.
    specialize (Hloop (Forall_impl _ (fun item Hitem acc => Hitem _ acc) IH) empty_results).
    destruct (for_of_throwing _ children empty_results) as [outcome t].
    cbn [snd] in *. constructor; [constructor | exact Hloop]. }
  destruct (listAndroidFilesRecursively _ _ _ _) as [[subResults | message] t];
    exact H.
Qed.

Lemma listAndroidFilesRecursively_events (deviceId path : string)
    (listing_error : option string) (children : list remote_entry) :
  Forall listing_event
         (snd (listAndroidFilesRecursively deviceId path listing_error children)).
Proof.
  unfold listAndroidFilesRecursively, run_listing.
  destruct listing_error as [message |]; [repeat constructor |].
  pose proof (for_of_throwing_Forall listing_event (listItem deviceId path) children) as H.
  assert (Hitems : Forall (fun item => forall acc,
                     Forall listing_event (snd (listItem deviceId path item acc))) children).
  { apply Forall_forall. intros item _ acc. apply listItem_events. }
  specialize (H Hitems empty_results).
  destruct (for_of_throwing _ children empty_results) as [outcome t].
  cbn [snd] in *. constructor; [constructor | exact H].
Qed.

Lemma listing_event_transfer (e : event) : listing_event e -> transfer_event e.
Proof. intros []; constructor. Qed.

Lemma ensure_directory_events (disk : local_disk) (p : string) (made : list string) :
  Forall transfer_event (snd (ensure_directory disk p made)).
Proof.
  unfold ensure_directory.
  destruct (exists_before disk p || mem p made); [constructor |].
  destruct (mkdir disk p); repeat constructor.
Qed.

Lemma create_directories_events (host : node_path) (disk : local_disk)
    (androidFolderPath localFolderPath : string)
    (dirs : list android_directory) (made : list string) :
  Forall transfer_event
         (snd (create_directories host disk androidFolderPath localFolderPath dirs made)).
Proof.
  unfold create_directories. apply for_of_throwing_Forall.
  apply Forall_forall. intros dir _ acc. apply ensure_directory_events.
Qed.

Lemma pull_one_events (host : node_path) (renderer : ipc) (deviceId : string)
    (androidFolderPath localFolderPath : string) (file : android_file) (v : counters) :
  Forall transfer_event
         (snd (pull_one host renderer deviceId androidFolderPath localFolderPath file v)).
Proof.
  unfold pull_one. destruct (invoke_pull_file _ _ _ _); repeat constructor.
Qed.

Lemma transferAndroidFolderToLocal_events (host : node_path) (renderer : ipc)
    (disk : local_disk) (deviceId androidFolderPath localFolderPath : string)
    (listing_error : option string) (children : list remote_entry) :
  Forall transfer_event
         (snd (transferAndroidFolderToLocal host renderer disk deviceId
                 androidFolderPath localFolderPath listing_error children)).
Proof.
  unfold transferAndroidFolderToLocal.
  pose proof (ensure_directory_events disk localFolderPath []) as H0.
  destruct (ensure_directory disk localFolderPath []) as [[made | message] t0];
    cbn [snd] in *.
  2:{ apply Forall_app; split; [exact H0 | repeat constructor]. }
  pose proof (listAndroidFilesRecursively_events deviceId androidFolderPath
                listing_error children) as H1.
  apply (Forall_impl _ listing_event_transfer) in H1.
  destruct (listAndroidFilesRecursively _ _ _ _) as [[fileList | message] t1];
    cbn [snd] in *.
  2:{ apply Forall_app; split; [exact H0 |]. constructor; [constructor |].
      apply Forall_app; split; [exact H1 | repeat constructor]. }
  assert (Hscanned : Forall transfer_event
            (t0 ++ SetStatus ScanningAndroid :: t1
                ++ [SetStatus (PreparingFrom (List.length (files fileList)) "Android")])%list).
  { apply Forall_app; split; [exact H0 |]. constructor; [constructor |].
    apply Forall_app; split; [exact H1 | repeat constructor]. }
  pose proof (create_directories_events host disk androidFolderPath localFolderPath
                (directories fileList) made) as H2.
  destruct (create_directories _ _ _ _ _ _) as [[made' | message] t2]; cbn [snd] in *.
  2:{ apply Forall_app; split; [exact Hscanned |].
      apply Forall_app; split; [exact H2 | repeat constructor]. }
  pose proof (for_of_Forall transfer_event
                (pull_one host renderer deviceId androidFolderPath localFolderPath)
                (files fileList)) as H3.
  assert (Hfiles : Forall (fun file => forall v, Forall transfer_event
            (snd (pull_one host renderer deviceId androidFolderPath localFolderPath file v)))
            (files fileList)).
  { apply Forall_forall. intros file _ v. apply pull_one_events. }
  specialize (H3 Hfiles (initial (List.length (files fileList)))).
  destruct (for_of _ (files fileList) _) as [v t3]. cbn [snd] in *.
  apply Forall_app; split; [exact Hscanned |].
  apply Forall_app; split; assumption.
Qed.

(** ** The handlers leave [state] alone while they work *)

Lemma transfer_event_leaves_state_alone (e : event) :
  transfer_event e -> leaves_state_alone e.
Proof. intros []; reflexivity. Qed.

Lemma existsb_touches_state (t : list event) :
  Forall leaves_state_alone t -> existsb touches_state t = false.
Proof.
  induction 1 as [| e t He _ IH]; cbn [existsb].
  - reflexivity.
  - rewrite He, IH. reflexivity.
Qed.

Lemma complete_and_refresh_quiet (load_views : promise unit) (r : result) :
  Forall leaves_state_alone (snd (complete_and_refresh load_views r)).
Proof.
  unfold complete_and_refresh. destruct load_views; cbn [snd List.app];
    repeat constructor.
Qed.

Lemma toAndroid_item_quiet (host : node_path) (renderer : ipc)
    (stat_of : string -> local_stat) (st : state) (device : string) (total : nat)
    (itemName : string) (acc : result * nat) :
  Forall leaves_state_alone
         (snd (toAndroid_item host renderer stat_of st device total itemName acc)).
Proof.
  unfold toAndroid_item. destruct acc as [r previous].
  destruct (stat_of _) as [| message | | scandir_error entries]; cbn [snd];
    try constructor.
  - unfold transferLocalFileToAndroid.
    destruct (invoke_push_file _ _ _ _); cbn [snd List.app]; repeat constructor.
  - pose proof (transferLocalFolderToAndroid_events host renderer device
                  (join host (localPath st) itemName)
                  (collapse_slashes
                     (androidPath st ++ "/" ++ replace_class android_unsafe itemName))
                  scandir_error entries) as H.
    apply (Forall_impl _ transfer_event_leaves_state_alone) in H.
    destruct (transferLocalFolderToAndroid _ _ _ _ _ _ _) as [[folderResult | message] t];
      cbn [snd] in *.
    + apply Forall_app; split; [repeat constructor |].
      apply Forall_app; split; [exact H | repeat constructor].
    + apply Forall_app; split; [repeat constructor |].
      apply Forall_app; split; [exact H | repeat constructor].
Qed.

Lemma toLocal_item_quiet (host : node_path) (renderer : ipc) (disk : local_disk)
    (listing_of : string -> option string * list remote_entry)
    (query : string -> dom_query) (st : state) (device : string) (total : nat)
    (itemName : string) (acc : result * nat) :
  Forall leaves_state_alone
         (snd (toLocal_item host renderer disk listing_of query st device total
                            itemName acc)).
Proof.
  unfold toLocal_item. destruct acc as [r previous].
  destruct (android_isDirectory _ _).
  - destruct (listing_of _) as [scandir_error children].
    pose proof (transferAndroidFolderToLocal_events host renderer disk device
                  (backslashes_to_slashes (join host (androidPath st) itemName))
                  (join host (localPath st) (replace_class local_unsafe itemName))
                  scandir_error children) as H.
    apply (Forall_impl _ transfer_event_leaves_state_alone) in H.
    destruct (transferAndroidFolderToLocal _ _ _ _ _ _ _ _) as [folderResult t].
    cbn [snd] in *.
    apply Forall_app; split; [repeat constructor |].
    apply Forall_app; split; [exact H | repeat constructor].
  - unfold transferAndroidFileToLocal.
    destruct (invoke_pull_file _ _ _ _); cbn [snd List.app]; repeat constructor.
Qed.

Lemma transferToAndroid_click_bracketed (host : node_path) (renderer : ipc)
    (stat_of : string -> local_stat) (load_views : promise unit) (st : state) :
  toAndroid_guard st = None ->
  bracketed st (transferToAndroid_click host renderer stat_of load_views st).
Proof.
  intros Hguard. unfold transferToAndroid_click. rewrite Hguard.
  match goal with
  | |- context [for_of ?body ?items ?v] =>
      pose proof (for_of_Forall leaves_state_alone body items) as Hloop;
      specialize (Hloop (proj2 (Forall_forall _ _)
                           (fun item _ acc => toAndroid_item_quiet _ _ _ _ _ _ item acc)) v);
      destruct (for_of body items v) as [[r n] t]
  end.
  pose proof (complete_and_refresh_quiet load_views r) as Hend.
  destruct (complete_and_refresh load_views r) as [outcome t']. cbn [snd] in *.
  exists (SetStatus PreparingTransferToAndroid :: t ++ t')%list, outcome. split.
  - rewrite <- app_comm_cons, <- app_assoc. reflexivity.
  - apply existsb_touches_state. constructor; [reflexivity |].
    apply Forall_app; split; assumption.
Qed.

Lemma transferToLocal_click_bracketed (host : node_path) (renderer : ipc)
    (disk : local_disk) (listing_of : string -> option string * list remote_entry)
    (query : string -> dom_query) (load_views : promise unit) (st : state) :
  toLocal_guard st = None ->
  bracketed st (transferToLocal_click host renderer disk listing_of query load_views st).
Proof.
  intros Hguard. unfold transferToLocal_click. rewrite Hguard.
  match goal with
  | |- context [for_of ?body ?items ?v] =>
      pose proof (for_of_Forall leaves_state_alone body items) as Hloop;
      specialize (Hloop (proj2 (Forall_forall _ _)
                           (fun item _ acc =>
                              toLocal_item_quiet _ _ _ _ _ _ _ _ item acc)) v);
      destruct (for_of body items v) as [[r n] t]
  end.
  pose proof (complete_and_refresh_quiet load_views r) as Hend.
  destruct (complete_and_refresh load_views r) as [outcome t']. cbn [snd] in *.
  exists (SetStatus PreparingTransferToLocal :: t ++ t')%list, outcome. split.
  - rewrite <- app_comm_cons, <- app_assoc. reflexivity.
  - apply existsb_touches_state. constructor; [reflexivity |].
    apply Forall_app; split; assumption.
Qed.

(** C8 as stated fails on the status: while a transfer is running, a click
    on the transfer-to-Android button with nothing selected on the local
    side is turned away by the earlier guard, with the status "No items
    selected for transfer". *)
Lemma busy_click_reports_missing_selection :
  isTransferring busy_without_selection = true
  /\ transferToAndroid_click posix (main_process healthy) all_files (Resolved tt)
       busy_without_selection
     = (busy_without_selection, [SetStatus NoItemsSelected], Resolved tt)
  /\ render_status NoItemsSelected <> render_status TransferAlreadyInProgress.
Proof. repeat split. cbn. discriminate. Qed.

(** C8, amended. While [state.isTransferring] is true, a click on either
    transfer button invokes nothing, leaves [state] as it is and only sets
    a status: "Transfer already in progress" when a device is selected and
    the button's selection is not empty, and the status of the earlier
    guard otherwise, which is "No device selected" when no device is
    selected and "No items selected for transfer" when a device is
    selected and the selection of the button is empty. A handler that passes its guards sets the flag before
    anything else, does not touch [state] while it works, and resets the
    flag in its [finally] block, whether it resolves or rejects. Hence,
    whatever the sequence of clicks, of handlers finishing and of other
    handlers, at most one transfer is in flight. *)
Theorem one_transfer_at_a_time
    (host : node_path) (renderer : ipc) (disk : local_disk)
    (stat_of : string -> local_stat)
    (listing_of : string -> option string * list remote_entry)
    (query : string -> dom_query) (load_views : promise unit)
    (st : state) (homedir : string) (xs : list action) :
  (isTransferring st = true ->
   exists s1 s2,
     transferToAndroid_click host renderer stat_of load_views st
     = (st, [SetStatus s1], Resolved tt)
     /\ transferToLocal_click host renderer disk listing_of query load_views st
        = (st, [SetStatus s2], Resolved tt)
     /\ (no_device st = false -> localSelectedItems st <> [] ->
         s1 = TransferAlreadyInProgress)
     /\ (no_device st = false -> androidSelectedItems st <> [] ->
         s2 = TransferAlreadyInProgress)
     /\ (no_device st = true -> s1 = NoDeviceSelected /\ s2 = NoDeviceSelected)
     /\ (no_device st = false -> localSelectedItems st = [] -> s1 = NoItemsSelected)
     /\ (no_device st = false -> androidSelectedItems st = [] ->
         s2 = NoItemsSelected))
  /\ render_status TransferAlreadyInProgress = "Transfer already in progress"
  /\ render_status NoDeviceSelected = "No device selected"
  /\ render_status NoItemsSelected = "No items selected for transfer"
  /\ (toAndroid_guard st = None ->
      bracketed st (transferToAndroid_click host renderer stat_of load_views st))
  /\ (toLocal_guard st = None ->
      bracketed st
        (transferToLocal_click host renderer disk listing_of query load_views st))
  /\ isTransferring (started st) = true
  /\ isTransferring (finished (started st)) = false
  /\ in_flight (run_app (boot homedir) xs) <= 1.
Proof.
  split; [| split; [reflexivity | split; [reflexivity | split; [reflexivity |
            split; [| split; [| split; [| split]]]]]]].
  - intros Hbusy.
    destruct (guard_busy st (localSelectedItems st) Hbusy)
      as (s1 & Hg1 & Hs1 & Hd1 & He1).
    destruct (guard_busy st (androidSelectedItems st) Hbusy)
      as (s2 & Hg2 & Hs2 & Hd2 & He2).
    exists s1, s2.
    split; [unfold transferToAndroid_click, toAndroid_guard; rewrite Hg1; reflexivity |].
    split; [unfold transferToLocal_click, toLocal_guard; rewrite Hg2; reflexivity |].
    split; [exact Hs1 |]. split; [exact Hs2 |].
    split; [intros Hd; split; [apply Hd1, Hd | apply Hd2, Hd] |].
    split; [exact He1 | exact He2].
  - apply transferToAndroid_click_bracketed.
  - apply transferToLocal_click_bracketed.
  - reflexivity.
  - reflexivity.
  - apply at_most_one_in_flight.
Qed.

Lemma one_transfer_at_a_time_witness :
  isTransferring busy_with_selection = true
  /\ transferToAndroid_click posix (main_process healthy) all_files (Resolved tt)
       busy_with_selection
     = (busy_with_selection, [SetStatus TransferAlreadyInProgress], Resolved tt).
Proof.
  split; [reflexivity |].
  destruct (one_transfer_at_a_time posix (main_process healthy) empty_disk all_files
              no_listing no_element (Resolved tt) busy_with_selection "/home/u" [])
    as [Hbusy _].
  destruct (Hbusy eq_refl) as (s1 & s2 & H1 & _ & Hs1 & _).
  rewrite H1, (Hs1 eq_refl); [reflexivity | discriminate].
Defined.

(** C9 as stated fails at the start: the handler that passed its guards
    works on a state whose selection is still the one the user made (it is
    the list the handler iterates over), and [clearSelections] is called
    once, as the last step. *)
Lemma selection_survives_the_start :
  toAndroid_guard one_file_selected = None
  /\ localSelectedItems (started one_file_selected) = ["a.txt"]
  /\ snd (fst (transferToAndroid_click posix (main_process healthy) all_files
                 (Resolved tt) one_file_selected))
     = [Assign_isTransferring true;
        SetStatus PreparingTransferToAndroid;
        SetStatus (TransferringItem 1 1 "a.txt");
        UpdateProgressBar (FloorOf 0 1) "1/1";
        Invoke (PushFile "emulator-5554" "/home/u/a.txt" "/sdcard/a.txt");
        UpdateProgressBar (FloorOf 1 1) "1/1";
        UpdateProgressBar (Exactly 100) "Complete";
        SetStatus (TransferComplete 1 0);
        Refresh;
        SetStatus TransferCompletedRefreshed;
        Assign_isTransferring false;
        Call_clearSelections].
Proof. repeat split. Qed.

Lemma bracketed_final_state (st : state) (out : state * list event * promise unit) :
  bracketed st out ->
  localSelectedItems (fst (fst out)) = [] /\ androidSelectedItems (fst (fst out)) = [].
Proof. intros (work & outcome & -> & _). split; reflexivity. Qed.

(** C9, amended. Both selection sets are cleared at the end of every
    transfer, by the [finally] block of the handler, whether the handler
    resolves or rejects; they are not cleared at its start: while the
    handler works the selections are those it was started with, and
    [clearSelections] is its last call. A click that is turned away by a
    guard changes nothing. *)
Theorem selections_cleared_at_the_end
    (host : node_path) (renderer : ipc) (disk : local_disk)
    (stat_of : string -> local_stat)
    (listing_of : string -> option string * list remote_entry)
    (query : string -> dom_query) (load_views : promise unit) (st : state) :
  (toAndroid_guard st = None ->
   bracketed st (transferToAndroid_click host renderer stat_of load_views st)
   /\ localSelectedItems
        (fst (fst (transferToAndroid_click host renderer stat_of load_views st))) = []
   /\ androidSelectedItems
        (fst (fst (transferToAndroid_click host renderer stat_of load_views st))) = [])
  /\ (toLocal_guard st = None ->
      bracketed st
        (transferToLocal_click host renderer disk listing_of query load_views st)
      /\ localSelectedItems
           (fst (fst (transferToLocal_click host renderer disk listing_of query
                        load_views st))) = []
      /\ androidSelectedItems
           (fst (fst (transferToLocal_click host renderer disk listing_of query
                        load_views st))) = [])
  /\ localSelectedItems (started st) = localSelectedItems st
  /\ androidSelectedItems (started st) = androidSelectedItems st
  /\ (forall s, toAndroid_guard st = Some s ->
      transferToAndroid_click host renderer stat_of load_views st
      = (st, [SetStatus s], Resolved tt))
  /\ (forall s, toLocal_guard st = Some s ->
      transferToLocal_click host renderer disk listing_of query load_views st
      = (st, [SetStatus s], Resolved tt)).
Proof.
  split; [| split; [| split; [| split; [| split]]]].
  - intros Hguard.
    pose proof (transferToAndroid_click_bracketed host renderer stat_of load_views st
                  Hguard) as H.
    split; [exact H | apply (bracketed_final_state st), H].
  - intros Hguard.
    pose proof (transferToLocal_click_bracketed host renderer disk listing_of query
                  load_views st Hguard) as H.
    split; [exact H | apply (bracketed_final_state st), H].
  - reflexivity.
  - reflexivity.
  - intros s Hguard. unfold transferToAndroid_click. rewrite Hguard. reflexivity.
  - intros s Hguard. unfold transferToLocal_click. rewrite Hguard. reflexivity.
Qed.

Lemma selections_cleared_at_the_end_witness :
  toAndroid_guard one_file_selected = None
  /\ localSelectedItems
       (fst (fst (transferToAndroid_click posix (main_process healthy) all_files
                    (Resolved tt) one_file_selected))) = [].
Proof.
  split; [reflexivity |].
  destruct (selections_cleared_at_the_end posix (main_process healthy) empty_disk
              all_files no_listing no_element (Resolved tt) one_file_selected)
    as [Hend _].
  destruct (Hend eq_refl) as (_ & Hlocal & _).
  exact Hlocal.
Defined.

(** ** A failed scan *)

Lemma destination_calls_app (t1 t2 : list event) :
  destination_calls (t1 ++ t2) = (destination_calls t1 ++ destination_calls t2)%list.
Proof. apply filter_app. Qed.

Lemma listing_no_destination_call (t : list event) :
  Forall listing_event t -> destination_calls t = [].
Proof.
  induction 1 as [| e t He _ IH]; [reflexivity |].
  destruct He. cbn. exact IH.
Qed.

Lemma ensure_directory_calls (disk : local_disk) (p : string) :
  destination_calls (snd (ensure_directory disk p []))
  = if exists_before disk p then [] else [MkdirSync p].
Proof.
  unfold ensure_directory. cbn [mem existsb]. rewrite orb_false_r.
  destruct (exists_before disk p); [reflexivity |].
  destruct (mkdir disk p); reflexivity.
Qed.

(** C2 as stated fails from Android to local: the local base folder is
    made before the remote folder is scanned, so a scan that fails leaves
    a new, empty folder behind. *)
Lemma failed_scan_leaves_base_folder :
  transferAndroidFolderToLocal posix (main_process healthy) empty_disk "emulator-5554"
    "/sdcard/DCIM" "/home/u/DCIM" (Some "remote object does not exist") []
  = ({| success := 0; errors := 1 |},
     [MkdirSync "/home/u/DCIM";
      SetStatus ScanningAndroid;
      Invoke (ListFiles "emulator-5554" "/sdcard/DCIM");
      SetStatus (ErrorMessage "remote object does not exist")]).
Proof. reflexivity. Qed.

(** C2, amended. From local to Android, a failed count of the source files
    ends the transfer with [{ success: 0, errors: 1 }] and the status
    "Error counting files: ..." before anything is invoked: the device is
    untouched. From Android to local, a failed scan ends the transfer with
    [{ success: 0, errors: 1 }] as well, no file is pulled and no
    subdirectory is made, but the local base folder has been made before
    the scan when it did not exist. *)
Theorem failed_scan_aborts
    (host : node_path) (renderer : ipc) (disk : local_disk)
    (deviceId localFolderPath androidFolderPath : string)
    (scandir_error : option string) (entries : list dirent)
    (listing_error : option string) (children : list remote_entry)
    (countMessage scanMessage : string) :
  countFiles scandir_error entries = Rejected countMessage ->
  fst (listAndroidFilesRecursively deviceId androidFolderPath listing_error children)
  = Rejected scanMessage ->
  transferLocalFolderToAndroid host renderer deviceId localFolderPath androidFolderPath
    scandir_error entries
  = (Resolved {| success := 0; errors := 1 |},
     [SetStatus (ErrorCountingFiles countMessage)])
  /\ render_status (ErrorCountingFiles countMessage)
     = "Error counting files: " ++ countMessage
  /\ fst (transferAndroidFolderToLocal host renderer disk deviceId androidFolderPath
            localFolderPath listing_error children)
     = {| success := 0; errors := 1 |}
  /\ destination_calls
       (snd (transferAndroidFolderToLocal host renderer disk deviceId androidFolderPath
               localFolderPath listing_error children))
     = if exists_before disk localFolderPath then [] else [MkdirSync localFolderPath].
Proof.
  intros Hcount Hscan.
  split; [| split; [reflexivity |]].
  - unfold transferLocalFolderToAndroid. rewrite Hcount. reflexivity.
  - pose proof (ensure_directory_calls disk localFolderPath) as Hbase.
    pose proof (listAndroidFilesRecursively_events deviceId androidFolderPath
                  listing_error children) as Hlist.
    apply listing_no_destination_call in Hlist.
    unfold transferAndroidFolderToLocal.
    destruct (ensure_directory disk localFolderPath []) as [[made | message] t0];
      cbn [snd] in Hbase.
    + destruct (listAndroidFilesRecursively _ _ _ _) as [[fileList | message] t1];
        cbn [fst snd] in *; [discriminate |].
      split; [reflexivity |].
      rewrite destination_calls_app. cbn [destination_calls filter touches_destination].
      fold (destination_calls (t1 ++ [SetStatus (ErrorMessage message)])).
      rewrite destination_calls_app, Hlist, Hbase. cbn.
      apply app_nil_r.
    + cbn [fst snd]. split; [reflexivity |].
      rewrite destination_calls_app, Hbase. cbn. apply app_nil_r.
Qed.

Lemma failed_scan_aborts_witness :
  transferLocalFolderToAndroid posix (main_process healthy) "emulator-5554"
    "/home/u/Music" "/sdcard/Music" (Some "EACCES: permission denied") []
  = (Resolved {| success := 0; errors := 1 |},
     [SetStatus (ErrorCountingFiles "EACCES: permission denied")])
  /\ destination_calls
       (snd (transferAndroidFolderToLocal posix (main_process healthy) empty_disk
               "emulator-5554" "/sdcard/Music" "/home/u/Music"
               (Some "remote object does not exist") []))
     = [MkdirSync "/home/u/Music"].
Proof.
  destruct (failed_scan_aborts posix (main_process healthy) empty_disk "emulator-5554"
              "/home/u/Music" "/sdcard/Music"
              (Some "EACCES: permission denied") []
              (Some "remote object does not exist") []
              "EACCES: permission denied" "remote object does not exist"
              eq_refl eq_refl) as (Hlocal & _ & _ & Hremote).
  split; [exact Hlocal | exact Hremote].
Defined.

(** ** Progress *)

Lemma forEach_cons {A S : Type} (callback : A -> S -> promise S)
    (item : A) (rest : list A) (v : S) :
  forEach callback (item :: rest) v
  = match callback item v with
    | Resolved v1 => forEach callback rest v1
    | Rejected message => Rejected message
    end.
Proof. reflexivity. Qed.

Lemma countFiles_item_Directory (name : string) (entries : list dirent) (total : nat) :
  countFiles_item (Directory name None entries) total
  = forEach countFiles_item entries total.
Proof. reflexivity. Qed.











(** ** One failing file *)

(** The renderer counts a file as failed when its invocation rejects, as
    its [catch] blocks say. *)
Lemma renderer_counts_a_rejected_invocation :
  fst (transferLocalFolderToAndroid posix (rejecting_on "/home/u/Music/b.mp3")
         "emulator-5554" "/home/u/Music" "/sdcard/Music" None two_songs)
  = Resolved {| success := 1; errors := 1 |}
  /\ fst (transferAndroidFolderToLocal posix (rejecting_on "/sdcard/DCIM/b.jpg")
            empty_disk "emulator-5554" "/sdcard/DCIM" "/home/u/DCIM" None two_pictures)
     = {| success := 1; errors := 1 |}.
Proof. split; reflexivity. Qed.

(** The counters of a subfolder are added to themselves: a folder whose
    only file sits in a subfolder reports two successes. *)
Lemma nested_folder_counted_twice :
  countFiles None nested_song = Resolved 1
  /\ fst (transferLocalFolderToAndroid posix (main_process healthy)
            "emulator-5554" "/home/u/Music" "/sdcard/Music" None nested_song)
     = Resolved {| success := 2; errors := 0 |}.
Proof. split; reflexivity. Qed.

(** Even with an invocation that rejects, a failure inside a subfolder is
    counted twice: two files, one failure, and the result is one success
    and two errors. *)
Lemma rejected_file_in_subfolder_counted_twice :
  countFiles None [Directory "live" None [File "b.mp3"]; File "a.mp3"] = Resolved 2
  /\ fst (transferLocalFolderToAndroid posix (rejecting_on "/home/u/Music/live/b.mp3")
            "emulator-5554" "/home/u/Music" "/sdcard/Music" None
            [Directory "live" None [File "b.mp3"]; File "a.mp3"])
     = Resolved {| success := 1; errors := 2 |}.
Proof. split; reflexivity. Qed.

(** Through the handlers of the main process every file of a flat folder
    is counted as a success, whatever the bridge does. *)
Lemma flat_loop_counts_successes (host : node_path) (c : Main.client)
    (deviceId localDir androidDir : string) (names : list string) :
  forall v,
    successCount (fst (for_of (processItem host (main_process c) deviceId
                                  localDir androidDir) (map File names) v))
    = successCount v + List.length names
    /\ errorCount (fst (for_of (processItem host (main_process c) deviceId
                                   localDir androidDir) (map File names) v))
       = errorCount v.
Proof.
  induction names as [| name rest IH]; intros v.
  - cbn. split; lia.
  - cbn [map]. rewrite for_of_cons. cbn [fst].
    rewrite processItem_File.
    cbn [main_process invoke_push_file]. unfold Main.push_file.
    destruct (try_await_resolves
                (Main.push c deviceId (join host localDir name)
                           (androidDir ++ "/" ++ name))) as [r ->].
    cbn [fst]. destruct (IH (file_succeeded v)) as [Hs He].
    rewrite Hs, He. cbn [file_succeeded successCount errorCount List.length].
    split; lia.
Qed.

Lemma flat_folder_never_counts_an_error (host : node_path) (c : Main.client)
    (deviceId localFolderPath androidFolderPath : string) (names : list string) :
  fst (transferLocalFolderToAndroid host (main_process c) deviceId localFolderPath
         androidFolderPath None (map File names))
  = Resolved {| success := List.length names; errors := 0 |}.
Proof.
  unfold transferLocalFolderToAndroid.
  destruct (countFiles None (map File names)) as [total | message] eqn:Hcount.
  - cbn [main_process invoke_create_directory]. unfold Main.create_directory.
    destruct (try_await_resolves
                (Main.shell c deviceId (Main.mkdir_command androidFolderPath)))
      as [r ->].
    rewrite processDirectory_readable. cbn [fst].
    destruct (flat_loop_counts_successes host c deviceId localFolderPath
                androidFolderPath names (initial total)) as [Hs He].
    unfold current_result. rewrite Hs, He. reflexivity.
  - exfalso. unfold countFiles in Hcount.
    rewrite countFiles_item_Directory in Hcount.
    revert Hcount. generalize 0.
    induction names as [| name rest IH]; intros n Hcount; [discriminate |].
    cbn [map] in Hcount. rewrite forEach_cons in Hcount. cbn in Hcount.
    exact (IH _ Hcount).
Qed.

(** C1, at a failing input. A folder of two files is transferred while the
    bridge fails to copy the second one. Both files are attempted, in
    either direction, but the transfer returns [{ success: 2, errors: 0 }]
    and shows "Transferring 2/2" for the file that failed: the handler of
    the main process resolved with [{ success: false }], and the renderer
    counts every resolved invocation as a success. *)
Theorem failed_copy_counted_as_success :
  transferLocalFolderToAndroid posix (main_process (failing_on "/home/u/Music/b.mp3"))
    "emulator-5554" "/home/u/Music" "/sdcard/Music" None two_songs
  = (Resolved {| success := 2; errors := 0 |},
     [SetStatus (PreparingFrom 2 "Music");
      Invoke (CreateDirectory "emulator-5554" "/sdcard/Music");
      Invoke (PushFile "emulator-5554" "/home/u/Music/a.mp3" "/sdcard/Music/a.mp3");
      SetStatus (Transferring 1 2 "a.mp3");
      Invoke (PushFile "emulator-5554" "/home/u/Music/b.mp3" "/sdcard/Music/b.mp3");
      SetStatus (Transferring 2 2 "b.mp3")])
  /\ Main.push_file (failing_on "/home/u/Music/b.mp3") "emulator-5554"
       "/home/u/Music/b.mp3" "/sdcard/Music/b.mp3"
     = Resolved {| Main.success := false; Main.error := Some "Permission denied" |}
  /\ transferAndroidFolderToLocal posix (main_process (failing_on "/sdcard/DCIM/b.jpg"))
       empty_disk "emulator-5554" "/sdcard/DCIM" "/home/u/DCIM" None two_pictures
     = ({| success := 2; errors := 0 |},
        [MkdirSync "/home/u/DCIM";
         SetStatus ScanningAndroid;
         Invoke (ListFiles "emulator-5554" "/sdcard/DCIM");
         SetStatus (PreparingFrom 2 "Android");
         Invoke (PullFile "emulator-5554" "/sdcard/DCIM/a.jpg" "/home/u/DCIM/a.jpg");
         SetStatus (Transferring 1 2 "a.jpg");
         Invoke (PullFile "emulator-5554" "/sdcard/DCIM/b.jpg" "/home/u/DCIM/b.jpg");
         SetStatus (Transferring 2 2 "b.jpg")])
  /\ Main.pull_file (failing_on "/sdcard/DCIM/b.jpg") "emulator-5554"
       "/sdcard/DCIM/b.jpg" "/home/u/DCIM/b.jpg"
     = Resolved {| Main.success := false;
                   Main.error := Some "remote object does not exist" |}.
Proof. repeat split. Qed.

(** ** Strings and paths *)

Lemma append_assoc (a b c : string) : (a ++ b) ++ c = a ++ b ++ c.
Proof. induction a as [| x a IH]; cbn; [reflexivity | f_equal; exact IH]. Qed.

Lemma append_nil_r (a : string) : a ++ EmptyString = a.
Proof. induction a as [| x a IH]; cbn; [reflexivity | f_equal; exact IH]. Qed.

Lemma includes_slash_app (a b : string) :
  includes_slash (a ++ b) = includes_slash a || includes_slash b.
Proof.
  induction a as [| x a IH]; cbn; [reflexivity |].
  rewrite IH. apply orb_assoc.
Qed.

Lemma snoc_injective (a b : string) (c d : ascii) :
  a ++ String c EmptyString = b ++ String d EmptyString -> a = b /\ c = d.
Proof.
  revert b. induction a as [| x a IH]; intros [| y b] H; cbn in H.
  - injection H as ->. split; reflexivity.
  - injection H as -> H. destruct b; discriminate.
  - injection H as -> H. destruct a; discriminate.
  - injection H as -> H. destruct (IH b H) as [-> ->]. split; reflexivity.
Qed.

Lemma snoc_cases (s : string) :
  s = EmptyString \/ exists s' c, s = s' ++ String c EmptyString.
Proof.
  induction s as [| x s IH]; [left; reflexivity | right].
  destruct IH as [-> | (s' & c & ->)].
  - exists EmptyString, x. reflexivity.
  - exists (String x s'), c. reflexivity.
Qed.

Lemma includes_slash_middle (a b : string) : includes_slash (a ++ "/" ++ b) = true.
Proof.
  rewrite includes_slash_app. cbn. apply orb_true_r.
Qed.

(** A directory on the way to [P ++ name] is on the way to [P] already,
    when [name] has no slash. *)
Lemma ancestor_of_child (D P name : string) :
  slash_free name = true -> ancestor D (P ++ name) -> ancestor D P.
Proof.
  intros Hname [rest H]. unfold slash_free in Hname.
  apply negb_true_iff in Hname.
  revert P H. induction D as [| x D IH]; intros [| y P] H; cbn in H.
  - rewrite H in Hname. cbn in Hname. discriminate.
  - injection H as Hy _. subst y. exists P. reflexivity.
  - rewrite H in Hname.
    pose proof (includes_slash_middle (String x D) rest) as Hslash.
    cbn in Hslash, Hname. congruence.
  - injection H as -> H. destruct (IH P H) as [rest' ->].
    exists rest'. reflexivity.
Qed.

Lemma ancestor_of_slash (D p : string) :
  ancestor D (p ++ "/") -> D = p \/ ancestor D p.
Proof.
  intros [rest H].
  destruct (snoc_cases rest) as [-> | (rest' & c & ->)].
  - left. apply snoc_injective in H. symmetry. apply H.
  - right. exists rest'.
    change (D ++ "/" ++ rest' ++ String c EmptyString)
      with (D ++ ("/" ++ rest') ++ String c EmptyString) in H.
    rewrite <- append_assoc in H.
    apply snoc_injective in H. apply H.
Qed.

Lemma ancestor_above (D root : string) : ancestor D root -> above D root.
Proof. intros [rest ->]. exists ("/" ++ rest). reflexivity. Qed.

Lemma root_way_covered (root : string) (created : string -> Prop) :
  way_covered root created (root ++ "/")
  /\ way_covered root created (slashed root).
Proof.
  assert (H : way_covered root created (root ++ "/")).
  { intros D HD. left.
    destruct (ancestor_of_slash D root HD) as [-> | H].
    - exists EmptyString. symmetry. apply append_nil_r.
    - apply ancestor_above, H. }
  split; [exact H |].
  unfold slashed. destruct (endsWith_slash root); [| exact H].
  intros D HD. left. apply ancestor_above, HD.
Qed.

Lemma itemPath_of_slashed (path name : string) :
  itemPath_of path name = slashed path ++ name.
Proof.
  unfold itemPath_of, slashed. destruct (endsWith_slash path); [reflexivity |].
  symmetry. apply append_assoc.
Qed.

(** Once the directory [p], a child of the directory with prefix
    [prefix], has been made, all that lies on the way to the children of
    [p] is covered. *)
Lemma child_way_covered (root : string) (created : string -> Prop)
    (prefix name : string) :
  slash_free name = true ->
  way_covered root created prefix ->
  way_covered root (fun D => created D \/ D = prefix ++ name) ((prefix ++ name) ++ "/")
  /\ way_covered root (fun D => created D \/ D = prefix ++ name)
                 (slashed (prefix ++ name)).
Proof.
  intros Hname Hprefix.
  assert (H : way_covered root (fun D => created D \/ D = prefix ++ name)
                ((prefix ++ name) ++ "/")).
  { intros D HD.
    destruct (ancestor_of_slash D _ HD) as [-> | H]; [tauto |].
    destruct (Hprefix D (ancestor_of_child D _ name Hname H)); tauto. }
  split; [exact H |].
  unfold slashed. destruct (endsWith_slash (prefix ++ name)); [| exact H].
  intros D HD.
  destruct (Hprefix D (ancestor_of_child D _ name Hname HD)); tauto.
Qed.

Lemma way_covered_mono (root : string) (created created' : string -> Prop)
    (prefix : string) :
  (forall D, created D -> created' D) ->
  way_covered root created prefix -> way_covered root created' prefix.
Proof. intros Hsub H D HD. destruct (H D HD); [left | right]; auto. Qed.

(** ** Requirements along a processing order *)

Lemma monitored_mono (requirement : (string -> Prop) -> entry -> Prop) :
  monotone requirement ->
  forall order (created created' : string -> Prop),
    (forall D, created D -> created' D) ->
    monitored requirement created order -> monitored requirement created' order.
Proof.
  intros Hmono. induction order as [| e rest IH]; intros created created' Hsub H.
  - exact I.
  - destruct H as [He Hrest]. split.
    + eapply Hmono; eassumption.
    + eapply IH; [| exact Hrest]. cbn beta. intros D [HD | HD]; auto.
Qed.

Lemma monitored_app (requirement : (string -> Prop) -> entry -> Prop) :
  monotone requirement ->
  forall order1 order2 (created : string -> Prop),
    monitored requirement created order1 ->
    monitored requirement (fun D => created D \/ made_by order1 D) order2 ->
    monitored requirement created (order1 ++ order2).
Proof.
  intros Hmono. induction order1 as [| e rest IH]; intros order2 created H1 H2.
  - cbn [List.app]. eapply monitored_mono; [exact Hmono | | exact H2].
    cbn beta. intros D [HD | []]. exact HD.
  - destruct H1 as [He Hrest]. cbn [List.app monitored]. split; [exact He |].
    apply IH; [exact Hrest |].
    eapply monitored_mono; [exact Hmono | | exact H2].
    cbn beta. unfold made_by. intros D [HD | [HD | HD]]; auto.
    left. right. rewrite HD. reflexivity.
Qed.

Lemma monitored_index (requirement : (string -> Prop) -> entry -> Prop) :
  monotone requirement ->
  forall order (created : string -> Prop) i e,
    monitored requirement created order ->
    nth_error order i = Some e ->
    requirement
      (fun D => created D
                \/ exists j, j < i /\ nth_error order j = Some (MakeDirectory D))
      e.
Proof.
  intros Hmono order.
  induction order as [| e0 rest IH]; intros created i e H Hi.
  - destruct i; discriminate.
  - destruct H as [He Hrest]. destruct i as [| i]; cbn [nth_error] in Hi.
    + injection Hi as <-. eapply Hmono; [| exact He]. cbn beta. auto.
    + specialize (IH _ i e Hrest Hi). eapply Hmono; [| exact IH].
      cbn beta. intros D [[HD | HD] | (j & Hj & HD)].
      * left. exact HD.
      * right. exists 0. split; [lia |]. destruct e0; cbn in HD; [| contradiction].
        rewrite HD. reflexivity.
      * right. exists (S j). split; [lia | exact HD].
Qed.

Lemma way_made_monotone (root : string) : monotone (way_made root).
Proof.
  intros created created' e Hsub H D HD. destruct (H D HD); [left | right]; auto.
Qed.

Lemma holder_made_monotone : monotone holder_made.
Proof.
  intros created created' [path | path] Hsub H; [exact I |].
  destruct H as (dir & name & Hpath & Hname & Hdir). exists dir, name. auto.
Qed.

Lemma processing_order_app (t1 t2 : list event) :
  processing_order (t1 ++ t2) = (processing_order t1 ++ processing_order t2)%list.
Proof. apply flat_map_app. Qed.

(** ** Parent before child, from local to Android *)

Lemma loop_monitored {A S : Type} (requirement : (string -> Prop) -> entry -> Prop)
    (ready : (string -> Prop) -> Prop) (body : A -> S -> S * list event)
    (items : list A) :
  monotone requirement ->
  (forall created created' : string -> Prop,
      (forall D, created D -> created' D) -> ready created -> ready created') ->
  Forall (fun item => forall v created,
              ready created ->
              monitored requirement created (processing_order (snd (body item v))))
         items ->
  forall v created,
    ready created ->
    monitored requirement created (processing_order (snd (for_of body items v))).
Proof.
  intros Hmono Hready.
  induction 1 as [| item rest Hitem _ IH]; intros v created Hcreated.
  - exact I.
  - rewrite for_of_cons. cbn [snd]. rewrite processing_order_app.
    apply monitored_app; [exact Hmono | apply Hitem, Hcreated |].
    apply IH. eapply Hready; [| exact Hcreated]. cbn beta. auto.
Qed.

Lemma processItem_way_made (root : string) (host : node_path) (renderer : ipc)
    (deviceId : string) (item : dirent) :
  well_named item = true ->
  forall localDir androidDir v created,
    way_covered root created (androidDir ++ "/") ->
    monitored (way_made root) created
      (processing_order
         (snd (processItem host renderer deviceId localDir androidDir item v))).
Proof.
  induction item as [name | name scandir_error entries IH] using dirent_induction;
    intros Hnamed localDir androidDir v created Hcovered.
  - cbn [well_named] in Hnamed. rewrite processItem_File.
    assert (Hfile : way_made root created (CopyFile (androidDir ++ "/" ++ name))).
    { intros D HD. cbn [entry_path] in HD.
      change (androidDir ++ "/" ++ name) with (androidDir ++ ("/" ++ name)) in HD.
      rewrite <- append_assoc in HD.
      apply Hcovered. exact (ancestor_of_child D _ name Hnamed HD). }
    destruct (invoke_push_file _ _ _ _); cbn; split; [exact Hfile | exact I
                                                      | exact Hfile | exact I].
  - cbn [well_named] in Hnamed. apply andb_prop in Hnamed.
    destruct Hnamed as [Hname Hentries].
    assert (Hdir : way_made root created (MakeDirectory (androidDir ++ "/" ++ name))).
    { intros D HD. cbn [entry_path] in HD.
      change (androidDir ++ "/" ++ name) with (androidDir ++ ("/" ++ name)) in HD.
      rewrite <- append_assoc in HD.
      apply Hcovered. exact (ancestor_of_child D _ name Hname HD). }
    rewrite processItem_Directory.
    destruct (invoke_create_directory _ _ _); [| cbn; split; [exact Hdir | exact I]].
    destruct scandir_error as [message |].
    + rewrite processDirectory_unreadable. cbn. split; [exact Hdir | exact I].
    + rewrite processDirectory_readable. cbn [snd].
      change (processing_order (Invoke (CreateDirectory deviceId
                 (androidDir ++ "/" ++ name)) :: ?t))
        with (MakeDirectory (androidDir ++ "/" ++ name) :: processing_order t).
      cbn [monitored]. split; [exact Hdir |].
      apply (loop_monitored (way_made root)
               (fun created => way_covered root created
                                 ((androidDir ++ "/" ++ name) ++ "/"))).
      * apply way_made_monotone.
      * intros c c' Hsub. apply way_covered_mono, Hsub.
      * rewrite forallb_forall in Hentries. rewrite Forall_forall in IH.
        apply Forall_forall. intros item Hin v0 created0 Hready.
        apply IH; [exact Hin | apply Hentries, Hin | exact Hready].
      * cbn [creates].
        pose proof (child_way_covered root created (androidDir ++ "/") name Hname
                      Hcovered) as [Hchild _].
        rewrite append_assoc in Hchild. exact Hchild.
Qed.

Lemma processItem_holder_made (host : node_path) (renderer : ipc)
    (deviceId : string) (item : dirent) :
  well_named item = true ->
  forall localDir androidDir v (created : string -> Prop),
    created androidDir ->
    monitored holder_made created
      (processing_order
         (snd (processItem host renderer deviceId localDir androidDir item v))).
Proof.
  induction item as [name | name scandir_error entries IH] using dirent_induction;
    intros Hnamed localDir androidDir v created Hcreated.
  - cbn [well_named] in Hnamed. rewrite processItem_File.
    assert (Hfile : holder_made created (CopyFile (androidDir ++ "/" ++ name))).
    { exists androidDir, name. split; [reflexivity | split; [exact Hnamed | exact Hcreated]]. }
    destruct (invoke_push_file _ _ _ _); cbn; split; [exact Hfile | exact I
                                                      | exact Hfile | exact I].
  - cbn [well_named] in Hnamed. apply andb_prop in Hnamed.
    destruct Hnamed as [_ Hentries].
    rewrite processItem_Directory.
    destruct (invoke_create_directory _ _ _); [| cbn; split; exact I].
    destruct scandir_error as [message |].
    + rewrite processDirectory_unreadable. cbn. split; exact I.
    + rewrite processDirectory_readable. cbn [snd].
      change (processing_order (Invoke (CreateDirectory deviceId
                 (androidDir ++ "/" ++ name)) :: ?t))
        with (MakeDirectory (androidDir ++ "/" ++ name) :: processing_order t).
      cbn [monitored]. split; [exact I |].
      apply (loop_monitored holder_made
               (fun created : string -> Prop => created (androidDir ++ "/" ++ name))).
      * apply holder_made_monotone.
      * intros c c' Hsub. apply Hsub.
      * rewrite forallb_forall in Hentries. rewrite Forall_forall in IH.
        apply Forall_forall. intros item Hin v0 created0 Hready.
        apply IH; [exact Hin | apply Hentries, Hin | exact Hready].
      * right. reflexivity.
Qed.

(** The processing order of a transfer from local to Android: nothing
    when the count fails, and otherwise the creation of the base folder
    followed by the pass over the tree. *)
Lemma transferLocalFolderToAndroid_order (host : node_path) (renderer : ipc)
    (deviceId localFolderPath androidFolderPath : string)
    (scandir_error : option string) (entries : list dirent) :
  processing_order
    (snd (transferLocalFolderToAndroid host renderer deviceId localFolderPath
            androidFolderPath scandir_error entries))
  = match countFiles scandir_error entries with
    | Rejected _ => []
    | Resolved total =>
        MakeDirectory androidFolderPath
        :: match invoke_create_directory renderer deviceId androidFolderPath with
           | Rejected _ => []
           | Resolved _ =>
               processing_order
                 (snd (processDirectory host renderer deviceId localFolderPath
                         androidFolderPath scandir_error entries (initial total)))
           end
    end.
Proof.
  unfold transferLocalFolderToAndroid.
  destruct (countFiles scandir_error entries) as [total | message]; [| reflexivity].
  destruct (invoke_create_directory _ _ _); [| reflexivity].
  destruct (processDirectory _ _ _ _ _ _ _ _) as [[outcome v] t]. reflexivity.
Qed.

Lemma local_to_android_monitored (requirement : (string -> Prop) -> entry -> Prop)
    (ready : (string -> Prop) -> Prop)
    (host : node_path) (renderer : ipc)
    (deviceId localFolderPath androidFolderPath : string)
    (scandir_error : option string) (entries : list dirent) :
  monotone requirement ->
  (forall created created' : string -> Prop,
      (forall D, created D -> created' D) -> ready created -> ready created') ->
  requirement (fun _ => False) (MakeDirectory androidFolderPath) ->
  ready (fun D => False \/ D = androidFolderPath) ->
  Forall (fun item => forall v created,
              ready created ->
              monitored requirement created
                (processing_order
                   (snd (processItem host renderer deviceId localFolderPath
                           androidFolderPath item v))))
         entries ->
  monitored requirement (fun _ => False)
    (processing_order
       (snd (transferLocalFolderToAndroid host renderer deviceId localFolderPath
               androidFolderPath scandir_error entries))).
Proof.
  intros Hmono Hready Hbase Hstart Hitems.
  rewrite transferLocalFolderToAndroid_order.
  destruct (countFiles scandir_error entries) as [total | message]; [| exact I].
  cbn [monitored]. split; [exact Hbase |].
  destruct (invoke_create_directory _ _ _); [| exact I].
  destruct scandir_error as [message |].
  - rewrite processDirectory_unreadable. exact I.
  - rewrite processDirectory_readable. cbn [snd creates].
    apply (loop_monitored requirement ready); assumption.
Qed.

Lemma local_to_android_parent_before_child (host : node_path) (renderer : ipc)
    (deviceId localFolderPath androidFolderPath : string)
    (scandir_error : option string) (entries : list dirent) :
  forallb well_named entries = true ->
  parent_before_child androidFolderPath
    (processing_order
       (snd (transferLocalFolderToAndroid host renderer deviceId localFolderPath
               androidFolderPath scandir_error entries))).
Proof.
  intros Hnamed i e D Hi HD.
  assert (H : monitored (way_made androidFolderPath) (fun _ => False)
                (processing_order
                   (snd (transferLocalFolderToAndroid host renderer deviceId
                           localFolderPath androidFolderPath scandir_error entries)))).
  { apply (local_to_android_monitored (way_made androidFolderPath)
             (fun created => way_covered androidFolderPath created
                               (androidFolderPath ++ "/"))).
    - apply way_made_monotone.
    - intros c c' Hsub. apply way_covered_mono, Hsub.
    - intros D' HD'. left. apply ancestor_above, HD'.
    - apply root_way_covered.
    - rewrite forallb_forall in Hnamed. apply Forall_forall.
      intros item Hin v created Hready.
      apply processItem_way_made; [apply Hnamed, Hin | exact Hready]. }
  pose proof (monitored_index _ (way_made_monotone androidFolderPath) _ _ i e H Hi D HD)
    as [Habove | [[] | Hj]].
  - left. exact Habove.
  - right. exact Hj.
Qed.

Lemma local_to_android_holder_before_file (host : node_path) (renderer : ipc)
    (deviceId localFolderPath androidFolderPath : string)
    (scandir_error : option string) (entries : list dirent) :
  forallb well_named entries = true ->
  holder_before_file
    (processing_order
       (snd (transferLocalFolderToAndroid host renderer deviceId localFolderPath
               androidFolderPath scandir_error entries))).
Proof.
  intros Hnamed i path Hi.
  assert (H : monitored holder_made (fun _ => False)
                (processing_order
                   (snd (transferLocalFolderToAndroid host renderer deviceId
                           localFolderPath androidFolderPath scandir_error entries)))).
  { apply (local_to_android_monitored holder_made
             (fun created : string -> Prop => created androidFolderPath)).
    - apply holder_made_monotone.
    - intros c c' Hsub. apply Hsub.
    - exact I.
    - right. reflexivity.
    - rewrite forallb_forall in Hnamed. apply Forall_forall.
      intros item Hin v created Hready.
      apply processItem_holder_made; [apply Hnamed, Hin | exact Hready]. }
  pose proof (monitored_index _ holder_made_monotone _ _ i _ H Hi)
    as (dir & name & Hpath & Hname & [[] | (j & Hj & Hdir)]).
  exists dir, name, j. auto.
Qed.

(** ** Parent before child, in the plan of a transfer from Android *)

Lemma dir_order_app (dirs1 dirs2 : list android_directory) :
  dir_order (dirs1 ++ dirs2) = (dir_order dirs1 ++ dir_order dirs2)%list.
Proof. apply map_app. Qed.

Lemma made_by_app (order1 order2 : list entry) (D : string) :
  made_by (order1 ++ order2) D <-> made_by order1 D \/ made_by order2 D.
Proof. apply in_app_iff. Qed.

Lemma loop_extends_plan (root deviceId : string) (children : list remote_entry) :
  Forall (fun item =>
            forall path results results' created,
              fst (listItem deviceId path item results) = Resolved results' ->
              way_covered root created (slashed path) ->
              extends_plan root created results results')
         children ->
  forall path results results' created,
    fst (for_of_throwing (listItem deviceId path) children results) = Resolved results' ->
    way_covered root created (slashed path) ->
    extends_plan root created results results'.
Proof.
  induction 1 as [| item rest Hitem _ IH]; intros path results results' created Hloop Hway.
  - cbn in Hloop. injection Hloop as <-.
    exists [], []. repeat split; try (symmetry; apply app_nil_r); constructor.
  - rewrite for_of_throwing_cons in Hloop.
    specialize (Hitem path results).
    destruct (listItem deviceId path item results) as [[results1 | message] t1];
      cbn [fst] in *; [| discriminate].
    destruct (Hitem results1 created eq_refl Hway) as (nd1 & nf1 & Hd1 & Hf1 & Ho1 & Hw1).
    assert (Hway1 : way_covered root (fun D => created D \/ made_by (dir_order nd1) D)
                      (slashed path)).
    { eapply way_covered_mono; [| exact Hway]. cbn beta. auto. }
    destruct (IH path results1 results' _ Hloop Hway1)
      as (nd2 & nf2 & Hd2 & Hf2 & Ho2 & Hw2).
    exists (nd1 ++ nd2)%list, (nf1 ++ nf2)%list.
    split; [rewrite Hd2, Hd1; symmetry; apply app_assoc |].
    split; [rewrite Hf2, Hf1; symmetry; apply app_assoc |].
    split.
    + rewrite dir_order_app.
      apply monitored_app; [apply way_made_monotone | exact Ho1 | exact Ho2].
    + apply Forall_app. split.
      * eapply Forall_impl; [| exact Hw1]. cbn beta. intros f Hf.
        eapply way_made_monotone; [| exact Hf]. cbn beta.
        intros D [HD | HD]; [left; exact HD | right].
        rewrite dir_order_app. apply made_by_app. left. exact HD.
      * eapply Forall_impl; [| exact Hw2]. cbn beta. intros f Hf.
        eapply way_made_monotone; [| exact Hf]. cbn beta.
        intros D [[HD | HD] | HD]; [left; exact HD | right | right];
          rewrite dir_order_app; apply made_by_app; [left | right]; exact HD.
Qed.

Lemma listItem_extends_plan (root deviceId : string) (item : remote_entry) :
  remote_well_named item = true ->
  forall path results results' created,
    fst (listItem deviceId path item results) = Resolved results' ->
    way_covered root created (slashed path) ->
    extends_plan root created results results'.
Proof.
  induction item as [name mode size listing_error children IH]
    using remote_entry_induction.
  intros Hnamed path results results' created Hitem Hway.
  cbn [remote_well_named] in Hnamed. apply andb_prop in Hnamed.
  destruct Hnamed as [Hname Hchildren].
  rewrite listItem_unfold in Hitem. cbn zeta in Hitem.
  assert (Hentry : forall e, entry_path e = itemPath_of path name ->
                             way_made root created e).
  { intros e He D HD. rewrite He, itemPath_of_slashed in HD.
    apply Hway. exact (ancestor_of_child D _ name Hname HD). }
  destruct (isDir mode).
  - unfold listAndroidFilesRecursively, run_listing in Hitem.
    destruct listing_error as [message |]; [discriminate |].
    destruct (for_of_throwing (listItem deviceId (itemPath_of path name)) children
                empty_results) as [[subResults | message] t] eqn:Hsub;
      cbn [fst] in Hitem; [| discriminate].
    injection Hitem as <-.
    assert (IH' : Forall (fun item =>
              forall path results results' created,
                fst (listItem deviceId path item results) = Resolved results' ->
                way_covered root created (slashed path) ->
                extends_plan root created results results') children).
    { rewrite forallb_forall in Hchildren. rewrite Forall_forall in IH.
      apply Forall_forall. intros item Hin. apply IH; [exact Hin |].
      apply Hchildren, Hin. }
    assert (Hway' : way_covered root
                      (fun D => created D \/ D = itemPath_of path name)
                      (slashed (itemPath_of path name))).
    { rewrite itemPath_of_slashed.
      apply (child_way_covered root created (slashed path) name Hname Hway). }
    destruct (loop_extends_plan root deviceId children IH'
                (itemPath_of path name) empty_results subResults _
                (f_equal fst Hsub) Hway')
      as (nd & nf & Hd & Hf & Ho & Hw).
    cbn [empty_results directories files List.app] in Hd, Hf.
    exists ({| dir_path := itemPath_of path name; dir_name := name |} :: nd), nf.
    cbn [push_all push_directory directories files].
    split; [rewrite Hd, <- app_assoc; reflexivity |].
    split; [rewrite Hf; reflexivity |].
    split.
    + cbn [dir_order map dir_path monitored creates].
      split; [apply Hentry; reflexivity | exact Ho].
    + eapply Forall_impl; [| exact Hw]. cbn beta. intros f Hfile.
      eapply way_made_monotone; [| exact Hfile]. cbn beta.
      intros D [[HD | HD] | HD]; [left; exact HD | right | right].
      * left. rewrite HD. reflexivity.
      * right. exact HD.
  - cbn [fst] in Hitem. injection Hitem as <-.
    exists [], [{| file_path := itemPath_of path name; file_name := name;
                   file_size := size |}].
    cbn [push_file directories files].
    split; [symmetry; apply app_nil_r |].
    split; [reflexivity |].
    split; [exact I |].
    constructor; [| constructor].
    eapply way_made_monotone; [| apply Hentry; reflexivity]. cbn beta. auto.
Qed.

Lemma files_monitored (root : string) (fileList : list android_file) :
  forall created : string -> Prop,
    Forall (fun f => way_made root created (CopyFile (file_path f))) fileList ->
    monitored (way_made root) created (file_order fileList).
Proof.
  induction fileList as [| f rest IH]; intros created H.
  - exact I.
  - inversion H as [| f' rest' Hf Hrest]; subst.
    cbn [file_order map monitored]. split; [exact Hf |].
    apply IH. eapply Forall_impl; [| exact Hrest]. cbn beta. intros f0 Hf0.
    eapply way_made_monotone; [| exact Hf0]. cbn beta. auto.
Qed.

Lemma android_plan_parent_before_child (deviceId androidFolderPath : string)
    (listing_error : option string) (children : list remote_entry)
    (fileList : file_list) :
  forallb remote_well_named children = true ->
  fst (listAndroidFilesRecursively deviceId androidFolderPath listing_error children)
  = Resolved fileList ->
  parent_before_child androidFolderPath (plan_order fileList).
Proof.
  intros Hnamed Hscan i e D Hi HD.
  unfold listAndroidFilesRecursively, run_listing in Hscan.
  destruct listing_error as [message |]; [discriminate |].
  destruct (for_of_throwing (listItem deviceId androidFolderPath) children
              empty_results) as [outcome t] eqn:Hloop.
  cbn [fst] in Hscan. subst outcome.
  assert (Hitems : Forall (fun item =>
            forall path results results' created,
              fst (listItem deviceId path item results) = Resolved results' ->
              way_covered androidFolderPath created (slashed path) ->
              extends_plan androidFolderPath created results results') children).
  { rewrite forallb_forall in Hnamed. apply Forall_forall. intros item Hin.
    apply listItem_extends_plan, Hnamed, Hin. }
  destruct (loop_extends_plan androidFolderPath deviceId children Hitems
              androidFolderPath empty_results fileList (fun _ => False)
              (f_equal fst Hloop)
              (proj2 (root_way_covered androidFolderPath (fun _ => False))))
    as (nd & nf & Hd & Hf & Ho & Hw).
  cbn [empty_results directories files List.app] in Hd, Hf.
  assert (H : monitored (way_made androidFolderPath) (fun _ => False)
                (plan_order fileList)).
  { unfold plan_order. rewrite Hd, Hf.
    apply monitored_app; [apply way_made_monotone | exact Ho |].
    apply files_monitored. exact Hw. }
  pose proof (monitored_index _ (way_made_monotone androidFolderPath) _ _ i e H Hi D HD)
    as [Habove | [[] | Hj]].
  - left. exact Habove.
  - right. exact Hj.
Qed.

(** ** Directories and files *)

Lemma directories_first_split (before after : list event) :
  Forall (fun e => copies_file e = false) before ->
  Forall (fun e => makes_directory e = false) after ->
  directories_first (before ++ after).
Proof.
  intros Hbefore Hafter i j made copied Hi Hmade Hj Hcopied.
  rewrite Forall_forall in Hbefore, Hafter.
  destruct (Nat.lt_ge_cases j (List.length before)) as [Hlt | Hge].
  - rewrite nth_error_app1 in Hj by exact Hlt.
    apply nth_error_In, Hbefore in Hj. congruence.
  - destruct (Nat.lt_ge_cases i (List.length before)) as [Hlt' | Hge']; [lia |].
    rewrite nth_error_app2 in Hi by exact Hge'.
    apply nth_error_In, Hafter in Hi. congruence.
Qed.

Lemma ensure_directory_no_copy (disk : local_disk) (p : string) (made : list string) :
  Forall (fun e => copies_file e = false) (snd (ensure_directory disk p made)).
Proof.
  unfold ensure_directory.
  destruct (exists_before disk p || mem p made); [constructor |].
  destruct (mkdir disk p); repeat constructor.
Qed.

Lemma listing_event_no_copy (e : event) : listing_event e -> copies_file e = false.
Proof. intros []; reflexivity. Qed.

Lemma pull_one_no_mkdir (host : node_path) (renderer : ipc) (deviceId : string)
    (androidFolderPath localFolderPath : string) (file : android_file) (v : counters) :
  Forall (fun e => makes_directory e = false)
         (snd (pull_one host renderer deviceId androidFolderPath localFolderPath file v)).
Proof.
  unfold pull_one. destruct (invoke_pull_file _ _ _ _); repeat constructor.
Qed.

Lemma android_to_local_directories_first (host : node_path) (renderer : ipc)
    (disk : local_disk) (deviceId androidFolderPath localFolderPath : string)
    (listing_error : option string) (children : list remote_entry) :
  directories_first
    (snd (transferAndroidFolderToLocal host renderer disk deviceId androidFolderPath
            localFolderPath listing_error children)).
Proof.
  unfold transferAndroidFolderToLocal.
  pose proof (ensure_directory_no_copy disk localFolderPath []) as H0.
  destruct (ensure_directory disk localFolderPath []) as [[made | message] t0];
    cbn [snd] in *.
  2:{ rewrite <- (app_nil_r (t0 ++ _)).
      apply directories_first_split; [| constructor].
      apply Forall_app; split; [exact H0 | repeat constructor]. }
  pose proof (listAndroidFilesRecursively_events deviceId androidFolderPath
                listing_error children) as H1.
  apply (Forall_impl _ listing_event_no_copy) in H1.
  destruct (listAndroidFilesRecursively _ _ _ _) as [[fileList | message] t1];
    cbn [snd] in *.
  2:{ rewrite <- (app_nil_r (t0 ++ _)).
      apply directories_first_split; [| constructor].
      apply Forall_app; split; [exact H0 |]. constructor; [reflexivity |].
      apply Forall_app; split; [exact H1 | repeat constructor]. }
  assert (Hscanned : Forall (fun e => copies_file e = false)
            (t0 ++ SetStatus ScanningAndroid :: t1
                ++ [SetStatus (PreparingFrom (List.length (files fileList)) "Android")])%list).
  { apply Forall_app; split; [exact H0 |]. constructor; [reflexivity |].
    apply Forall_app; split; [exact H1 | repeat constructor]. }
  assert (H2 : Forall (fun e => copies_file e = false)
                 (snd (create_directories host disk androidFolderPath localFolderPath
                         (directories fileList) made))).
  { unfold create_directories. apply for_of_throwing_Forall.
    apply Forall_forall. intros dir _ acc. apply ensure_directory_no_copy. }
  destruct (create_directories _ _ _ _ _ _) as [[made' | message] t2]; cbn [snd] in *.
  2:{ rewrite <- (app_nil_r (_ ++ _)).
      apply directories_first_split; [| constructor].
      apply Forall_app; split; [exact Hscanned |].
      apply Forall_app; split; [exact H2 | repeat constructor]. }
  assert (H3 : Forall (fun e => makes_directory e = false)
                 (snd (for_of (pull_one host renderer deviceId androidFolderPath
                                        localFolderPath)
                              (files fileList)
                              (initial (List.length (files fileList)))))).
  { apply for_of_Forall. apply Forall_forall. intros file _ v.
    apply pull_one_no_mkdir. }
  destruct (for_of _ (files fileList) _) as [v t3]. cbn [snd] in *.
  rewrite app_assoc.
  apply directories_first_split; [| exact H3].
  apply Forall_app; split; assumption.
Qed.

(** C3 as stated fails from local to Android: the folder is walked once,
    and the file [a.mp3] of the base folder is pushed (third call) before
    the subfolder [live] is created (fifth call). *)
Lemma file_pushed_before_later_directory :
  snd (transferLocalFolderToAndroid posix (main_process healthy) "emulator-5554"
         "/home/u/Music" "/sdcard/Music" None music_folder)
  = [SetStatus (PreparingFrom 2 "Music");
     Invoke (CreateDirectory "emulator-5554" "/sdcard/Music");
     Invoke (PushFile "emulator-5554" "/home/u/Music/a.mp3" "/sdcard/Music/a.mp3");
     SetStatus (Transferring 1 2 "a.mp3");
     Invoke (CreateDirectory "emulator-5554" "/sdcard/Music/live");
     Invoke (PushFile "emulator-5554" "/home/u/Music/live/b.mp3"
               "/sdcard/Music/live/b.mp3");
     SetStatus (Transferring 2 2 "b.mp3")]
  /\ ~ directories_first
         (snd (transferLocalFolderToAndroid posix (main_process healthy) "emulator-5554"
                 "/home/u/Music" "/sdcard/Music" None music_folder)).
Proof.
  split; [reflexivity |].
  intros H.
  specialize (H 4 2 _ _ eq_refl eq_refl eq_refl eq_refl). lia.
Qed.

(** C3, amended. From Android to local the plan is executed in two passes:
    in every run, each call that makes a local directory comes before each
    call that pulls a file. From local to Android there is one pass over
    the tree, in which directories are created and files pushed as they
    are met; still, the names of a tree having no slash, every file is
    pushed only after the [create-directory] call for the directory that
    holds it, the one whose path is what stands before the last slash of
    the path of the file, was made in the same run. *)
Theorem directories_before_dependent_files
    (host : node_path) (renderer : ipc) (disk : local_disk)
    (deviceId localFolderPath androidFolderPath : string)
    (scandir_error : option string) (entries : list dirent)
    (listing_error : option string) (children : list remote_entry) :
  directories_first
    (snd (transferAndroidFolderToLocal host renderer disk deviceId androidFolderPath
            localFolderPath listing_error children))
  /\ (forallb well_named entries = true ->
      holder_before_file
        (processing_order
           (snd (transferLocalFolderToAndroid host renderer deviceId localFolderPath
                   androidFolderPath scandir_error entries)))).
Proof.
  split.
  - apply android_to_local_directories_first.
  - apply local_to_android_holder_before_file.
Qed.

(** In the processing order of the transfer of [music_folder] the file
    [b.mp3] stands at position 3, and the directory [live] that holds it
    is made at an earlier position. *)
Lemma directories_before_dependent_files_witness :
  forallb well_named music_folder = true
  /\ exists dir name j,
       "/sdcard/Music/live/b.mp3" = dir ++ "/" ++ name
       /\ slash_free name = true
       /\ j < 3
       /\ nth_error
            (processing_order
               (snd (transferLocalFolderToAndroid posix (main_process healthy)
                       "emulator-5554" "/home/u/Music" "/sdcard/Music" None
                       music_folder))) j
          = Some (MakeDirectory dir).
Proof.
  split; [reflexivity |].
  apply (proj2 (directories_before_dependent_files posix (main_process healthy)
                  empty_disk "emulator-5554" "/home/u/Music" "/sdcard/Music"
                  None music_folder None []) eq_refl 3 "/sdcard/Music/live/b.mp3").
  reflexivity.
Defined.

(** ** Parent before child *)

(** The processing orders of a tree three levels deep. *)
Lemma deep_folder_orders :
  processing_order
    (snd (transferLocalFolderToAndroid posix (main_process healthy) "emulator-5554"
            "/home/u/root" "/sdcard/root" None deep_folder))
  = [MakeDirectory "/sdcard/root";
     MakeDirectory "/sdcard/root/a";
     MakeDirectory "/sdcard/root/a/b";
     CopyFile "/sdcard/root/a/b/c.txt"]
  /\ option_map plan_order
       (match fst (listAndroidFilesRecursively "emulator-5554" "/sdcard/root" None
                     deep_remote_folder) with
        | Resolved fileList => Some fileList
        | Rejected _ => None
        end)
     = Some [MakeDirectory "/sdcard/root/a";
             MakeDirectory "/sdcard/root/a/b";
             CopyFile "/sdcard/root/a/b/c.txt"].
Proof. split; reflexivity. Qed.

(** C4. In the processing order of a folder transfer, every directory on
    the way to an entry (a file or a subdirectory), from the root of the
    transfer down to the directory that holds it, has its creation entry
    strictly earlier. This holds for the pass of [processDirectory] from
    local to Android and for the plan of [listAndroidFilesRecursively]
    (all directories, then all files) from Android to local, on every
    source tree whose names have no slash. *)
Theorem parent_before_child_holds
    (host : node_path) (renderer : ipc)
    (deviceId localFolderPath androidFolderPath : string)
    (scandir_error : option string) (entries : list dirent)
    (listing_error : option string) (children : list remote_entry)
    (fileList : file_list) :
  forallb well_named entries = true ->
  forallb remote_well_named children = true ->
  fst (listAndroidFilesRecursively deviceId androidFolderPath listing_error children)
  = Resolved fileList ->
  parent_before_child androidFolderPath
    (processing_order
       (snd (transferLocalFolderToAndroid host renderer deviceId localFolderPath
               androidFolderPath scandir_error entries)))
  /\ parent_before_child androidFolderPath (plan_order fileList).
Proof.
  intros Hlocal Hremote Hscan. split.
  - apply local_to_android_parent_before_child, Hlocal.
  - eapply android_plan_parent_before_child; eassumption.
Qed.

Lemma parent_before_child_holds_witness :
  parent_before_child "/sdcard/root"
    (processing_order
       (snd (transferLocalFolderToAndroid posix (main_process healthy) "emulator-5554"
               "/home/u/root" "/sdcard/root" None deep_folder)))
  /\ parent_before_child "/sdcard/root"
       (plan_order
          {| files := [{| file_path := "/sdcard/root/a/b/c.txt";
                          file_name := "c.txt"; file_size := 3 |}];
             directories := [{| dir_path := "/sdcard/root/a"; dir_name := "a" |};
                             {| dir_path := "/sdcard/root/a/b"; dir_name := "b" |}] |}).
Proof.
  apply (parent_before_child_holds posix (main_process healthy) "emulator-5554"
           "/home/u/root" "/sdcard/root" None deep_folder None deep_remote_folder);
    reflexivity.
Defined.

(** * Further properties *)

(** ** Counting and pushing a local tree *)

Lemma forEach_counted (entries : list dirent) :
  Forall (fun item => forall total,
            countFiles_item item total = counted (unreadable item) total (files_in item))
         entries ->
  forall total,
    forEach countFiles_item entries total
    = counted (flat_map unreadable entries) total (list_sum (map files_in entries)).
Proof.
  induction 1 as [| item rest Hitem _ IH]; intros total.
  - cbn. f_equal. lia.
  - rewrite forEach_cons, Hitem. cbn [flat_map map list_sum fold_right].
    destruct (unreadable item) as [| message messages]; cbn [counted List.app].
    + rewrite IH. destruct (flat_map unreadable rest); cbn [counted]; [| reflexivity].
      f_equal. unfold list_sum. lia.
    + reflexivity.
Qed.

Lemma countFiles_item_counted (item : dirent) :
  forall total,
    countFiles_item item total = counted (unreadable item) total (files_in item).
Proof.
  induction item as [name | name scandir_error entries IH] using dirent_induction;
    intros total.
  - cbn. f_equal. lia.
  - destruct scandir_error as [message |]; [reflexivity |].
    rewrite countFiles_item_Directory. cbn [unreadable files_in].
    apply forEach_counted, IH.
Qed.

Lemma countFiles_counts_files_aux (scandir_error : option string)
    (entries : list dirent) :
  countFiles scandir_error entries
  = match unreadable (Directory EmptyString scandir_error entries) with
    | [] => Resolved (list_sum (map files_in entries))
    | message :: _ => Rejected message
    end.
Proof.
  unfold countFiles. rewrite countFiles_item_counted. reflexivity.
Qed.

(** X1. [countFiles] returns the number of entries below the folder that
    are not directories when every directory below it can be read, and
    otherwise throws the error of the first directory, in depth-first
    order, that cannot. *)
Theorem countFiles_counts_files (scandir_error : option string) (entries : list dirent) :
  countFiles scandir_error entries
  = match unreadable (Directory EmptyString scandir_error entries) with
    | [] => Resolved (list_sum (map files_in entries))
    | message :: _ => Rejected message
    end.
Proof. unfold countFiles. rewrite countFiles_item_counted. reflexivity. Qed.

Lemma pushes_app (t1 t2 : list event) :
  pushes (t1 ++ t2) = (pushes t1 ++ pushes t2)%list.
Proof. apply flat_map_app. Qed.

Lemma flat_map_unreadable_nil (item : dirent) (rest : list dirent) :
  flat_map unreadable (item :: rest) = [] ->
  unreadable item = [] /\ flat_map unreadable rest = [].
Proof. cbn [flat_map]. apply app_eq_nil. Qed.

Lemma loop_pushes (host : node_path) (c : Main.client) (deviceId : string)
    (entries : list dirent) :
  Forall (fun item => forall localDir androidDir v,
            unreadable item = [] ->
            pushes (snd (processItem host (main_process c) deviceId localDir androidDir
                           item v))
            = files_below host localDir androidDir item)
         entries ->
  forall localDir androidDir v,
    flat_map unreadable entries = [] ->
    pushes (snd (for_of (processItem host (main_process c) deviceId localDir androidDir)
                        entries v))
    = flat_map (files_below host localDir androidDir) entries.
Proof.
  induction 1 as [| item rest Hitem _ IH]; intros localDir androidDir v Hread.
  - reflexivity.
  - apply flat_map_unreadable_nil in Hread. destruct Hread as [Hfirst Hrest].
    rewrite for_of_cons. cbn [snd flat_map].
    rewrite pushes_app, Hitem, IH by assumption. reflexivity.
Qed.

Lemma processItem_pushes (host : node_path) (c : Main.client) (deviceId : string)
    (item : dirent) :
  forall localDir androidDir v,
    unreadable item = [] ->
    pushes (snd (processItem host (main_process c) deviceId localDir androidDir item v))
    = files_below host localDir androidDir item.
Proof.
  induction item as [name | name scandir_error entries IH] using dirent_induction;
    intros localDir androidDir v Hread.
  - rewrite processItem_File. destruct (invoke_push_file _ _ _ _); reflexivity.
  - destruct scandir_error as [message |]; [discriminate |].
    rewrite processItem_Directory.
    cbn [main_process invoke_create_directory]. unfold Main.create_directory.
    destruct (try_await_resolves
                (Main.shell c deviceId (Main.mkdir_command (androidDir ++ "/" ++ name))))
      as [r ->].
    rewrite processDirectory_readable. cbn [snd].
    change (pushes (Invoke (CreateDirectory deviceId (androidDir ++ "/" ++ name)) :: ?t))
      with (pushes t).
    apply (loop_pushes host c deviceId entries IH). exact Hread.
Qed.

Lemma files_below_length (host : node_path) (item : dirent) :
  forall localDir androidDir,
    List.length (files_below host localDir androidDir item) = files_in item.
Proof.
  induction item as [name | name scandir_error entries IH] using dirent_induction;
    intros localDir androidDir.
  - reflexivity.
  - cbn [files_below files_in].
    generalize (join host localDir name), (androidDir ++ "/" ++ name).
    intros l a. induction IH as [| item rest Hitem _ IHrest]; [reflexivity |].
    cbn [flat_map map list_sum fold_right]. rewrite length_app, Hitem.
    unfold list_sum in IHrest. rewrite IHrest. reflexivity.
Qed.

(** X2. Through the handlers of the main process, a local folder whose
    directories can all be read has each of its files pushed exactly
    once, in depth-first order, from [path.join(localDir, name)] to
    [androidDir + '/' + name]; the number of pushes is the number of files
    that [countFiles] reported. *)
Theorem every_counted_file_is_pushed_once
    (host : node_path) (c : Main.client)
    (deviceId localFolderPath androidFolderPath : string)
    (scandir_error : option string) (entries : list dirent) :
  unreadable (Directory EmptyString scandir_error entries) = [] ->
  pushes (snd (transferLocalFolderToAndroid host (main_process c) deviceId
                 localFolderPath androidFolderPath scandir_error entries))
  = flat_map (files_below host localFolderPath androidFolderPath) entries
  /\ countFiles scandir_error entries
     = Resolved (List.length
                   (pushes (snd (transferLocalFolderToAndroid host (main_process c)
                                   deviceId localFolderPath androidFolderPath
                                   scandir_error entries)))).
Proof.
  intros Hread.
  assert (Hpushes :
    pushes (snd (transferLocalFolderToAndroid host (main_process c) deviceId
                   localFolderPath androidFolderPath scandir_error entries))
    = flat_map (files_below host localFolderPath androidFolderPath) entries).
  { unfold transferLocalFolderToAndroid.
    rewrite countFiles_counts_files_aux, Hread.
    cbn [main_process invoke_create_directory]. unfold Main.create_directory.
    destruct (try_await_resolves
                (Main.shell c deviceId (Main.mkdir_command androidFolderPath)))
      as [r ->].
    destruct scandir_error as [message |]; [discriminate |].
    rewrite processDirectory_readable. cbn [snd].
    rewrite pushes_app. cbn [pushes flat_map List.app].
    apply (loop_pushes host c deviceId entries); [| exact Hread].
    apply Forall_forall. intros item _. apply processItem_pushes. }
  split; [exact Hpushes |].
  rewrite Hpushes, countFiles_counts_files_aux, Hread. f_equal.
  clear. induction entries as [| item rest IH]; [reflexivity |].
  cbn [flat_map map list_sum fold_right]. rewrite length_app, files_below_length.
  unfold list_sum in IH. rewrite IH. reflexivity.
Qed.

Lemma every_counted_file_is_pushed_once_witness :
  pushes (snd (transferLocalFolderToAndroid posix
                 (main_process (failing_on "/home/u/Music/a.mp3")) "emulator-5554"
                 "/home/u/Music" "/sdcard/Music" None music_folder))
  = [("/home/u/Music/a.mp3", "/sdcard/Music/a.mp3");
     ("/home/u/Music/live/b.mp3", "/sdcard/Music/live/b.mp3")].
Proof.
  exact (proj1 (every_counted_file_is_pushed_once posix
                  (failing_on "/home/u/Music/a.mp3") "emulator-5554"
                  "/home/u/Music" "/sdcard/Music" None music_folder eq_refl)).
Defined.

(** ** Pulling a remote tree *)

Lemma pulls_app (t1 t2 : list event) : pulls (t1 ++ t2) = (pulls t1 ++ pulls t2)%list.
Proof. apply flat_map_app. Qed.

Lemma mkdirs_app (t1 t2 : list event) : mkdirs (t1 ++ t2) = (mkdirs t1 ++ mkdirs t2)%list.
Proof. apply flat_map_app. Qed.

Lemma listings_app (t1 t2 : list event) :
  listings (t1 ++ t2) = (listings t1 ++ listings t2)%list.
Proof. apply flat_map_app. Qed.

Lemma pulls_none (t : list event) :
  Forall (fun e => copies_file e = false) t -> pulls t = [].
Proof.
  induction 1 as [| e t He _ IH]; [reflexivity |].
  cbn [pulls flat_map]. fold (pulls t). rewrite IH.
  destruct e as [s | [] | p | p text | | b |]; try reflexivity; discriminate.
Qed.

Lemma pull_loop (host : node_path) (renderer : ipc) (deviceId : string)
    (androidFolderPath localFolderPath : string) (fileList : list android_file) :
  forall v,
    pulls (snd (for_of (pull_one host renderer deviceId androidFolderPath localFolderPath)
                       fileList v))
    = map (fun f => (file_path f,
                     targetPath host androidFolderPath localFolderPath (file_path f)))
          fileList
    /\ successCount (fst (for_of (pull_one host renderer deviceId androidFolderPath
                                     localFolderPath) fileList v))
       + errorCount (fst (for_of (pull_one host renderer deviceId androidFolderPath
                                     localFolderPath) fileList v))
       = successCount v + errorCount v + List.length fileList.
Proof.
  induction fileList as [| file rest IH]; intros v.
  - cbn. split; [reflexivity | lia].
  - rewrite for_of_cons. cbn [fst snd map List.length].
    rewrite pulls_app.
    destruct (IH (fst (pull_one host renderer deviceId androidFolderPath localFolderPath
                         file v))) as [Hpulls Hcount].
    rewrite Hpulls, Hcount. unfold pull_one.
    destruct (invoke_pull_file _ _ _ _); cbn; split; try reflexivity; lia.
Qed.

Lemma pull_loop_main_process (host : node_path) (c : Main.client) (deviceId : string)
    (androidFolderPath localFolderPath : string) (fileList : list android_file) :
  forall v,
    successCount (fst (for_of (pull_one host (main_process c) deviceId androidFolderPath
                                 localFolderPath) fileList v))
    = successCount v + List.length fileList
    /\ errorCount (fst (for_of (pull_one host (main_process c) deviceId
                                  androidFolderPath localFolderPath) fileList v))
       = errorCount v.
Proof.
  induction fileList as [| file rest IH]; intros v.
  - cbn. split; lia.
  - rewrite for_of_cons. cbn [fst List.length].
    destruct (IH (fst (pull_one host (main_process c) deviceId androidFolderPath
                         localFolderPath file v))) as [Hs He].
    rewrite Hs, He. unfold pull_one.
    cbn [main_process invoke_pull_file]. unfold Main.pull_file.
    destruct (try_await_resolves
                (and_then (Main.pull c deviceId (file_path file))
                   (fun transfer =>
                      Main.pipe c transfer
                        (targetPath host androidFolderPath localFolderPath
                           (file_path file))))) as [r ->].
    cbn. split; lia.
Qed.

(** The run of a transfer from Android to local that reaches its file
    phase, split into what comes before the files and the loop over
    them. *)
Lemma transferAndroidFolderToLocal_file_phase
    (host : node_path) (renderer : ipc) (disk : local_disk)
    (deviceId androidFolderPath localFolderPath : string)
    (listing_error : option string) (children : list remote_entry)
    (fileList : file_list) (made made' : list string) :
  fst (ensure_directory disk localFolderPath []) = Resolved made ->
  fst (listAndroidFilesRecursively deviceId androidFolderPath listing_error children)
  = Resolved fileList ->
  fst (create_directories host disk androidFolderPath localFolderPath
         (directories fileList) made) = Resolved made' ->
  exists before,
    Forall (fun e => copies_file e = false) before
    /\ transferAndroidFolderToLocal host renderer disk deviceId androidFolderPath
         localFolderPath listing_error children
       = (current_result
            (fst (for_of (pull_one host renderer deviceId androidFolderPath
                            localFolderPath)
                         (files fileList) (initial (List.length (files fileList))))),
          (before
           ++ snd (for_of (pull_one host renderer deviceId androidFolderPath
                             localFolderPath)
                          (files fileList)
                          (initial (List.length (files fileList)))))%list).
Proof.
  intros Hbase Hscan Hdirs.
  unfold transferAndroidFolderToLocal.
  pose proof (ensure_directory_no_copy disk localFolderPath []) as H0.
  destruct (ensure_directory disk localFolderPath []) as [outcome0 t0].
  cbn [fst snd] in *. subst outcome0.
  pose proof (listAndroidFilesRecursively_events deviceId androidFolderPath
                listing_error children) as H1.
  apply (Forall_impl _ listing_event_no_copy) in H1.
  destruct (listAndroidFilesRecursively _ _ _ _) as [outcome1 t1].
  cbn [fst snd] in *. subst outcome1.
  assert (H2 : Forall (fun e => copies_file e = false)
                 (snd (create_directories host disk androidFolderPath localFolderPath
                         (directories fileList) made))).
  { unfold create_directories. apply for_of_throwing_Forall.
    apply Forall_forall. intros dir _ acc. apply ensure_directory_no_copy. }
  destruct (create_directories _ _ _ _ _ _) as [outcome2 t2].
  cbn [fst snd] in *. subst outcome2.
  destruct (for_of _ (files fileList) _) as [v t3]. cbn [fst snd].
  exists ((t0 ++ SetStatus ScanningAndroid :: t1
              ++ [SetStatus (PreparingFrom (List.length (files fileList)) "Android")])
          ++ t2)%list.
  split.
  - apply Forall_app. split; [| exact H2].
    apply Forall_app. split; [exact H0 |]. constructor; [reflexivity |].
    apply Forall_app. split; [exact H1 | repeat constructor].
  - f_equal. apply app_assoc.
Qed.

(** X3. A transfer from Android to local that reaches its file phase
    pulls every file of the scan exactly once, in the order of the scan,
    from its remote path to
    [path.join(localFolderPath, file.path.substring(androidFolderPath.length))]. *)
Theorem every_scanned_file_is_pulled_once
    (host : node_path) (renderer : ipc) (disk : local_disk)
    (deviceId androidFolderPath localFolderPath : string)
    (listing_error : option string) (children : list remote_entry)
    (fileList : file_list) (made made' : list string) :
  fst (ensure_directory disk localFolderPath []) = Resolved made ->
  fst (listAndroidFilesRecursively deviceId androidFolderPath listing_error children)
  = Resolved fileList ->
  fst (create_directories host disk androidFolderPath localFolderPath
         (directories fileList) made) = Resolved made' ->
  pulls (snd (transferAndroidFolderToLocal host renderer disk deviceId androidFolderPath
                localFolderPath listing_error children))
  = map (fun f => (file_path f,
                   join host localFolderPath
                        (substring_from (String.length androidFolderPath) (file_path f))))
        (files fileList).
Proof.
  intros Hbase Hscan Hdirs.
  destruct (transferAndroidFolderToLocal_file_phase host renderer disk deviceId
              androidFolderPath localFolderPath listing_error children fileList
              made made' Hbase Hscan Hdirs) as (before & Hbefore & ->).
  cbn [snd]. rewrite pulls_app, (pulls_none before Hbefore).
  apply pull_loop.
Qed.

Lemma every_scanned_file_is_pulled_once_witness :
  pulls (snd (transferAndroidFolderToLocal posix (rejecting_on "/sdcard/DCIM/b.jpg")
                empty_disk "emulator-5554" "/sdcard/DCIM" "/home/u/DCIM" None
                two_pictures))
  = [("/sdcard/DCIM/a.jpg", "/home/u/DCIM/a.jpg");
     ("/sdcard/DCIM/b.jpg", "/home/u/DCIM/b.jpg")].
Proof.
  exact (every_scanned_file_is_pulled_once posix (rejecting_on "/sdcard/DCIM/b.jpg")
           empty_disk "emulator-5554" "/sdcard/DCIM" "/home/u/DCIM" None two_pictures
           {| files := [{| file_path := "/sdcard/DCIM/a.jpg"; file_name := "a.jpg";
                           file_size := 10 |};
                        {| file_path := "/sdcard/DCIM/b.jpg"; file_name := "b.jpg";
                           file_size := 20 |}];
              directories := [] |}
           ["/home/u/DCIM"] ["/home/u/DCIM"] eq_refl eq_refl eq_refl).
Defined.

(** X4. When a transfer from Android to local reaches its file phase,
    every file of the scan is counted once: the successes and the errors
    of the result add up to the number of files; through the handlers of
    the main process all of them are successes, whatever the bridge
    does. *)
Theorem android_to_local_counts_add_up
    (host : node_path) (renderer : ipc) (c : Main.client) (disk : local_disk)
    (deviceId androidFolderPath localFolderPath : string)
    (listing_error : option string) (children : list remote_entry)
    (fileList : file_list) (made made' : list string) :
  fst (ensure_directory disk localFolderPath []) = Resolved made ->
  fst (listAndroidFilesRecursively deviceId androidFolderPath listing_error children)
  = Resolved fileList ->
  fst (create_directories host disk androidFolderPath localFolderPath
         (directories fileList) made) = Resolved made' ->
  success (fst (transferAndroidFolderToLocal host renderer disk deviceId
                  androidFolderPath localFolderPath listing_error children))
  + errors (fst (transferAndroidFolderToLocal host renderer disk deviceId
                   androidFolderPath localFolderPath listing_error children))
  = List.length (files fileList)
  /\ fst (transferAndroidFolderToLocal host (main_process c) disk deviceId
            androidFolderPath localFolderPath listing_error children)
     = {| success := List.length (files fileList); errors := 0 |}.
Proof.
  intros Hbase Hscan Hdirs. split.
  - destruct (transferAndroidFolderToLocal_file_phase host renderer disk deviceId
                androidFolderPath localFolderPath listing_error children fileList
                made made' Hbase Hscan Hdirs) as (before & _ & ->).
    cbn [fst current_result success errors].
    destruct (pull_loop host renderer deviceId androidFolderPath localFolderPath
                (files fileList) (initial (List.length (files fileList)))) as [_ H].
    rewrite H. reflexivity.
  - destruct (transferAndroidFolderToLocal_file_phase host (main_process c) disk deviceId
                androidFolderPath localFolderPath listing_error children fileList
                made made' Hbase Hscan Hdirs) as (before & _ & ->).
    cbn [fst]. unfold current_result.
    destruct (pull_loop_main_process host c deviceId androidFolderPath localFolderPath
                (files fileList) (initial (List.length (files fileList)))) as [Hs He].
    rewrite Hs, He. reflexivity.
Qed.

Lemma android_to_local_counts_add_up_witness :
  fst (transferAndroidFolderToLocal posix (rejecting_on "/sdcard/DCIM/b.jpg")
         empty_disk "emulator-5554" "/sdcard/DCIM" "/home/u/DCIM" None two_pictures)
  = {| success := 1; errors := 1 |}
  /\ fst (transferAndroidFolderToLocal posix (main_process (failing_on "/sdcard/DCIM/b.jpg"))
            empty_disk "emulator-5554" "/sdcard/DCIM" "/home/u/DCIM" None two_pictures)
     = {| success := 2; errors := 0 |}.
Proof.
  split; [reflexivity |].
  exact (proj2 (android_to_local_counts_add_up posix (rejecting_on "/sdcard/DCIM/b.jpg")
                  (failing_on "/sdcard/DCIM/b.jpg")
                  empty_disk "emulator-5554" "/sdcard/DCIM" "/home/u/DCIM" None
                  two_pictures
                  {| files := [{| file_path := "/sdcard/DCIM/a.jpg"; file_name := "a.jpg";
                                  file_size := 10 |};
                               {| file_path := "/sdcard/DCIM/b.jpg"; file_name := "b.jpg";
                                  file_size := 20 |}];
                     directories := [] |}
                  ["/home/u/DCIM"] ["/home/u/DCIM"] eq_refl eq_refl eq_refl)).
Defined.

Lemma listed_app (deviceId : string) (paths1 paths2 : list string) :
  listed deviceId (paths1 ++ paths2)
  = (listed deviceId paths1 ++ listed deviceId paths2)%list.
Proof. apply map_app. Qed.

Lemma loop_lists_new_directories (deviceId : string) (children : list remote_entry) :
  Forall (fun item =>
            forall path results results',
              fst (listItem deviceId path item results) = Resolved results' ->
              exists newdirs,
                directories results' = (directories results ++ newdirs)%list
                /\ snd (listItem deviceId path item results)
                   = listed deviceId (map dir_path newdirs))
         children ->
  forall path results results',
    fst (for_of_throwing (listItem deviceId path) children results) = Resolved results' ->
    exists newdirs,
      directories results' = (directories results ++ newdirs)%list
      /\ snd (for_of_throwing (listItem deviceId path) children results)
         = listed deviceId (map dir_path newdirs).
Proof.
  induction 1 as [| item rest Hitem _ IH]; intros path results results' Hloop.
  - cbn in Hloop. injection Hloop as <-. exists []. split; [| reflexivity].
    symmetry. apply app_nil_r.
  - rewrite for_of_throwing_cons in Hloop |- *.
    specialize (Hitem path results).
    destruct (listItem deviceId path item results) as [[results1 | message] t1];
      cbn [fst snd] in *; [| discriminate].
    destruct (Hitem results1 eq_refl) as (nd1 & Hd1 & ->).
    destruct (IH path results1 results' Hloop) as (nd2 & Hd2 & ->).
    exists (nd1 ++ nd2)%list. split.
    + rewrite Hd2, Hd1. symmetry. apply app_assoc.
    + rewrite map_app, listed_app. reflexivity.
Qed.

Lemma listItem_lists_new_directories (deviceId : string) (item : remote_entry) :
  forall path results results',
    fst (listItem deviceId path item results) = Resolved results' ->
    exists newdirs,
      directories results' = (directories results ++ newdirs)%list
      /\ snd (listItem deviceId path item results)
         = listed deviceId (map dir_path newdirs).
Proof.
  induction item as [name mode size listing_error children IH]
    using remote_entry_induction.
  intros path results results' Hitem.
  rewrite listItem_unfold in Hitem |- *. cbn zeta in Hitem |- *.
  destruct (isDir mode).
  - unfold listAndroidFilesRecursively, run_listing in Hitem |- *.
    destruct listing_error as [message |]; [discriminate |].
    pose proof (loop_lists_new_directories deviceId children IH
                  (itemPath_of path name) empty_results) as Hloop.
    destruct (for_of_throwing (listItem deviceId (itemPath_of path name)) children
                empty_results) as [[subResults | message] t];
      cbn [fst snd] in *; [| discriminate].
    injection Hitem as <-.
    destruct (Hloop subResults eq_refl) as (nd & Hd & ->).
    cbn [empty_results directories List.app] in Hd.
    exists ({| dir_path := itemPath_of path name; dir_name := name |} :: nd).
    cbn [push_all push_directory directories]. split; [| reflexivity].
    rewrite Hd, <- app_assoc. reflexivity.
  - cbn [fst snd] in *. injection Hitem as <-. exists [].
    cbn [push_file directories]. split; [| reflexivity].
    symmetry. apply app_nil_r.
Qed.

(** X5. A scan that succeeds lists the folder itself and then every
    directory it found, each exactly once and in the order in which
    [results.directories] holds them; it invokes nothing else. *)
Theorem scan_lists_each_directory_once (deviceId androidFolderPath : string)
    (listing_error : option string) (children : list remote_entry)
    (fileList : file_list) :
  fst (listAndroidFilesRecursively deviceId androidFolderPath listing_error children)
  = Resolved fileList ->
  snd (listAndroidFilesRecursively deviceId androidFolderPath listing_error children)
  = listed deviceId (androidFolderPath :: map dir_path (directories fileList)).
Proof.
  intros Hscan.
  unfold listAndroidFilesRecursively, run_listing in Hscan |- *.
  destruct listing_error as [message |]; [discriminate |].
  assert (Hitems : Forall (fun item =>
            forall path results results',
              fst (listItem deviceId path item results) = Resolved results' ->
              exists newdirs,
                directories results' = (directories results ++ newdirs)%list
                /\ snd (listItem deviceId path item results)
                   = listed deviceId (map dir_path newdirs)) children).
  { apply Forall_forall. intros item _. apply listItem_lists_new_directories. }
  pose proof (loop_lists_new_directories deviceId children Hitems androidFolderPath
                empty_results) as Hloop.
  destruct (for_of_throwing (listItem deviceId androidFolderPath) children
              empty_results) as [outcome t].
  cbn [fst snd] in *. subst outcome.
  destruct (Hloop fileList eq_refl) as (nd & Hd & ->).
  cbn [empty_results directories List.app] in Hd. rewrite Hd. reflexivity.
Qed.

Lemma scan_lists_each_directory_once_witness :
  snd (listAndroidFilesRecursively "emulator-5554" "/sdcard/root" None deep_remote_folder)
  = [Invoke (ListFiles "emulator-5554" "/sdcard/root");
     Invoke (ListFiles "emulator-5554" "/sdcard/root/a");
     Invoke (ListFiles "emulator-5554" "/sdcard/root/a/b")].
Proof.
  exact (scan_lists_each_directory_once "emulator-5554" "/sdcard/root" None
           deep_remote_folder
           {| files := [{| file_path := "/sdcard/root/a/b/c.txt";
                           file_name := "c.txt"; file_size := 3 |}];
              directories := [{| dir_path := "/sdcard/root/a"; dir_name := "a" |};
                              {| dir_path := "/sdcard/root/a/b"; dir_name := "b" |}] |}
           eq_refl).
Defined.

(** ** Making local directories *)

Lemma mem_false (p : string) (made : list string) : mem p made = false -> ~ In p made.
Proof.
  unfold mem. intros H Hin.
  assert (Hex : existsb (String.eqb p) made = true).
  { apply existsb_exists. exists p. split; [exact Hin | apply String.eqb_refl]. }
  congruence.
Qed.

Lemma mkdirs_none (t : list event) :
  Forall (fun e => makes_directory e = false) t -> mkdirs t = [].
Proof.
  induction 1 as [| e t He _ IH]; [reflexivity |].
  cbn [mkdirs flat_map]. fold (mkdirs t). rewrite IH.
  destruct e as [s | [] | p | p text | | b |]; try reflexivity; discriminate.
Qed.

Lemma ensure_directory_makes_only_new (disk : local_disk) (p : string)
    (made : list string) :
  makes_only_new disk made (ensure_directory disk p made).
Proof.
  unfold makes_only_new, ensure_directory.
  destruct (exists_before disk p) eqn:Hexists; cbn [orb].
  - cbn. split; [apply NoDup_nil | split; [apply Forall_nil |]].
    intros made' H. injection H as <-. intros q. tauto.
  - destruct (mem p made) eqn:Hmem.
    + cbn. split; [apply NoDup_nil | split; [apply Forall_nil |]].
      intros made' H. injection H as <-. intros q. tauto.
    + apply mem_false in Hmem.
      destruct (mkdir disk p) as [[] | message]; cbn [fst snd mkdirs flat_map List.app].
      * split; [repeat constructor; intros [] |].
        split; [repeat constructor; assumption |].
        intros made' Hmade. injection Hmade as <-. intros q. cbn [In]. tauto.
      * split; [repeat constructor; intros [] |].
        split; [repeat constructor; assumption |].
        discriminate.
Qed.

Lemma create_directories_makes_only_new (host : node_path) (disk : local_disk)
    (androidFolderPath localFolderPath : string) (dirs : list android_directory) :
  forall made,
    makes_only_new disk made
      (create_directories host disk androidFolderPath localFolderPath dirs made).
Proof.
  unfold create_directories.
  induction dirs as [| dir rest IH]; intros made.
  - unfold makes_only_new. cbn.
    split; [apply NoDup_nil | split; [apply Forall_nil |]].
    intros made' H. injection H as <-. intros q. tauto.
  - rewrite for_of_throwing_cons.
    pose proof (ensure_directory_makes_only_new disk
                  (targetPath host androidFolderPath localFolderPath (dir_path dir))
                  made) as (Hnodup1 & Hnew1 & Hmade1).
    destruct (ensure_directory disk _ made) as [[made1 | message] t1];
      cbn [fst snd] in *.
    2:{ unfold makes_only_new. cbn [fst snd].
        split; [exact Hnodup1 | split; [exact Hnew1 | discriminate]]. }
    destruct (IH made1) as (Hnodup2 & Hnew2 & Hmade2).
    specialize (Hmade1 made1 eq_refl).
    unfold makes_only_new. cbn [fst snd]. rewrite mkdirs_app.
    split; [| split].
    + apply NoDup_app; [exact Hnodup1 | exact Hnodup2 |].
      intros p Hp1 Hp2. rewrite Forall_forall in Hnew2.
      destruct (Hnew2 p Hp2) as [_ Hnot]. apply Hnot, Hmade1. right. exact Hp1.
    + apply Forall_app. split; [exact Hnew1 |].
      eapply Forall_impl; [| exact Hnew2]. cbn beta.
      intros p [Hexists Hnot]. split; [exact Hexists |].
      intros Hin. apply Hnot, Hmade1. left. exact Hin.
    + intros made' Hmade' p. rewrite (Hmade2 made' Hmade' p), Hmade1, in_app_iff.
      tauto.
Qed.

Lemma listing_event_no_mkdir (e : event) : listing_event e -> makes_directory e = false.
Proof. intros []; reflexivity. Qed.

Lemma two_stretches_make_only_new (disk : local_disk) (made : list string)
    (t0 t2 : list event) (out2 : promise (list string) * list event) :
  NoDup (mkdirs t0) ->
  Forall (fun p => exists_before disk p = false) (mkdirs t0) ->
  (forall p, In p made <-> In p (mkdirs t0)) ->
  makes_only_new disk made out2 ->
  t2 = snd out2 ->
  NoDup (mkdirs t0 ++ mkdirs t2)
  /\ Forall (fun p => exists_before disk p = false) (mkdirs t0 ++ mkdirs t2).
Proof.
  intros Hnodup0 Hnew0 Hmade (Hnodup2 & Hnew2 & _) ->. split.
  - apply NoDup_app; [exact Hnodup0 | exact Hnodup2 |].
    intros p Hp0 Hp2. rewrite Forall_forall in Hnew2.
    destruct (Hnew2 p Hp2) as [_ Hnot]. apply Hnot, Hmade, Hp0.
  - apply Forall_app. split; [exact Hnew0 |].
    eapply Forall_impl; [| exact Hnew2]. cbn beta. tauto.
Qed.

(** X6. In every run of a transfer from Android to local, whatever
    fails, [fs.mkdirSync] is called for no path twice and for no path that
    existed before the transfer: making the base folder and the
    directories of the plan is idempotent. *)
Theorem no_directory_made_twice
    (host : node_path) (renderer : ipc) (disk : local_disk)
    (deviceId androidFolderPath localFolderPath : string)
    (listing_error : option string) (children : list remote_entry) :
  NoDup (mkdirs (snd (transferAndroidFolderToLocal host renderer disk deviceId
                        androidFolderPath localFolderPath listing_error children)))
  /\ Forall (fun p => exists_before disk p = false)
            (mkdirs (snd (transferAndroidFolderToLocal host renderer disk deviceId
                            androidFolderPath localFolderPath listing_error children))).
Proof.
  unfold transferAndroidFolderToLocal.
  pose proof (ensure_directory_makes_only_new disk localFolderPath [])
    as (Hnodup0 & Hnew0 & Hmade0).
  assert (Hnew0' : Forall (fun p => exists_before disk p = false)
                     (mkdirs (snd (ensure_directory disk localFolderPath [])))).
  { eapply Forall_impl; [| exact Hnew0]. cbn beta. tauto. }
  clear Hnew0.
  destruct (ensure_directory disk localFolderPath []) as [[made | message] t0];
    cbn [fst snd] in *.
  2:{ rewrite mkdirs_app. cbn [mkdirs flat_map]. rewrite app_nil_r. tauto. }
  specialize (Hmade0 made eq_refl).
  assert (Hmade : forall p, In p made <-> In p (mkdirs t0)).
  { intros p. rewrite Hmade0. cbn [In]. tauto. }
  pose proof (listAndroidFilesRecursively_events deviceId androidFolderPath
                listing_error children) as H1.
  apply (Forall_impl _ listing_event_no_mkdir), mkdirs_none in H1.
  destruct (listAndroidFilesRecursively _ _ _ _) as [[fileList | message] t1];
    cbn [fst snd] in *.
  2:{ rewrite mkdirs_app. cbn [mkdirs flat_map List.app]. fold (mkdirs (t1 ++ [SetStatus (ErrorMessage message)])).
      rewrite mkdirs_app, H1. cbn. rewrite app_nil_r. tauto. }
  assert (Hscanned : mkdirs (t0 ++ SetStatus ScanningAndroid :: t1
              ++ [SetStatus (PreparingFrom (List.length (files fileList)) "Android")])
            = mkdirs t0).
  { rewrite mkdirs_app. cbn [mkdirs flat_map List.app].
    fold (mkdirs (t1 ++ [SetStatus (PreparingFrom (List.length (files fileList))
                                      "Android")])).
    rewrite mkdirs_app, H1. cbn. apply app_nil_r. }
  pose proof (create_directories_makes_only_new host disk androidFolderPath
                localFolderPath (directories fileList) made) as H2.
  destruct (two_stretches_make_only_new disk made t0 _ _ Hnodup0 Hnew0' Hmade H2 eq_refl)
    as [Hnodup Hnew].
  destruct (create_directories _ _ _ _ _ _) as [[made' | message] t2]; cbn [snd] in *.
  - assert (H3 : mkdirs (snd (for_of (pull_one host renderer deviceId androidFolderPath
                                        localFolderPath)
                                (files fileList)
                                (initial (List.length (files fileList))))) = []).
    { apply mkdirs_none, for_of_Forall. apply Forall_forall. intros file _ v.
      apply pull_one_no_mkdir. }
    destruct (for_of _ (files fileList) _) as [v t3]. cbn [snd] in *.
    rewrite mkdirs_app, Hscanned, mkdirs_app, H3, app_nil_r. tauto.
  - rewrite mkdirs_app, Hscanned, mkdirs_app. cbn [mkdirs flat_map].
    rewrite app_nil_r. tauto.
Qed.

(** ** Strings the handlers build *)

Lemma collapse_slashes_head (rest : string) :
  forall c, exists tail, collapse_slashes (String c rest) = String c tail.
Proof.
  induction rest as [| d rest IH]; intros c.
  - exists EmptyString. reflexivity.
  - cbn [collapse_slashes].
    destruct (Ascii.eqb_spec c "/") as [-> | Hc]; cbn [andb].
    + destruct (Ascii.eqb_spec d "/") as [-> | Hd].
      * apply IH.
      * eexists. reflexivity.
    + eexists. reflexivity.
Qed.

Lemma collapse_slashes_cons (c d : ascii) (rest : string) :
  collapse_slashes (String c (String d rest))
  = if Ascii.eqb c "/" && Ascii.eqb d "/" then collapse_slashes (String d rest)
    else String c (collapse_slashes (String d rest)).
Proof. reflexivity. Qed.

Lemma double_slash_cons (c d : ascii) (rest : string) :
  double_slash (String c (String d rest))
  = (Ascii.eqb c "/" && Ascii.eqb d "/") || double_slash (String d rest).
Proof. reflexivity. Qed.

Lemma collapse_slashes_clean (s : string) : double_slash (collapse_slashes s) = false.
Proof.
  induction s as [| c rest IH]; [reflexivity |].
  destruct rest as [| d rest]; [reflexivity |].
  rewrite collapse_slashes_cons.
  destruct (Ascii.eqb c "/" && Ascii.eqb d "/") eqn:Hcd; [exact IH |].
  destruct (collapse_slashes_head rest d) as [tail Htail].
  rewrite Htail in IH |- *. rewrite double_slash_cons, Hcd, IH. reflexivity.
Qed.

Lemma collapse_slashes_fixed (s : string) :
  double_slash s = false -> collapse_slashes s = s.
Proof.
  induction s as [| c rest IH]; [reflexivity |].
  destruct rest as [| d rest]; [reflexivity |].
  rewrite double_slash_cons, collapse_slashes_cons.
  intros H. apply orb_false_elim in H. destruct H as [Hcd Hrest].
  rewrite Hcd, (IH Hrest). reflexivity.
Qed.

(** X7. The Android target path of a transfer, built with
    [replace(/\/+/g, '/')], never holds two slashes in a row, whatever the
    current Android path and the item name are; the replacement is
    idempotent and changes exactly the strings that hold a double slash. *)
Theorem target_path_has_no_double_slash (androidPath itemName s : string) :
  double_slash
    (collapse_slashes (androidPath ++ "/" ++ replace_class android_unsafe itemName))
  = false
  /\ collapse_slashes (collapse_slashes s) = collapse_slashes s
  /\ (collapse_slashes s = s <-> double_slash s = false).
Proof.
  split; [apply collapse_slashes_clean |].
  split; [apply collapse_slashes_fixed, collapse_slashes_clean |].
  split; [| apply collapse_slashes_fixed].
  intros <-. apply collapse_slashes_clean.
Qed.

Lemma replace_class_length (bad : ascii -> bool) (s : string) :
  String.length (replace_class bad s) = String.length s.
Proof. induction s as [| c rest IH]; cbn; [reflexivity | f_equal; exact IH]. Qed.

Lemma replace_class_clean (bad : ascii -> bool) (s : string) :
  bad "_"%char = false -> has_any bad (replace_class bad s) = false.
Proof.
  intros Hunderscore. induction s as [| c rest IH]; [reflexivity |].
  cbn [replace_class has_any]. rewrite IH.
  destruct (bad c) eqn:Hc; [rewrite Hunderscore | rewrite Hc]; reflexivity.
Qed.

Lemma replace_class_fixed (bad : ascii -> bool) (s : string) :
  has_any bad s = false -> replace_class bad s = s.
Proof.
  induction s as [| c rest IH]; [reflexivity |].
  cbn [replace_class has_any]. intros H. apply orb_false_elim in H.
  destruct H as [Hc Hrest]. rewrite Hc, (IH Hrest). reflexivity.
Qed.

Lemma has_any_weaken (bad bad' : ascii -> bool) (s : string) :
  (forall c, bad' c = true -> bad c = true) ->
  has_any bad s = false -> has_any bad' s = false.
Proof.
  intros Hsub. induction s as [| c rest IH]; [reflexivity |].
  cbn [has_any]. intros H. apply orb_false_elim in H. destruct H as [Hc Hrest].
  rewrite (IH Hrest), orb_false_r.
  destruct (bad' c) eqn:Hc'; [| reflexivity].
  rewrite (Hsub c Hc') in Hc. discriminate.
Qed.

Lemma has_any_is_slash (s : string) : has_any is_slash s = includes_slash s.
Proof. induction s as [| c rest IH]; cbn; [reflexivity | rewrite IH; reflexivity]. Qed.

Lemma slash_is_unsafe (c : ascii) :
  is_slash c = true -> android_unsafe c = true /\ local_unsafe c = true.
Proof.
  unfold is_slash. intros H. apply Ascii.eqb_eq in H. subst c. split; reflexivity.
Qed.

(** X8. The sanitised name of a transferred item, on either side, has the
    length of the item name, holds none of the characters of its class, in
    particular no slash, and is the item name itself when that name was
    clean. *)
Theorem sanitized_names_are_clean (itemName : string) :
  String.length (replace_class android_unsafe itemName) = String.length itemName
  /\ String.length (replace_class local_unsafe itemName) = String.length itemName
  /\ has_any android_unsafe (replace_class android_unsafe itemName) = false
  /\ has_any local_unsafe (replace_class local_unsafe itemName) = false
  /\ slash_free (replace_class android_unsafe itemName) = true
  /\ slash_free (replace_class local_unsafe itemName) = true
  /\ (replace_class android_unsafe itemName = itemName
      <-> has_any android_unsafe itemName = false)
  /\ (replace_class local_unsafe itemName = itemName
      <-> has_any local_unsafe itemName = false).
Proof.
  assert (Ha : has_any android_unsafe (replace_class android_unsafe itemName) = false)
    by (apply replace_class_clean; reflexivity).
  assert (Hl : has_any local_unsafe (replace_class local_unsafe itemName) = false)
    by (apply replace_class_clean; reflexivity).
  repeat split; try apply replace_class_length; try assumption.
  - unfold slash_free. rewrite <- has_any_is_slash.
    rewrite (has_any_weaken android_unsafe is_slash _
               (fun c H => proj1 (slash_is_unsafe c H)) Ha). reflexivity.
  - unfold slash_free. rewrite <- has_any_is_slash.
    rewrite (has_any_weaken local_unsafe is_slash _
               (fun c H => proj2 (slash_is_unsafe c H)) Hl). reflexivity.
  - intros <-. exact Ha.
  - apply replace_class_fixed.
  - intros <-. exact Hl.
  - apply replace_class_fixed.
Qed.

(** ** Path normalisation *)

Lemma backslashes_to_slashes_clean (s : string) :
  has_any is_backslash (backslashes_to_slashes s) = false.
Proof.
  induction s as [| c rest IH]; [reflexivity |].
  cbn [backslashes_to_slashes has_any]. rewrite IH. unfold is_backslash.
  destruct (Ascii.eqb_spec c "\") as [-> | Hc]; [reflexivity |].
  apply orb_false_intro; [| reflexivity]. apply Ascii.eqb_neq. exact Hc.
Qed.

Lemma backslashes_to_slashes_fixed (s : string) :
  has_any is_backslash s = false -> backslashes_to_slashes s = s.
Proof.
  induction s as [| c rest IH]; [reflexivity |].
  cbn [backslashes_to_slashes has_any]. intros H. apply orb_false_elim in H.
  destruct H as [Hc Hrest]. unfold is_backslash in Hc.
  rewrite Hc, (IH Hrest). reflexivity.
Qed.

Lemma backslashes_to_slashes_length (s : string) :
  String.length (backslashes_to_slashes s) = String.length s.
Proof. induction s as [| c rest IH]; cbn; [reflexivity | f_equal; exact IH]. Qed.

(** X9. For a path on the device, [adaptPathToOS] and
    [normalizePlatformPath] agree on every host; the result has no
    backslash and the length of the input, normalising twice is
    normalising once, and a path is left as it is exactly when it has no
    backslash. For local paths too the two functions agree, their flags
    being each other's negation. *)
Theorem device_paths_have_no_backslash (os : platform) (p : string) (isAndroid : bool) :
  adaptPathToOS os p false = normalizePlatformPath os p true
  /\ has_any is_backslash (adaptPathToOS os p false) = false
  /\ String.length (adaptPathToOS os p false) = String.length p
  /\ adaptPathToOS os (adaptPathToOS os p false) false = adaptPathToOS os p false
  /\ (adaptPathToOS os p false = p <-> has_any is_backslash p = false)
  /\ adaptPathToOS os p (negb isAndroid) = normalizePlatformPath os p isAndroid.
Proof.
  unfold adaptPathToOS, normalizePlatformPath. cbn [negb].
  split; [reflexivity |].
  split; [apply backslashes_to_slashes_clean |].
  split; [apply backslashes_to_slashes_length |].
  split; [apply backslashes_to_slashes_fixed, backslashes_to_slashes_clean |].
  split.
  - split; [| apply backslashes_to_slashes_fixed].
    intros <-. apply backslashes_to_slashes_clean.
  - destruct isAndroid; cbn [negb]; [reflexivity |].
    destruct (win32 os); reflexivity.
Qed.

Lemma toUpperCase_letter_facts (c : ascii) :
  is_letter c = true ->
  is_letter (toUpperCase_letter c) = true
  /\ toUpperCase_letter (toUpperCase_letter c) = toUpperCase_letter c
  /\ is_backslash (toUpperCase_letter c) = false.
Proof.
  destruct c as [[] [] [] [] [] [] [] []]; cbn; intros H;
    try discriminate; repeat split.
Qed.

Lemma endsWith_backslash_clean (s : string) :
  has_any is_backslash s = false -> endsWith ":\" s = false.
Proof.
  induction s as [| c rest IH]; intros Hclean; [reflexivity |].
  cbn [has_any] in Hclean. apply orb_false_elim in Hclean.
  destruct Hclean as [Hc Hrest]. cbn [endsWith]. rewrite (IH Hrest), orb_false_r.
  destruct (String.eqb_spec (String c rest) ":\") as [Heq | _]; [| reflexivity].
  injection Heq as _ ->. cbn in Hrest. discriminate Hrest.
Qed.

Lemma toUpperCase_letter_clean (c : ascii) :
  is_backslash c = false -> is_backslash (toUpperCase_letter c) = false.
Proof.
  destruct c as [[] [] [] [] [] [] [] []]; vm_compute; intros H;
    first [reflexivity | discriminate H].
Qed.

Lemma with_drive_letter_clean (n : string) :
  has_any is_backslash n = false ->
  has_any is_backslash (with_drive_letter n) = false.
Proof.
  destruct n as [| c0 [| c1 rest]]; try (intros H; exact H).
  cbn [with_drive_letter has_any]. intros Hclean.
  repeat (apply orb_false_elim in Hclean; destruct Hclean as [? Hclean]).
  rewrite toUpperCase_letter_clean, Hclean by assumption. reflexivity.
Qed.

(** The test of the third branch fails on every path that reaches it. *)
Lemma drive_and_backslash_never (filePath : string) :
  drive_and_backslash (with_drive_letter (backslashes_to_slashes filePath)) = false.
Proof.
  unfold drive_and_backslash.
  rewrite endsWith_backslash_clean, andb_false_r; [reflexivity |].
  apply with_drive_letter_clean, backslashes_to_slashes_clean.
Qed.

Lemma normalizePath_on_clean (os : platform) (n : string) :
  has_any is_backslash n = false ->
  normalizePath os n
  = match n with
    | String c0 (String c1 rest) =>
        if win32 os && is_letter c0 && Ascii.eqb c1 ":" then
          match rest with
          | EmptyString => String (toUpperCase_letter c0) (String ":" (String "/" EmptyString))
          | _ => String (toUpperCase_letter c0) (String ":" rest)
          end
        else n
    | _ => n
    end.
Proof.
  intros Hclean. unfold normalizePath.
  rewrite (backslashes_to_slashes_fixed n Hclean).
  pose proof (drive_and_backslash_never n) as Hthird.
  rewrite (backslashes_to_slashes_fixed n Hclean) in Hthird. rewrite Hthird.
  destruct n as [| c0 [| c1 rest]]; cbn [starts_with_drive];
    try (rewrite andb_false_r; reflexivity).
  rewrite andb_assoc.
  destruct (win32 os && is_letter c0 && Ascii.eqb c1 ":"); [| reflexivity].
  unfold bare_drive. cbn [with_drive_letter String.length].
  destruct rest as [| c2 rest]; [| destruct rest; reflexivity].
  cbn [Nat.eqb andb endsWith]. rewrite String.eqb_refl, orb_true_r. reflexivity.
Qed.

Lemma normalizePath_unfold (os : platform) (p : string) :
  normalizePath os p = normalizePath os (backslashes_to_slashes p).
Proof.
  unfold normalizePath.
  rewrite (backslashes_to_slashes_fixed (backslashes_to_slashes p)
             (backslashes_to_slashes_clean p)).
  reflexivity.
Qed.

(** X10. On every host [normalizePath] returns a path without backslash,
    and normalising twice is normalising once; off Windows it only turns
    backslashes into slashes. The branch of the source that looks for a
    backslash after the drive letter is never taken: its test fails on
    the string it is applied to, whatever the path. *)
Theorem normalizePath_is_idempotent (os : platform) (p : string)
    (node_normalize : string -> string) :
  has_any is_backslash (normalizePath os p) = false
  /\ normalizePath os (normalizePath os p) = normalizePath os p
  /\ normalizePath {| win32 := false; normalize := node_normalize |} p
     = backslashes_to_slashes p
  /\ drive_and_backslash (with_drive_letter (backslashes_to_slashes p)) = false.
Proof.
  assert (Hthird : drive_and_backslash (with_drive_letter (backslashes_to_slashes p))
                   = false) by apply drive_and_backslash_never.
  cut (has_any is_backslash (normalizePath os p) = false
       /\ normalizePath os (normalizePath os p) = normalizePath os p
       /\ normalizePath {| win32 := false; normalize := node_normalize |} p
          = backslashes_to_slashes p).
  { intros (H1 & H2 & H3). repeat split; assumption. }
  clear Hthird.
  pose proof (backslashes_to_slashes_clean p) as Hclean.
  rewrite (normalizePath_unfold os p).
  rewrite (normalizePath_on_clean os _ Hclean).
  set (n := backslashes_to_slashes p) in *.
  assert (Hshape : forall c0 rest,
            is_letter c0 = true -> has_any is_backslash rest = false ->
            has_any is_backslash (String (toUpperCase_letter c0) (String ":" rest))
            = false).
  { intros c0 rest Hletter Hrest. cbn [has_any].
    destruct (toUpperCase_letter_facts c0 Hletter) as (_ & _ & ->).
    rewrite Hrest. reflexivity. }
  split; [| split].
  - destruct n as [| c0 [| c1 rest]]; try exact Hclean.
    destruct (win32 os && is_letter c0 && Ascii.eqb c1 ":") eqn:Hdrive;
      [| exact Hclean].
    apply andb_prop in Hdrive. destruct Hdrive as [Hwl _].
    apply andb_prop in Hwl. destruct Hwl as [_ Hletter].
    cbn [has_any] in Hclean.
    repeat (apply orb_false_elim in Hclean; destruct Hclean as [? Hclean]).
    destruct rest as [| c2 rest]; apply Hshape; try assumption; reflexivity.
  - destruct n as [| c0 [| c1 rest]];
      try (rewrite normalizePath_on_clean by exact Hclean; reflexivity).
    destruct (win32 os && is_letter c0 && Ascii.eqb c1 ":") eqn:Hdrive;
      [| rewrite normalizePath_on_clean by exact Hclean;
         rewrite Hdrive; reflexivity].
    pose proof Hdrive as Hdrive'.
    apply andb_prop in Hdrive. destruct Hdrive as [Hwl Hcolon].
    apply andb_prop in Hwl. destruct Hwl as [Hwin Hletter].
    destruct (toUpperCase_letter_facts c0 Hletter) as (Hup & Hidem & _).
    cbn [has_any] in Hclean.
    repeat (apply orb_false_elim in Hclean; destruct Hclean as [? Hclean]).
    destruct rest as [| c2 rest].
    + rewrite normalizePath_on_clean by (apply Hshape; [assumption | reflexivity]).
      rewrite Hwin, Hup, Hidem. reflexivity.
    + rewrite normalizePath_on_clean by (apply Hshape; assumption).
      rewrite Hwin, Hup, Hidem. reflexivity.
  - subst n. unfold normalizePath. cbn [win32 andb]. reflexivity.
Qed.

(** ** Splitting and joining *)

Lemma split_not_nil (sep : ascii) (s : string) : split sep s <> [].
Proof.
  induction s as [| c rest IH]; cbn [split]; [discriminate |].
  destruct (Ascii.eqb c sep); [discriminate |].
  destruct (split sep rest); discriminate.
Qed.

Lemma split_app_sep (sep : ascii) (a b : string) :
  split sep (a ++ String sep b) = (split sep a ++ split sep b)%list.
Proof.
  induction a as [| c a IH]; cbn [append split List.app].
  - rewrite Ascii.eqb_refl. reflexivity.
  - destruct (Ascii.eqb c sep); [rewrite IH; reflexivity |].
    rewrite IH. pose proof (split_not_nil sep a) as Hne.
    destruct (split sep a) as [| piece pieces]; [contradiction |]. reflexivity.
Qed.

Lemma split_without_sep (sep : ascii) (s : string) :
  has_any (fun c => Ascii.eqb c sep) s = false -> split sep s = [s].
Proof.
  induction s as [| c rest IH]; cbn [has_any split]; [reflexivity |].
  intros H. apply orb_false_elim in H. destruct H as [Hc Hrest].
  rewrite Hc, (IH Hrest). reflexivity.
Qed.

Lemma split_pieces (sep : ascii) (s : string) :
  Forall (fun piece => has_any (fun c => Ascii.eqb c sep) piece = false)
         (split sep s).
Proof.
  induction s as [| c rest IH]; cbn [split].
  - constructor; [reflexivity | constructor].
  - destruct (Ascii.eqb c sep) eqn:Hc; [constructor; [reflexivity | exact IH] |].
    destruct (split sep rest) as [| piece pieces];
      [constructor; [cbn; rewrite Hc; reflexivity | constructor] |].
    inversion IH as [| ? ? Hpiece Hpieces]; subst.
    constructor; [| exact Hpieces]. cbn [has_any]. rewrite Hc, Hpiece. reflexivity.
Qed.

Lemma last_app_cons {A} (l : list A) (x : A) (l' : list A) (d : A) :
  last (l ++ x :: l') d = last (x :: l') d.
Proof.
  induction l as [| y l IH]; [reflexivity |].
  cbn [List.app]. change (last (y :: (l ++ x :: l')) d) with
    (match (l ++ x :: l')%list with [] => y | _ :: _ => last (l ++ x :: l') d end).
  destruct (l ++ x :: l')%list eqn:E; [destruct l; discriminate |].
  exact IH.
Qed.

Lemma includes_dot_has_any (s : string) :
  includes_dot s = has_any (fun c => Ascii.eqb c ".") s.
Proof. induction s as [| c rest IH]; cbn; [reflexivity | rewrite IH; reflexivity]. Qed.

Lemma includes_slash_has_any (s : string) :
  includes_slash s = has_any (fun c => Ascii.eqb c "/") s.
Proof. induction s as [| c rest IH]; cbn; [reflexivity | rewrite IH; reflexivity]. Qed.

(** ** File types *)

Lemma toLowerCase_char_facts (c : ascii) :
  toLowerCase_char (toLowerCase_char c) = toLowerCase_char c
  /\ Ascii.eqb (toLowerCase_char c) "." = Ascii.eqb c ".".
Proof. destruct c as [[] [] [] [] [] [] [] []]; split; reflexivity. Qed.

Lemma toLowerCase_idempotent (s : string) :
  toLowerCase (toLowerCase s) = toLowerCase s.
Proof.
  induction s as [| c rest IH]; cbn [toLowerCase]; [reflexivity |].
  rewrite IH, (proj1 (toLowerCase_char_facts c)). reflexivity.
Qed.

Lemma split_toLowerCase (s : string) :
  split "." (toLowerCase s) = map toLowerCase (split "." s).
Proof.
  induction s as [| c rest IH]; cbn [toLowerCase split map]; [reflexivity |].
  rewrite (proj2 (toLowerCase_char_facts c)), IH.
  destruct (Ascii.eqb c "."); [reflexivity |].
  destruct (split "." rest); reflexivity.
Qed.

Lemma last_map_toLowerCase (parts : list string) :
  last (map toLowerCase parts) EmptyString = toLowerCase (last parts EmptyString).
Proof.
  induction parts as [| p parts IH]; [reflexivity |].
  destruct parts as [| q parts]; [reflexivity |].
  change (last (map toLowerCase (p :: q :: parts)) EmptyString)
    with (last (map toLowerCase (q :: parts)) EmptyString).
  rewrite IH. reflexivity.
Qed.

(** X11. The type [getFileType] gives a file depends on nothing but the
    text after the last dot of its name, whatever the case of the letters:
    a name [base.ext] has the type of the bare name [ext], so that a file
    named after an extension alone is typed like one that carries it, and
    putting a name in lower case does not change its type. *)
Theorem file_type_is_read_off_the_extension (base ext : string)
    (Hext : includes_dot ext = false) :
  getFileType (base ++ "." ++ ext) = getFileType ext
  /\ getFileType (toLowerCase (base ++ "." ++ ext)) = getFileType ext
  /\ getFileType (toLowerCase ext) = getFileType ext.
Proof.
  rewrite includes_dot_has_any in Hext.
  assert (Hlast : last (split "." (base ++ "." ++ ext)) EmptyString = ext).
  { change (base ++ "." ++ ext) with (base ++ String "." ext).
    rewrite split_app_sep, (split_without_sep _ _ Hext).
    apply last_app_cons. }
  assert (Hbare : last (split "." ext) EmptyString = ext).
  { rewrite (split_without_sep _ _ Hext). reflexivity. }
  unfold getFileType.
  rewrite !split_toLowerCase, !last_map_toLowerCase, !toLowerCase_idempotent.
  rewrite Hlast, Hbare. repeat split; reflexivity.
Qed.

Lemma file_type_is_read_off_the_extension_witness :
  includes_dot "MP3" = false
  /\ getFileType ("holiday.2024" ++ "." ++ "MP3") = getFileType "MP3"
  /\ getFileType "MP3" = Some Audio.
Proof.
  split; [reflexivity |]. split; [| reflexivity].
  exact (proj1 (file_type_is_read_off_the_extension "holiday.2024" "MP3" eq_refl)).
Defined.

(** ** The Android back button *)

Lemma filter_Boolean_app (a b : list string) :
  filter_Boolean (a ++ b) = (filter_Boolean a ++ filter_Boolean b)%list.
Proof. apply filter_app. Qed.

Lemma segment_split (s : string) : segment s = true -> split "/" s = [s].
Proof.
  unfold segment, slash_free. intros H. apply andb_prop in H. destruct H as [_ H].
  apply split_without_sep. rewrite <- includes_slash_has_any.
  destruct (includes_slash s); [discriminate | reflexivity].
Qed.

Lemma segment_not_empty (s : string) : segment s = true -> is_empty s = false.
Proof.
  unfold segment. intros H. apply andb_prop in H. destruct H as [H _].
  destruct (is_empty s); [discriminate | reflexivity].
Qed.

Lemma segments_of_split (p : string) :
  Forall (fun s => segment s = true) (filter_Boolean (split "/" p)).
Proof.
  unfold filter_Boolean. apply Forall_forall. intros s Hs.
  apply filter_In in Hs. destruct Hs as [Hin Hne].
  pose proof (split_pieces "/" p) as Hpieces.
  rewrite Forall_forall in Hpieces. specialize (Hpieces s Hin).
  unfold segment, slash_free. rewrite Hne, includes_slash_has_any, Hpieces.
  reflexivity.
Qed.

Lemma split_join (parts : list string) :
  Forall (fun s => segment s = true) parts ->
  filter_Boolean (split "/" (join_with "/" parts)) = parts.
Proof.
  induction parts as [| piece rest IH]; intros Hparts; [reflexivity |].
  inversion Hparts as [| ? ? Hpiece Hrest]; subst.
  cbn [join_with]. destruct rest as [| next rest].
  - rewrite (segment_split _ Hpiece). unfold filter_Boolean. cbn [filter].
    rewrite (segment_not_empty _ Hpiece). reflexivity.
  - change (piece ++ "/" ++ join_with "/" (next :: rest))
      with (piece ++ String "/" (join_with "/" (next :: rest))).
    rewrite split_app_sep, filter_Boolean_app, (IH Hrest).
    rewrite (segment_split _ Hpiece). unfold filter_Boolean. cbn [filter].
    rewrite (segment_not_empty _ Hpiece). reflexivity.
Qed.

Lemma split_rooted (parts : list string) :
  Forall (fun s => segment s = true) parts ->
  filter_Boolean (split "/" ("/" ++ join_with "/" parts)) = parts.
Proof.
  intros Hparts. change ("/" ++ join_with "/" parts)
    with (String "/" (join_with "/" parts)).
  cbn [split]. rewrite Ascii.eqb_refl. unfold filter_Boolean at 1. cbn [filter is_empty negb].
  apply (split_join parts Hparts).
Qed.

Lemma depth_rooted (parts : list string) :
  Forall (fun s => segment s = true) parts ->
  depth ("/" ++ join_with "/" parts) = List.length parts.
Proof. intros H. unfold depth. rewrite (split_rooted parts H). reflexivity. Qed.

Lemma Forall_removelast {A} (P : A -> Prop) (l : list A) :
  Forall P l -> Forall P (removelast l).
Proof.
  induction l as [| x l IH]; intros H; [constructor |].
  inversion H as [| ? ? Hx Hl]; subst. cbn [removelast].
  destruct l; [constructor | constructor; [exact Hx | exact (IH Hl)]].
Qed.

Lemma length_removelast {A} (l : list A) :
  List.length (removelast l) = List.length l - 1.
Proof.
  induction l as [| x l IH]; [reflexivity |].
  cbn [removelast]. destruct l as [| y l]; [reflexivity |].
  cbn [List.length] in *. lia.
Qed.

(** What the button computes, by the depth of the path it starts from. *)
Lemma androidBack_path_shallow (p : string) :
  depth p <= 1 -> androidBack_path p = "/sdcard".
Proof.
  unfold depth, androidBack_path. intros H.
  destruct (filter_Boolean (split "/" p)) as [| a [| b rest]];
    [reflexivity | reflexivity | cbn [List.length] in H; lia].
Qed.

Lemma androidBack_path_deep (p : string) :
  2 <= depth p ->
  androidBack_path p
  = "/" ++ join_with "/" (removelast (filter_Boolean (split "/" p)))
  /\ depth (androidBack_path p) = depth p - 1.
Proof.
  unfold depth at 1 3. intros H.
  assert (Hshape : androidBack_path p
            = "/" ++ join_with "/" (removelast (filter_Boolean (split "/" p)))).
  { unfold androidBack_path.
    pose proof (length_removelast (filter_Boolean (split "/" p))) as Hlen.
    destruct (Nat.ltb_spec 0 (List.length (filter_Boolean (split "/" p)))); [| lia].
    destruct (Nat.ltb_spec 0 (List.length (removelast (filter_Boolean (split "/" p)))));
      [reflexivity | lia]. }
  split; [exact Hshape |].
  rewrite Hshape, depth_rooted, length_removelast; [reflexivity |].
  apply Forall_removelast, segments_of_split.
Qed.

Lemma androidBack_path_reaches_sdcard (n : nat) :
  forall p, depth p <= S n -> Nat.iter (S n) androidBack_path p = "/sdcard".
Proof.
  induction n as [| n IH]; intros p Hp.
  - cbn [Nat.iter nat_rect]. apply androidBack_path_shallow. exact Hp.
  - rewrite Nat.iter_succ_r. apply IH.
    destruct (Nat.le_gt_cases (depth p) 1) as [Hshallow | Hdeep].
    + rewrite (androidBack_path_shallow p Hshallow). cbn. lia.
    + destruct (androidBack_path_deep p Hdeep) as [_ ->]. lia.
Qed.

(** X12. Wherever it starts, the Android back button moves to a path
    made of a slash and one or more segments joined by slashes: never to
    the root, never to a path with an empty segment. It also clears both
    selections. Pressed as often as the path is deep, or more often, it
    ends at [/sdcard], where it stays. *)
Theorem android_back_never_reaches_the_root (st : state) (k : nat) :
  let st' := androidBackBtn_click st in
  (exists parts,
      parts <> []
      /\ Forall (fun s => segment s = true) parts
      /\ androidPath st' = "/" ++ join_with "/" parts)
  /\ androidPath st' <> "/"
  /\ localSelectedItems st' = [] /\ androidSelectedItems st' = []
  /\ Nat.iter (Nat.max 1 (depth (androidPath st)) + k) androidBack_path
       (androidPath st) = "/sdcard".
Proof.
  cbn zeta. unfold androidBackBtn_click.
  cbn [clearSelections set_androidPath androidPath localSelectedItems
       androidSelectedItems].
  set (p := androidPath st).
  assert (Hform : exists parts,
             parts <> []
             /\ Forall (fun s => segment s = true) parts
             /\ androidBack_path p = "/" ++ join_with "/" parts).
  { destruct (Nat.le_gt_cases (depth p) 1) as [Hshallow | Hdeep].
    - exists ["sdcard"]. split; [discriminate |].
      split; [constructor; [reflexivity | constructor] |].
      apply androidBack_path_shallow. exact Hshallow.
    - exists (removelast (filter_Boolean (split "/" p))).
      split; [| split].
      + intros Hnil. apply (f_equal (@List.length string)) in Hnil.
        rewrite length_removelast in Hnil. unfold depth in Hdeep.
        cbn [List.length] in Hnil. lia.
      + apply Forall_removelast, segments_of_split.
      + apply (androidBack_path_deep p Hdeep). }
  split; [exact Hform |]. split; [| split; [reflexivity | split; [reflexivity |]]].
  - destruct Hform as (parts & Hne & Hparts & ->).
    destruct parts as [| piece rest]; [contradiction |].
    inversion Hparts as [| ? ? Hpiece _]; subst.
    apply segment_not_empty in Hpiece.
    destruct piece; [discriminate |]. destruct rest; discriminate.
  - destruct (Nat.max 1 (depth p) + k) as [| n] eqn:Hn; [lia |].
    apply androidBack_path_reaches_sdcard. lia.
Qed.

Lemma has_any_app (bad : ascii -> bool) (a b : string) :
  has_any bad (a ++ b) = has_any bad a || has_any bad b.
Proof.
  induction a as [| c a IH]; cbn [append has_any]; [reflexivity |].
  rewrite IH, orb_assoc. reflexivity.
Qed.

Lemma join_with_snoc (parts : list string) (name : string) :
  parts <> [] ->
  join_with "/" (parts ++ [name]) = join_with "/" parts ++ "/" ++ name.
Proof.
  induction parts as [| piece rest IH]; intros Hne; [contradiction |].
  destruct rest as [| next rest]; [reflexivity |].
  change (join_with "/" (piece :: next :: rest))
    with (piece ++ "/" ++ join_with "/" (next :: rest)).
  change (join_with "/" ((piece :: next :: rest) ++ [name]))
    with (piece ++ "/" ++ join_with "/" ((next :: rest) ++ [name])).
  rewrite IH by discriminate. rewrite !append_assoc. reflexivity.
Qed.

(** X13. Entering a directory of the device by a double click and then
    pressing the back button returns to the path one started from,
    provided that path is a slash followed by one or more segments, that
    neither it nor the name of the directory has a backslash, and that
    the host joins the two with one slash. *)
Theorem android_back_undoes_a_double_click (host : node_path) (st : state)
    (name : string) (parts : list string)
    (Hparts : Forall (fun s => segment s = true) parts)
    (Hdeep : parts <> [])
    (Hname : segment name = true)
    (Hpath : androidPath st = "/" ++ join_with "/" parts)
    (Hclean_path : has_any is_backslash (androidPath st) = false)
    (Hclean_name : has_any is_backslash name = false)
    (Hjoin : join host (androidPath st) name = androidPath st ++ "/" ++ name) :
  androidPath
    (androidBackBtn_click (handleItemDoubleClick host false false name "true" st))
  = androidPath st.
Proof.
  unfold androidBackBtn_click, handleItemDoubleClick.
  cbn [String.eqb Ascii.eqb Bool.eqb negb clearSelections set_androidPath androidPath].
  rewrite Hjoin.
  rewrite backslashes_to_slashes_fixed
    by (rewrite !has_any_app, Hclean_path, Hclean_name; reflexivity).
  rewrite Hpath.
  assert (Hnew : ("/" ++ join_with "/" parts) ++ "/" ++ name
                 = "/" ++ join_with "/" (parts ++ [name])).
  { rewrite (join_with_snoc parts name Hdeep). reflexivity. }
  assert (Hall : Forall (fun s => segment s = true) (parts ++ [name])).
  { apply Forall_app. split; [exact Hparts | constructor; [exact Hname | constructor]]. }
  rewrite Hnew.
  assert (Hdepth : 2 <= depth ("/" ++ join_with "/" (parts ++ [name]))).
  { rewrite (depth_rooted _ Hall), length_app. cbn [List.length].
    destruct parts; [contradiction | cbn [List.length]; lia]. }
  destruct (androidBack_path_deep _ Hdepth) as [-> _].
  rewrite (split_rooted _ Hall), removelast_last. reflexivity.
Qed.

Lemma android_back_undoes_a_double_click_witness :
  androidPath
    (androidBackBtn_click
       (handleItemDoubleClick posix false false "DCIM" "true" (initial_state "/home/user")))
  = "/sdcard".
Proof.
  apply (android_back_undoes_a_double_click posix (initial_state "/home/user")
           "DCIM" ["sdcard"]).
  - constructor; [reflexivity | constructor].
  - discriminate.
  - reflexivity.
  - reflexivity.
  - reflexivity.
  - reflexivity.
  - reflexivity.
Defined.

(** ** The status bar *)

Lemma prefix_app (needle rest : string) : String.prefix needle (needle ++ rest) = true.
Proof.
  induction needle as [| c needle IH]; cbn [append String.prefix].
  - destruct rest; reflexivity.
  - destruct (ascii_dec c c) as [_ | Hc]; [exact IH | contradiction].
Qed.

Lemma includes_app (needle before rest : string) :
  includes needle (before ++ needle ++ rest) = true.
Proof.
  induction before as [| c before IH]; cbn [append].
  - destruct (needle ++ rest) eqn:E; cbn [includes]; rewrite <- E, prefix_app;
      reflexivity.
  - cbn [includes]. rewrite IH. apply orb_true_r.
Qed.

(** X14. The filter of the status bar hides the messages that start with
    [Loaded ] and mention [ items from ], such as the one written after a
    listing of the device: the bar then keeps its text. It hides no
    status of the transfer code, whatever file name, folder or error text
    the status carries: each one replaces the text of the bar. *)
Theorem no_transfer_status_is_hidden (s : status) (count path textContent : string) :
  uiOps.setStatus (render_status s) textContent = render_status s
  /\ uiOps.setStatus ("Loaded " ++ count ++ " items from " ++ path) textContent
     = textContent.
Proof.
  split.
  - unfold uiOps.setStatus. destruct s; reflexivity.
  - unfold uiOps.setStatus.
    rewrite (prefix_app "Loaded " (count ++ " items from " ++ path)).
    change ("Loaded " ++ count ++ " items from " ++ path)
      with (("Loaded " ++ count) ++ " items from " ++ path) at 1.
    rewrite (includes_app " items from " ("Loaded " ++ count) path).
    reflexivity.
Qed.

(** ** Listing a directory of the device *)

Lemma list_files_path_rooted (dirPath : string) :
  String.prefix "/" (list_files_path dirPath) = true
  /\ has_any is_backslash (list_files_path dirPath) = false.
Proof.
  unfold list_files_path.
  pose proof (backslashes_to_slashes_clean dirPath) as Hclean.
  destruct (String.prefix "/" (backslashes_to_slashes dirPath)) eqn:Hprefix;
    cbn [negb]; [split; assumption |].
  split; [destruct (backslashes_to_slashes dirPath); reflexivity |].
  rewrite has_any_app, Hclean. reflexivity.
Qed.

Lemma strip_leading_slashes_clean (s : string) :
  has_any is_backslash s = false ->
  has_any is_backslash (strip_leading_slashes s) = false.
Proof.
  induction s as [| c rest IH]; cbn [strip_leading_slashes has_any]; [reflexivity |].
  intros H. destruct (Ascii.eqb c "/"); [| exact H].
  apply orb_false_elim in H. apply IH, H.
Qed.

Lemma strip_leading_slashes_head (s : string) :
  String.prefix "/" (strip_leading_slashes s) = false.
Proof.
  induction s as [| c rest IH]; cbn [strip_leading_slashes]; [reflexivity |].
  destruct (Ascii.eqb_spec c "/") as [-> | Hc]; [exact IH |].
  cbn [String.prefix]. destruct (ascii_dec "/" c) as [<- | _]; [contradiction |].
  reflexivity.
Qed.

(** X15. The handler that lists a directory of the device asks the bridge
    for one path, or for two when the first is refused and does not lie
    under [/sdcard]; every path it asks for starts with a slash and has
    no backslash, and the second is the first one moved under [/sdcard/].
    It resolves exactly when one of these paths can be read, with the
    listing of the last one asked. When it rejects it is always with the
    error of the first path: the error of the second is never reported. *)
Theorem listing_reports_the_first_error (A : Type)
    (readdir : string -> string -> promise A) (deviceId dirPath : string) :
  let first := list_files_path dirPath in
  let answer := fst (list_files readdir deviceId dirPath) in
  let asked := snd (list_files readdir deviceId dirPath) in
  Forall (fun q => String.prefix "/" q = true /\ has_any is_backslash q = false) asked
  /\ (asked = [first]
      \/ asked = [first; "/sdcard/" ++ strip_leading_slashes first]
         /\ is_resolved (readdir deviceId first) = false
         /\ first <> "/sdcard" /\ String.prefix "/sdcard/" first = false)
  /\ is_resolved answer = existsb (fun q => is_resolved (readdir deviceId q)) asked
  /\ (forall files, answer = Resolved files ->
        readdir deviceId (last asked first) = Resolved files)
  /\ (forall message, answer = Rejected message ->
        readdir deviceId first = Rejected message).
Proof.
  cbn zeta. unfold list_files.
  destruct (list_files_path_rooted dirPath) as [Hrooted Hclean].
  set (first := list_files_path dirPath) in *.
  destruct (readdir deviceId first) as [files | innerErr] eqn:Hfirst.
  - cbn [fst snd existsb is_resolved last]. rewrite Hfirst.
    split; [constructor; [split; assumption | constructor] |].
    split; [left; reflexivity |]. split; [reflexivity |].
    split; [intros ? H; exact H | intros ? H; discriminate H].
  - destruct (String.eqb_spec first "/sdcard") as [Hsd | Hsd]; cbn [negb andb].
    + cbn [fst snd existsb is_resolved last]. rewrite Hfirst.
      split; [constructor; [split; assumption | constructor] |].
      split; [left; reflexivity |]. split; [reflexivity |].
      split; [intros ? H; discriminate H | intros ? H; exact H].
    + destruct (String.prefix "/sdcard/" first) eqn:Hunder; cbn [negb].
      * cbn [fst snd existsb is_resolved last]. rewrite Hfirst.
        split; [constructor; [split; assumption | constructor] |].
        split; [left; reflexivity |]. split; [reflexivity |].
        split; [intros ? H; discriminate H | intros ? H; exact H].
      * assert (Hfallback :
                  String.prefix "/" ("/sdcard/" ++ strip_leading_slashes first) = true
                  /\ has_any is_backslash ("/sdcard/" ++ strip_leading_slashes first)
                     = false).
        { split; [reflexivity |].
          rewrite has_any_app, (strip_leading_slashes_clean _ Hclean). reflexivity. }
        destruct (readdir deviceId ("/sdcard/" ++ strip_leading_slashes first))
          as [files | fallbackErr] eqn:Hsecond;
          cbn [fst snd existsb is_resolved last]; rewrite Hfirst, Hsecond;
          (split; [apply Forall_cons; [split; assumption |];
                   apply Forall_cons; [exact Hfallback | apply Forall_nil] |]);
          (split; [right; split; [reflexivity |]; split; [reflexivity |];
                   split; [exact Hsd | reflexivity] |]);
          (split; [reflexivity |]);
          (split; [intros ? H; first [exact H | discriminate H]
                  | intros ? H; first [exact H | discriminate H]]).
Qed.

(** ** Selecting the items of a listing *)

Lemma mem_app (x : string) (s t : list string) :
  mem x (s ++ t) = mem x s || mem x t.
Proof. unfold mem. apply existsb_app. Qed.

Lemma mem_In (x : string) (s : list string) : mem x s = true <-> In x s.
Proof.
  unfold mem. rewrite existsb_exists. split.
  - intros (y & Hy & Heq). apply String.eqb_eq in Heq. subst y. exact Hy.
  - intros H. exists x. split; [exact H | apply String.eqb_refl].
Qed.

Lemma mem_Set_add (x name : string) (s : list string) :
  mem x (Set_add name s) = mem x s || String.eqb x name.
Proof.
  unfold Set_add. destruct (mem name s) eqn:Hname.
  - destruct (String.eqb_spec x name) as [-> | _];
      [rewrite Hname; reflexivity | rewrite orb_false_r; reflexivity].
  - rewrite mem_app. cbn [mem existsb]. rewrite orb_false_r. reflexivity.
Qed.

Lemma mem_Set_delete (x name : string) (s : list string) :
  mem x (Set_delete name s) = mem x s && negb (String.eqb x name).
Proof.
  unfold Set_delete, mem. induction s as [| y s IH]; [reflexivity |].
  cbn [filter existsb]. destruct (String.eqb_spec name y) as [<- | Hy]; cbn [negb].
  - rewrite IH. destruct (String.eqb x name); cbn [orb andb negb];
      [rewrite andb_false_r |]; reflexivity.
  - cbn [existsb]. rewrite IH.
    destruct (String.eqb_spec x y) as [-> | _]; cbn [orb]; [| reflexivity].
    destruct (String.eqb_spec y name) as [-> | _]; [contradiction | reflexivity].
Qed.

Lemma NoDup_Set_add (name : string) (s : list string) :
  NoDup s -> NoDup (Set_add name s).
Proof.
  intros Hs. unfold Set_add. destruct (mem name s) eqn:Hname; [exact Hs |].
  apply NoDup_app; [exact Hs | constructor; [intros [] | constructor] |].
  intros x Hx [<- | []]. apply mem_In in Hx. congruence.
Qed.

Lemma NoDup_Set_delete (name : string) (s : list string) :
  NoDup s -> NoDup (Set_delete name s).
Proof. intros Hs. apply NoDup_filter. exact Hs. Qed.

Lemma names_update_at (i : nat) (b : bool) (items : list file_item) :
  map dataset_name (update_at i (set_selected b) items) = map dataset_name items.
Proof.
  revert i. induction items as [| item rest IH]; intros i; [reflexivity |].
  destruct i as [| i]; cbn [update_at map]; [reflexivity |].
  rewrite IH. reflexivity.
Qed.

Lemma names_unmarked (items : list file_item) :
  map dataset_name (map (set_selected false) items) = map dataset_name items.
Proof. rewrite map_map. reflexivity. Qed.

(** In a listing without two items of one name, the element at an index
    is the one of its name. *)
Lemma update_at_by_name (i : nat) (b : bool) (items : list file_item)
    (itemElem : file_item) :
  NoDup (map dataset_name items) ->
  nth_error items i = Some itemElem ->
  update_at i (set_selected b) items
  = map (fun item =>
           if String.eqb (dataset_name item) (dataset_name itemElem)
           then set_selected b item else item) items.
Proof.
  revert i. induction items as [| item rest IH]; intros i Hnames Hi;
    [destruct i; discriminate |].
  cbn [map] in Hnames. inversion Hnames as [| ? ? Hfresh Hrest]; subst.
  destruct i as [| i]; cbn [nth_error] in Hi; cbn [update_at map].
  - injection Hi as ->. rewrite String.eqb_refl. f_equal.
    rewrite <- (map_id rest) at 1. apply map_ext_in. intros x Hx.
    destruct (String.eqb_spec (dataset_name x) (dataset_name itemElem)) as [Heq | _];
      [| reflexivity].
    exfalso. apply Hfresh. rewrite <- Heq. apply in_map. exact Hx.
  - destruct (String.eqb_spec (dataset_name item) (dataset_name itemElem))
      as [Heq | _].
    + exfalso. apply Hfresh. rewrite Heq. apply in_map.
      apply (nth_error_In _ _ Hi).
    + f_equal. apply (IH i Hrest Hi).
Qed.

Lemma mark_and_add (i : nat) (items : list file_item) (itemElem : file_item)
    (selectedItems : list string) (last : option string) :
  NoDup (map dataset_name items) ->
  nth_error items i = Some itemElem ->
  shown_as_selected {| fileItems := items; dataset_lastClicked := last |}
                    selectedItems ->
  shown_as_selected
    {| fileItems := update_at i (set_selected true) items;
       dataset_lastClicked := last |}
    (Set_add (dataset_name itemElem) selectedItems).
Proof.
  unfold shown_as_selected. cbn [fileItems]. intros Hnames Hi Hshown.
  rewrite (update_at_by_name i true items itemElem Hnames Hi).
  apply Forall_map. revert Hshown. apply Forall_impl. intros item Hitem.
  destruct (String.eqb_spec (dataset_name item) (dataset_name itemElem))
    as [Heq | Hneq]; cbn [set_selected selected dataset_name];
    rewrite mem_Set_add.
  - rewrite Heq, String.eqb_refl, orb_true_r. reflexivity.
  - rewrite Hitem. destruct (String.eqb_spec (dataset_name item) (dataset_name itemElem));
      [contradiction | rewrite orb_false_r; reflexivity].
Qed.

Lemma unmark_and_delete (i : nat) (items : list file_item) (itemElem : file_item)
    (selectedItems : list string) (last : option string) :
  NoDup (map dataset_name items) ->
  nth_error items i = Some itemElem ->
  shown_as_selected {| fileItems := items; dataset_lastClicked := last |}
                    selectedItems ->
  shown_as_selected
    {| fileItems := update_at i (set_selected false) items;
       dataset_lastClicked := last |}
    (Set_delete (dataset_name itemElem) selectedItems).
Proof.
  unfold shown_as_selected. cbn [fileItems]. intros Hnames Hi Hshown.
  rewrite (update_at_by_name i false items itemElem Hnames Hi).
  apply Forall_map. revert Hshown. apply Forall_impl. intros item Hitem.
  destruct (String.eqb_spec (dataset_name item) (dataset_name itemElem))
    as [Heq | Hneq]; cbn [set_selected selected dataset_name];
    rewrite mem_Set_delete.
  - rewrite Heq, String.eqb_refl, andb_false_r. reflexivity.
  - rewrite Hitem. destruct (String.eqb_spec (dataset_name item) (dataset_name itemElem));
      [contradiction | rewrite andb_true_r; reflexivity].
Qed.

Lemma nothing_marked (items : list file_item) (last : option string) :
  shown_as_selected
    {| fileItems := map (set_selected false) items; dataset_lastClicked := last |} [].
Proof.
  unfold shown_as_selected. cbn [fileItems]. apply Forall_map.
  apply Forall_forall. intros item _. reflexivity.
Qed.

Lemma shown_as_selected_items (items : list file_item) (last last' : option string)
    (selectedItems : list string) :
  shown_as_selected {| fileItems := items; dataset_lastClicked := last |} selectedItems ->
  shown_as_selected {| fileItems := items; dataset_lastClicked := last' |} selectedItems.
Proof. intros H. exact H. Qed.

Lemma select_range_in_step (count : nat) :
  forall (i : nat) (items : list file_item) (selectedItems : list string)
         (last : option string),
    NoDup (map dataset_name items) ->
    NoDup selectedItems ->
    shown_as_selected {| fileItems := items; dataset_lastClicked := last |}
                      selectedItems ->
    shown_as_selected
      {| fileItems := fst (select_range i count items selectedItems);
         dataset_lastClicked := last |}
      (snd (select_range i count items selectedItems))
    /\ map dataset_name (fst (select_range i count items selectedItems))
       = map dataset_name items
    /\ NoDup (snd (select_range i count items selectedItems)).
Proof.
  induction count as [| count IH]; intros i items selectedItems last Hnames Hsel Hshown;
    cbn [select_range].
  - cbn [fst snd]. repeat split; assumption.
  - destruct (nth_error items i) as [rangeItem |] eqn:Hi;
      [| cbn [fst snd]; repeat split; assumption].
    destruct (IH (S i) (update_at i (set_selected true) items)
                 (Set_add (dataset_name rangeItem) selectedItems) last)
      as (Hshown' & Hnames' & Hsel').
    + rewrite names_update_at. exact Hnames.
    + apply NoDup_Set_add. exact Hsel.
    + apply (mark_and_add i items rangeItem selectedItems last Hnames Hi Hshown).
    + split; [exact Hshown' |]. split; [| exact Hsel'].
      rewrite Hnames'. apply names_update_at.
Qed.

(** X16. In a listing without two items of one name, every click keeps
    what is shown in step with what is selected: if, before the click, an
    item is marked exactly when its name is in the selection, so it is
    afterwards, whatever the modifier keys and wherever the click falls.
    No click changes the names listed or puts a name in the selection
    twice. *)
Theorem click_keeps_marks_and_selection_in_step (e : mouse) (i : nat)
    (c : container) (selectedItems : list string)
    (Hnames : NoDup (names c))
    (Hselection : NoDup selectedItems)
    (Hshown : shown_as_selected c selectedItems) :
  shown_as_selected (fst (click e i c selectedItems)) (snd (click e i c selectedItems))
  /\ names (fst (click e i c selectedItems)) = names c
  /\ NoDup (snd (click e i c selectedItems)).
Proof.
  destruct c as [items last]. unfold names in *. cbn [fileItems] in Hnames.
  unfold click. cbn [fileItems dataset_lastClicked].
  destruct (on_view_btn e); [cbn [fst snd fileItems]; repeat split; assumption |].
  destruct (nth_error items i) as [itemElem |] eqn:Hi;
    [| cbn [fst snd fileItems]; repeat split; assumption].
  set (lastClicked := if negb (shiftKey e) then Some (dataset_name itemElem) else last).
  assert (Hshown0 : shown_as_selected
                      {| fileItems := items; dataset_lastClicked := lastClicked |}
                      selectedItems) by exact Hshown.
  destruct (ctrlKey e || metaKey e) eqn:Hmodifier.
  - destruct (mem (dataset_name itemElem) selectedItems) eqn:Hhas;
      cbn [fst snd fileItems].
    + split; [apply unmark_and_delete; assumption |].
      split; [apply names_update_at | apply NoDup_Set_delete; assumption].
    + split; [apply mark_and_add; assumption |].
      split; [apply names_update_at | apply NoDup_Set_add; assumption].
  - apply orb_false_elim in Hmodifier. destruct Hmodifier as [-> ->].
    cbn [negb andb].
    assert (Hplain : forall (cleared : bool),
               let shown := if cleared then map (set_selected false) items else items in
               let chosen := if cleared then [] else selectedItems in
               NoDup (map dataset_name shown) /\ NoDup chosen
               /\ map dataset_name shown = map dataset_name items
               /\ shown_as_selected
                    {| fileItems := shown; dataset_lastClicked := lastClicked |} chosen).
    { intros [|]; cbn zeta.
      - rewrite names_unmarked. repeat split;
          [exact Hnames | constructor | apply nothing_marked].
      - repeat split; assumption. }
    destruct (shiftKey e && truthy lastClicked) eqn:Hshift.
    + destruct (option_map (fun lc => findIndex lc items) lastClicked)
        as [[startIdx |] |]; try (cbn [fst snd fileItems]; repeat split; assumption).
      destruct (findIndex (dataset_name itemElem) items) as [endIdx |];
        try (cbn [fst snd fileItems]; repeat split; assumption).
      destruct (Hplain true) as (Hn & Hc & Hsame & Hs).
      destruct (select_range_in_step
                  (S (Nat.max startIdx endIdx - Nat.min startIdx endIdx))
                  (Nat.min startIdx endIdx) _ _ lastClicked Hn Hc Hs)
        as (Hshown' & Hnames' & Hsel').
      destruct (select_range (Nat.min startIdx endIdx)
                  (S (Nat.max startIdx endIdx - Nat.min startIdx endIdx))
                  (map (set_selected false) items) []) as [marked chosen].
      cbn [fst snd fileItems] in *.
      split; [exact Hshown' |]. split; [| exact Hsel'].
      rewrite Hnames'. exact Hsame.
    + destruct (Hplain (negb (shiftKey e))) as (Hn & Hc & Hsame & Hs).
      cbn zeta in *. cbn [fst snd fileItems].
      assert (Hi' : nth_error
                      (if negb (shiftKey e) then map (set_selected false) items
                       else items) i
                    = Some (set_selected (if negb (shiftKey e) then false
                                          else selected itemElem) itemElem)).
      { destruct (negb (shiftKey e)).
        - rewrite nth_error_map, Hi. reflexivity.
        - rewrite Hi. destruct itemElem; reflexivity. }
      split; [| split].
      * apply (mark_and_add i _ _ _ lastClicked Hn Hi' Hs).
      * rewrite names_update_at. exact Hsame.
      * apply NoDup_Set_add. exact Hc.
Qed.

Lemma click_keeps_marks_and_selection_in_step_witness :
  shown_as_selected
    (fst (click shift_click 2 (three_items (Some "a.txt")) []))
    ["a.txt"; "b.txt"; "c.txt"].
Proof.
  apply (click_keeps_marks_and_selection_in_step shift_click 2
           (three_items (Some "a.txt")) []).
  - unfold names. cbn. repeat constructor; cbn; intuition discriminate.
  - constructor.
  - unfold shown_as_selected. cbn. repeat constructor.
Defined.

Lemma findIndex_nth (items : list file_item) :
  forall (i : nat) (name : string),
    NoDup (map dataset_name items) ->
    nth_error (map dataset_name items) i = Some name ->
    findIndex name items = Some i.
Proof.
  induction items as [| item rest IH]; intros i name Hnames Hi;
    [destruct i; discriminate |].
  cbn [map] in Hnames. inversion Hnames as [| ? ? Hfresh Hrest]; subst.
  destruct i as [| i]; cbn [map nth_error] in Hi; cbn [findIndex].
  - injection Hi as ->. rewrite String.eqb_refl. reflexivity.
  - destruct (String.eqb_spec (dataset_name item) name) as [Heq | _].
    + exfalso. apply Hfresh. rewrite Heq. apply (nth_error_In _ _ Hi).
    + rewrite (IH i name Hrest Hi). reflexivity.
Qed.

Lemma findIndex_absent (items : list file_item) (name : string) :
  ~ In name (map dataset_name items) -> findIndex name items = None.
Proof.
  induction items as [| item rest IH]; intros Habsent; [reflexivity |].
  cbn [findIndex]. cbn [map In] in Habsent.
  destruct (String.eqb_spec (dataset_name item) name) as [Heq | _];
    [exfalso; apply Habsent; left; exact Heq |].
  rewrite IH; [reflexivity |]. intros H. apply Habsent. right. exact H.
Qed.

Lemma skipn_nth {A} (l : list A) :
  forall (i : nat) (x : A),
    nth_error l i = Some x -> skipn i l = x :: skipn (S i) l.
Proof.
  induction l as [| y l IH]; intros i x Hi; [destruct i; discriminate |].
  destruct i as [| i]; cbn [nth_error] in Hi.
  - injection Hi as ->. reflexivity.
  - cbn [skipn]. rewrite (IH i x Hi). reflexivity.
Qed.

Lemma select_range_names (count : nat) :
  forall (i : nat) (items : list file_item) (selectedItems : list string),
    i + count <= List.length items ->
    snd (select_range i count items selectedItems)
    = fold_left (fun s name => Set_add name s)
                (firstn count (skipn i (map dataset_name items))) selectedItems.
Proof.
  induction count as [| count IH]; intros i items selectedItems Hlen;
    cbn [select_range]; [reflexivity |].
  destruct (nth_error items i) as [rangeItem |] eqn:Hi.
  - rewrite IH.
    + rewrite names_update_at.
      rewrite (skipn_nth (map dataset_name items) i (dataset_name rangeItem))
        by (rewrite nth_error_map, Hi; reflexivity).
      reflexivity.
    + assert (Hsame : List.length (update_at i (set_selected true) items)
                      = List.length items).
      { rewrite <- (length_map dataset_name), names_update_at. apply length_map. }
      rewrite Hsame. lia.
  - apply nth_error_None in Hi. lia.
Qed.

Lemma fold_Set_add_fresh (l : list string) :
  forall s, NoDup (s ++ l) ->
            fold_left (fun s name => Set_add name s) l s = (s ++ l)%list.
Proof.
  induction l as [| x l IH]; intros s Hfresh; cbn [fold_left].
  - rewrite app_nil_r. reflexivity.
  - assert (Hx : mem x s = false).
    { destruct (mem x s) eqn:Hmem; [| reflexivity]. apply mem_In in Hmem.
      apply NoDup_remove_2 in Hfresh. exfalso. apply Hfresh.
      apply in_or_app. left. exact Hmem. }
    unfold Set_add at 2. rewrite Hx.
    rewrite IH by (rewrite <- app_assoc; exact Hfresh).
    rewrite <- app_assoc. reflexivity.
Qed.

Lemma NoDup_stretch {A} (l : list A) (i count : nat) :
  NoDup l -> NoDup (firstn count (skipn i l)).
Proof.
  intros H. rewrite <- (firstn_skipn i l) in H. apply NoDup_app_remove_l in H.
  rewrite <- (firstn_skipn count (skipn i l)) in H.
  apply NoDup_app_remove_r in H. exact H.
Qed.

(** X17. In a listing without two items of one name, a click with the
    shift key on the item at index [j], when the last click without it
    fell on the item at index [i], selects the items from the one to the
    other, both included, in the order of the listing and whichever of
    the two comes first; what was selected before is dropped. The anchor
    of the range stays where it was. *)
Theorem shift_click_selects_the_range (c : container) (selectedItems : list string)
    (i j : nat) (anchor target : string)
    (Hnames : NoDup (names c))
    (Hi : nth_error (names c) i = Some anchor)
    (Hj : nth_error (names c) j = Some target)
    (Hanchor : dataset_lastClicked c = Some anchor)
    (Hnamed : anchor <> EmptyString) :
  snd (click shift_click j c selectedItems)
  = firstn (S (Nat.max i j - Nat.min i j)) (skipn (Nat.min i j) (names c))
  /\ dataset_lastClicked (fst (click shift_click j c selectedItems)) = Some anchor.
Proof.
  destruct c as [items last]. unfold names in *.
  cbn [fileItems dataset_lastClicked] in *. subst last.
  unfold click. cbn [on_view_btn shift_click shiftKey ctrlKey metaKey negb orb andb
                      fileItems dataset_lastClicked option_map].
  assert (Hlength : i < List.length items /\ j < List.length items).
  { rewrite <- (length_map dataset_name items).
    split; apply nth_error_Some; congruence. }
  destruct (nth_error items j) as [itemElem |] eqn:Hitem;
    [| apply nth_error_None in Hitem; lia].
  assert (Htarget : dataset_name itemElem = target).
  { rewrite nth_error_map, Hitem in Hj. cbn in Hj. congruence. }
  assert (Htruthy : truthy (Some anchor) = true).
  { destruct anchor; [contradiction | reflexivity]. }
  rewrite Htruthy, (findIndex_nth items i anchor Hnames Hi), Htarget,
    (findIndex_nth items j target Hnames Hj).
  pose proof (select_range_names (S (Nat.max i j - Nat.min i j)) (Nat.min i j)
                (map (set_selected false) items) []) as Hrange.
  rewrite length_map, names_unmarked in Hrange.
  specialize (Hrange ltac:(lia)).
  destruct (select_range (Nat.min i j) (S (Nat.max i j - Nat.min i j))
              (map (set_selected false) items) []) as [marked chosen].
  cbn [fst snd dataset_lastClicked] in *. split; [| reflexivity].
  rewrite Hrange. apply (fold_Set_add_fresh _ []). cbn [List.app].
  apply NoDup_stretch. exact Hnames.
Qed.

Lemma shift_click_selects_the_range_witness :
  snd (click shift_click 0 (three_items (Some "c.txt")) ["b.txt"])
  = ["a.txt"; "b.txt"; "c.txt"]
  /\ dataset_lastClicked (fst (click shift_click 0 (three_items (Some "c.txt")) ["b.txt"]))
     = Some "c.txt".
Proof.
  apply (shift_click_selects_the_range (three_items (Some "c.txt")) ["b.txt"]
           2 0 "c.txt" "a.txt").
  - unfold names. cbn. repeat constructor; cbn; intuition discriminate.
  - reflexivity.
  - reflexivity.
  - reflexivity.
  - discriminate.
Defined.

(** X18. A click with the shift key does nothing at all when the item
    clicked last without it is no longer in the listing, as after a move
    to another folder: the selection and the marks stay as they are, and
    the item under the pointer is not selected. *)
Theorem shift_click_without_its_anchor_does_nothing (c : container)
    (selectedItems : list string) (j : nat) (anchor : string)
    (Hanchor : dataset_lastClicked c = Some anchor)
    (Hnamed : anchor <> EmptyString)
    (Hgone : ~ In anchor (names c)) :
  click shift_click j c selectedItems = (c, selectedItems).
Proof.
  destruct c as [items last]. unfold names in *.
  cbn [fileItems dataset_lastClicked] in *. subst last.
  unfold click. cbn [on_view_btn shift_click shiftKey ctrlKey metaKey negb orb andb
                      fileItems dataset_lastClicked option_map].
  destruct (nth_error items j) as [itemElem |]; [| reflexivity].
  assert (Htruthy : truthy (Some anchor) = true).
  { destruct anchor; [contradiction | reflexivity]. }
  rewrite Htruthy, (findIndex_absent items anchor Hgone). reflexivity.
Qed.

Lemma shift_click_without_its_anchor_does_nothing_witness :
  click shift_click 1 (three_items (Some "old.txt")) ["a.txt"]
  = (three_items (Some "old.txt"), ["a.txt"]).
Proof.
  apply (shift_click_without_its_anchor_does_nothing
           (three_items (Some "old.txt")) ["a.txt"] 1 "old.txt").
  - reflexivity.
  - discriminate.
  - unfold names. cbn. intuition discriminate.
Defined.

(** ** Deleting *)

Lemma delete_requests_app (t u : list ui_event) :
  delete_requests (t ++ u) = (delete_requests t ++ delete_requests u)%list.
Proof. unfold delete_requests. apply flat_map_app. Qed.

Lemma removed_locally_app (t u : list ui_event) :
  removed_locally (t ++ u) = (removed_locally t ++ removed_locally u)%list.
Proof. unfold removed_locally. apply flat_map_app. Qed.

Lemma result_eq (a a' b b' : nat) :
  a = a' -> b = b' -> {| success := a; errors := b |} = {| success := a'; errors := b' |}.
Proof. intros -> ->. reflexivity. Qed.

Lemma tally_nil (channel : delete_channel) (r : result) : tally channel [] r = r.
Proof. destruct r. unfold tally. cbn. apply result_eq; lia. Qed.

Lemma tally_app (channel : delete_channel) (l1 l2 : list (string * string * bool))
    (r : result) :
  tally channel (l1 ++ l2) r = tally channel l2 (tally channel l1 r).
Proof.
  unfold tally. cbn [success errors].
  rewrite !map_app, !filter_app, !length_app. apply result_eq; lia.
Qed.

Lemma tally_sum (channel : delete_channel) (requests : list (string * string * bool))
    (r : result) :
  success (tally channel requests r) + errors (tally channel requests r)
  = success r + errors r + List.length requests.
Proof.
  unfold tally, is_rejected. cbn [success errors].
  induction requests as [| request rest IH]; cbn [map filter List.length]; [lia |].
  destruct (is_resolved (ask channel request)); cbn [negb List.length]; lia.
Qed.

Lemma delete_requests_events (requests : list (string * string * bool)) :
  delete_requests (map request_event requests) = requests.
Proof.
  induction requests as [| [[d p] b] rest IH]; [reflexivity |].
  cbn [map]. change (delete_requests (request_event (d, p, b) :: ?l))
    with ((d, p, b) :: delete_requests l).
  rewrite IH. reflexivity.
Qed.

(** One iteration of the loop of the Android delete button. *)
Lemma android_delete_step (host : node_path) (channel : delete_channel)
    (w : world) (name : string) (r : result) :
  android_delete_one host channel w name r
  = (Resolved (tally channel [android_delete_request host w name] r),
     [request_event (android_delete_request host w name)]).
Proof.
  unfold android_delete_one, deleteAndroidItem, tally, ask, android_delete_request,
    request_event, is_rejected.
  cbn [map filter].
  destruct (channel _ _ _); cbn [is_resolved negb List.length one_more_success
                                  one_more_error];
    (apply f_equal2; [apply f_equal, result_eq; lia | reflexivity]).
Qed.

(** The loop when the handler is left alone. *)
Lemma android_delete_quiet (host : node_path) (channel : delete_channel) (w : world)
    (items : list string) :
  forall r,
    for_of_items (android_delete_one host channel w) items r
    = (Resolved (tally channel (map (android_delete_request host w) items) r),
       map request_event (map (android_delete_request host w) items)).
Proof.
  induction items as [| name rest IH]; intros r.
  - cbn [for_of_items map]. rewrite tally_nil. reflexivity.
  - cbn [for_of_items map]. rewrite android_delete_step, IH.
    change (android_delete_request host w name
              :: map (android_delete_request host w) rest)
      with ([android_delete_request host w name]
              ++ map (android_delete_request host w) rest)%list.
    rewrite tally_app. reflexivity.
Qed.

(** The loop, whatever the other listeners do meanwhile: it never throws,
    its trace consists of its requests, and it counts their answers. *)
Lemma android_delete_live (host : node_path) (channel : delete_channel)
    (meanwhile : list (world -> world)) :
  forall w index r,
  exists w' requests,
    for_of_live androidSelectedItems_now (android_delete_one host channel)
                meanwhile w index r
    = (w', Resolved (tally channel requests r), map request_event requests).
Proof.
  induction meanwhile as [| others later IH]; intros w index r; cbn [for_of_live].
  - rewrite android_delete_quiet. eexists; eexists; reflexivity.
  - destruct (next_entry (androidSelectedItems_now w) index) as [[name index'] |].
    + rewrite android_delete_step.
      destruct (IH (others w) index'
                   (tally channel [android_delete_request host w name] r))
        as (w' & requests & ->).
      exists w', (android_delete_request host w name :: requests).
      change (android_delete_request host w name :: requests)
        with ([android_delete_request host w name] ++ requests)%list.
      rewrite tally_app. reflexivity.
    + exists w, []. rewrite tally_nil. reflexivity.
Qed.

Lemma live_values_clear (entries : list (option string)) :
  live_values (live_clear entries) = [].
Proof.
  induction entries as [| e rest IH]; [reflexivity |]. exact IH.
Qed.

(** X19. The Android delete button sends no request and leaves everything
    as it is unless a device is chosen, something is selected and the
    question is answered with yes. Then, whatever the other listeners do
    to the state, the selections and the list while its requests are
    awaited, its trace is the question, the announcement, its requests,
    and then the clearing of the selections, the report and the reload;
    it reports as deleted the number of its requests that resolved and as
    errors the number that rejected, which together make the number of
    requests it sent; and it leaves both selections empty. When nothing
    else runs meanwhile, it sends one request for every item selected at
    the click, in the order of the selection. *)
Theorem android_delete_asks_for_every_selected_item (host : node_path)
    (confirm : string -> bool) (channel : delete_channel)
    (meanwhile : list (world -> world)) (w : world) :
  let w' := fst (androidDeleteBtn_click host confirm channel meanwhile w) in
  let t := snd (androidDeleteBtn_click host confirm channel meanwhile w) in
  let size := live_size (androidSelectedItems_now w) in
  if android_delete_agreed confirm w then
    live_values (androidSelectedItems_now w') = []
    /\ live_values (localSelectedItems_now w') = []
    /\ (exists requests,
          t = ([ShowConfirmationDialog (delete_question size);
                SetStatusText ("Deleting " ++ show_nat size ++ " Android item(s)...")]
               ++ map request_event requests
               ++ [ClearSelections;
                   SetStatusText
                     (deleted_status
                        (tally channel requests {| success := 0; errors := 0 |}));
                   LoadAndroidFiles])%list
          /\ success (tally channel requests {| success := 0; errors := 0 |})
             + errors (tally channel requests {| success := 0; errors := 0 |})
             = List.length requests)
    /\ delete_requests (snd (androidDeleteBtn_click host confirm channel [] w))
       = map (android_delete_request host w)
             (live_values (androidSelectedItems_now w))
  else w' = w /\ delete_requests t = [].
Proof.
  cbn zeta. unfold android_delete_agreed, androidDeleteBtn_click.
  destruct (no_device_now w); cbn [negb andb fst snd]; [split; reflexivity |].
  destruct (Nat.eqb (live_size (androidSelectedItems_now w)) 0);
    cbn [negb andb fst snd]; [split; reflexivity |].
  destruct (confirm (delete_question (live_size (androidSelectedItems_now w))));
    cbn [negb fst snd]; [| split; reflexivity].
  destruct (android_delete_live host channel meanwhile w 0
              {| success := 0; errors := 0 |}) as (w' & requests & ->).
  cbn [fst snd clearSelections_now androidSelectedItems_now localSelectedItems_now].
  rewrite !live_values_clear.
  split; [reflexivity |]. split; [reflexivity |]. split.
  - exists requests. split; [reflexivity |]. rewrite tally_sum. reflexivity.
  - cbn [for_of_live skipn]. rewrite android_delete_quiet. cbn [snd].
    rewrite !delete_requests_app, delete_requests_events.
    cbn [delete_requests flat_map List.app]. apply app_nil_r.
Qed.

Lemma main_delete_item_answers (c : Main.client) (request : string * string * bool) :
  is_resolved (ask (main_delete_item c) request) = true.
Proof.
  destruct request as [[d p] b]. unfold ask, main_delete_item, Main.delete_item.
  destruct (try_await_resolves (Main.shell c d (Main.rm_command p b))) as [r ->].
  reflexivity.
Qed.

Lemma tally_main_process (c : Main.client) (requests : list (string * string * bool)) :
  tally (main_delete_item c) requests {| success := 0; errors := 0 |}
  = {| success := List.length requests; errors := 0 |}.
Proof.
  unfold tally, is_rejected. cbn [success errors Nat.add].
  induction requests as [| request rest IH]; [reflexivity |].
  cbn [map filter]. rewrite (main_delete_item_answers c request).
  cbn [negb List.length]. injection IH as -> ->. reflexivity.
Qed.

(** X20. Served by the handler of the main process, the Android delete
    button never counts an error: once a device is chosen, something is
    selected and the question is answered with yes, it reports every
    request it sent as an item deleted, with zero errors, whatever the
    bridge answers to the commands and whatever the other listeners do
    while the requests are awaited. *)
Theorem android_delete_never_counts_an_error (host : node_path)
    (confirm : string -> bool) (c : Main.client)
    (meanwhile : list (world -> world)) (w : world)
    (Hagreed : android_delete_agreed confirm w = true) :
  exists requests,
    snd (androidDeleteBtn_click host confirm (main_delete_item c) meanwhile w)
    = ([ShowConfirmationDialog
          (delete_question (live_size (androidSelectedItems_now w)));
        SetStatusText ("Deleting "
                       ++ show_nat (live_size (androidSelectedItems_now w))
                       ++ " Android item(s)...")]
       ++ map request_event requests
       ++ [ClearSelections;
           SetStatusText
             (deleted_status {| success := List.length requests; errors := 0 |});
           LoadAndroidFiles])%list.
Proof.
  unfold android_delete_agreed in Hagreed. unfold androidDeleteBtn_click.
  apply andb_prop in Hagreed. destruct Hagreed as [Hagreed Hyes].
  apply andb_prop in Hagreed. destruct Hagreed as [Hdevice Hsome].
  destruct (no_device_now w); [discriminate |].
  destruct (Nat.eqb (live_size (androidSelectedItems_now w)) 0); [discriminate |].
  rewrite Hyes. cbn [negb].
  destruct (android_delete_live host (main_delete_item c) meanwhile w 0
              {| success := 0; errors := 0 |}) as (w' & requests & ->).
  exists requests. cbn [snd]. rewrite tally_main_process. reflexivity.
Qed.

(** While [Pictures] is being deleted on a bridge that refuses every
    command, the user selects [clip.mp4] and moves to [DCIM]: the loop
    goes on with the selection and the path as they are then, and all
    three requests are reported as items deleted. *)
Lemma android_delete_never_counts_an_error_witness :
  exists requests,
    snd (androidDeleteBtn_click posix (fun _ => true) (main_delete_item shell_refusing)
           [selects_and_moves] (world_of rendered_list two_selected_on_device))
    = ([ShowConfirmationDialog "Delete 2 selected item(s)?";
        SetStatusText "Deleting 2 Android item(s)..."]
       ++ map request_event requests
       ++ [ClearSelections;
           SetStatusText
             (deleted_status {| success := List.length requests; errors := 0 |});
           LoadAndroidFiles])%list.
Proof.
  apply (android_delete_never_counts_an_error posix (fun _ => true) shell_refusing
           [selects_and_moves] (world_of rendered_list two_selected_on_device)).
  reflexivity.
Defined.

Lemma delete_follows_the_selection_as_it_is :
  snd (androidDeleteBtn_click posix (fun _ => true) (main_delete_item shell_refusing)
         [selects_and_moves] (world_of rendered_list two_selected_on_device))
  = [ShowConfirmationDialog "Delete 2 selected item(s)?";
     SetStatusText "Deleting 2 Android item(s)...";
     InvokeDeleteItem "emulator-5554" "/sdcard/Pictures" true;
     InvokeDeleteItem "emulator-5554" "/sdcard/DCIM/song.mp3" false;
     InvokeDeleteItem "emulator-5554" "/sdcard/DCIM/clip.mp4" false;
     ClearSelections;
     SetStatusText "Deleted 3 item(s). Errors: 0.";
     LoadAndroidFiles].
Proof. reflexivity. Qed.

Lemma statuses_app (t u : list ui_event) :
  statuses (t ++ u) = (statuses t ++ statuses u)%list.
Proof. unfold statuses. apply flat_map_app. Qed.

Lemma clears_selections_app (t u : list ui_event) :
  clears_selections (t ++ u) = clears_selections t || clears_selections u.
Proof. unfold clears_selections. apply existsb_app. Qed.

(** One iteration of the local loop, when the item can be examined. *)
Lemma local_delete_step (host : node_path) (stat_of : string -> local_stat)
    (rimraf unlinkSync : string -> promise unit) (st : state) (name : string)
    (r : result) :
  stat_fails (stat_of (join host (localPath st) name)) = false ->
  exists r' t,
    local_delete_one host stat_of rimraf unlinkSync st name r = (Resolved r', t)
    /\ success r' + errors r' = S (success r + errors r)
    /\ removed_locally t = [join host (localPath st) name]
    /\ statuses t = [] /\ clears_selections t = false.
Proof.
  intros Hstat. unfold local_delete_one, deleteLocalItem.
  destruct (stat_of (join host (localPath st) name)) as [| message | |];
    try discriminate Hstat.
  - destruct (unlinkSync _); eexists; eexists; (split; [reflexivity |]);
      cbn; repeat split; lia.
  - destruct (unlinkSync _); eexists; eexists; (split; [reflexivity |]);
      cbn; repeat split; lia.
  - destruct (rimraf _); eexists; eexists; (split; [reflexivity |]);
      cbn; repeat split; lia.
Qed.

Lemma local_delete_loop_stops (host : node_path) (stat_of : string -> local_stat)
    (rimraf unlinkSync : string -> promise unit) (st : state)
    (before : list string) (bad : string) (rest : list string) (message : string) :
  Forall (fun name => stat_fails (stat_of (join host (localPath st) name)) = false)
         before ->
  stat_of (join host (localPath st) bad) = StatThrows message ->
  forall r, exists t,
    for_of_items (local_delete_one host stat_of rimraf unlinkSync st)
                 (before ++ bad :: rest) r
    = (Rejected message, t)
    /\ removed_locally t = map (join host (localPath st)) before
    /\ statuses t = [] /\ clears_selections t = false.
Proof.
  intros Hbefore Hbad. induction Hbefore as [| name before Hname _ IH]; intros r.
  - exists []. cbn [List.app for_of_items]. unfold local_delete_one at 1.
    rewrite Hbad. repeat split; reflexivity.
  - destruct (local_delete_step host stat_of rimraf unlinkSync st name r Hname)
      as (r1 & t1 & Hstep & _ & Hremoved1 & Hstatus1 & Hclear1).
    destruct (IH r1) as (t2 & Hloop & Hremoved2 & Hstatus2 & Hclear2).
    exists (t1 ++ t2)%list. cbn [List.app for_of_items]. rewrite Hstep, Hloop.
    split; [reflexivity |].
    rewrite removed_locally_app, statuses_app, clears_selections_app,
      Hremoved1, Hremoved2, Hstatus1, Hstatus2, Hclear1, Hclear2.
    repeat split; reflexivity.
Qed.

(** X22. When [fs.statSync] throws for a selected item, the local delete
    button is left at that item: the items before it have been dealt
    with, the ones after it are not touched, the handler throws the error
    of [fs.statSync], the selections are not cleared, and the status bar
    keeps the text that announced the deletion. *)
Theorem local_delete_stops_at_a_failed_stat (host : node_path)
    (confirm : string -> bool) (stat_of : string -> local_stat)
    (rimraf unlinkSync : string -> promise unit) (st : state)
    (before : list string) (bad : string) (rest : list string) (message : string)
    (Hselection : localSelectedItems st = (before ++ bad :: rest)%list)
    (Hyes : confirm (delete_question (List.length (localSelectedItems st))) = true)
    (Hbefore : Forall (fun name =>
                         stat_fails (stat_of (join host (localPath st) name)) = false)
                      before)
    (Hbad : stat_of (join host (localPath st) bad) = StatThrows message) :
  let '(st', t, outcome) :=
    localDeleteBtn_click host confirm stat_of rimraf unlinkSync st in
  outcome = Rejected message
  /\ st' = st
  /\ removed_locally t = map (join host (localPath st)) before
  /\ statuses t
     = ["Deleting " ++ show_nat (List.length (localSelectedItems st))
        ++ " local item(s)..."]
  /\ clears_selections t = false.
Proof.
  unfold localDeleteBtn_click.
  destruct (Nat.eqb_spec (List.length (localSelectedItems st)) 0) as [Hnone | _].
  - rewrite Hselection in Hnone. destruct before; discriminate.
  - rewrite Hyes. cbn [negb].
    destruct (local_delete_loop_stops host stat_of rimraf unlinkSync st
                before bad rest message Hbefore Hbad {| success := 0; errors := 0 |})
      as (t & Hloop & Hremoved & Hstatus & Hclear).
    rewrite <- Hselection in Hloop. rewrite Hloop.
    rewrite removed_locally_app, statuses_app, clears_selections_app,
      Hremoved, Hstatus, Hclear.
    repeat split; reflexivity.
Qed.

Lemma local_delete_stops_at_a_failed_stat_witness :
  let '(st', t, outcome) :=
    localDeleteBtn_click posix (fun _ => true) host_stat nothing_removable
      nothing_removable locked_selected in
  outcome = Rejected "EACCES"
  /\ st' = locked_selected
  /\ removed_locally t = ["/home/user/notes.txt"]
  /\ statuses t = ["Deleting 3 local item(s)..."]
  /\ clears_selections t = false.
Proof.
  apply (local_delete_stops_at_a_failed_stat posix (fun _ => true) host_stat
           nothing_removable nothing_removable locked_selected
           ["notes.txt"] "locked" ["Music"] "EACCES").
  - reflexivity.
  - reflexivity.
  - repeat constructor.
  - reflexivity.
Defined.

(** One iteration of the local loop in the world as it is, when the item
    can be examined: one removal, which suits what [fs.statSync] says,
    counted once. *)
Lemma local_delete_step_now (host : node_path) (stat_of : string -> local_stat)
    (rimraf unlinkSync : string -> promise unit) (w : world) (name : string)
    (r : result) :
  stat_fails (stat_of (join host (localPath_now w) name)) = false ->
  exists r',
    local_delete_one_now host stat_of rimraf unlinkSync w name r
    = (Resolved r', [removal host stat_of w name])
    /\ success r' + errors r' = S (success r + errors r)
    /\ suits stat_of (removal host stat_of w name).
Proof.
  intros Hstat. unfold local_delete_one_now, deleteLocalItem, removal, suits.
  destruct (stat_of (join host (localPath_now w) name)) as [| message | |] eqn:Hfound;
    try discriminate Hstat; cbn [is_directory].
  - destruct (unlinkSync _); eexists; (split; [reflexivity |]);
      rewrite Hfound; cbn; split; [lia | reflexivity | lia | reflexivity].
  - destruct (unlinkSync _); eexists; (split; [reflexivity |]);
      rewrite Hfound; cbn; split; [lia | reflexivity | lia | reflexivity].
  - destruct (rimraf _); eexists; (split; [reflexivity |]);
      rewrite Hfound; cbn; split; [lia | reflexivity | lia | reflexivity].
Qed.

Lemma local_delete_quiet (host : node_path) (stat_of : string -> local_stat)
    (rimraf unlinkSync : string -> promise unit) (w : world)
    (Hstat : forall p, stat_fails (stat_of p) = false) (items : list string) :
  forall r, exists r',
    for_of_items (local_delete_one_now host stat_of rimraf unlinkSync w) items r
    = (Resolved r', map (removal host stat_of w) items)
    /\ success r' + errors r' = success r + errors r + List.length items
    /\ Forall (suits stat_of) (map (removal host stat_of w) items).
Proof.
  induction items as [| name rest IH]; intros r.
  - exists r. cbn. repeat split; [lia | constructor].
  - destruct (local_delete_step_now host stat_of rimraf unlinkSync w name r
                (Hstat _)) as (r1 & Hstep & Hcount1 & Hsuits).
    destruct (IH r1) as (r2 & Hloop & Hcount2 & Hall).
    exists r2. cbn [for_of_items map]. rewrite Hstep, Hloop.
    split; [reflexivity |]. split; [cbn [List.length]; lia |].
    constructor; assumption.
Qed.

Lemma local_delete_live (host : node_path) (stat_of : string -> local_stat)
    (rimraf unlinkSync : string -> promise unit)
    (Hstat : forall p, stat_fails (stat_of p) = false)
    (meanwhile : list (world -> world)) :
  forall w index r,
  exists w' r' removals,
    for_of_live localSelectedItems_now
                (local_delete_one_now host stat_of rimraf unlinkSync)
                meanwhile w index r
    = (w', Resolved r', removals)
    /\ success r' + errors r' = success r + errors r + List.length removals
    /\ Forall (suits stat_of) removals.
Proof.
  induction meanwhile as [| others later IH]; intros w index r; cbn [for_of_live].
  - destruct (local_delete_quiet host stat_of rimraf unlinkSync w Hstat
                (live_values (skipn index (localSelectedItems_now w))) r)
      as (r' & -> & Hcount & Hall).
    exists w, r'. eexists. split; [reflexivity |]. split; [| exact Hall].
    rewrite length_map. exact Hcount.
  - destruct (next_entry (localSelectedItems_now w) index) as [[name index'] |].
    + destruct (local_delete_step_now host stat_of rimraf unlinkSync w name r
                  (Hstat _)) as (r1 & -> & Hcount1 & Hsuits).
      destruct (IH (others w) index' r1)
        as (w' & r2 & removals & -> & Hcount2 & Hall).
      exists w', r2, (removal host stat_of w name :: removals).
      split; [reflexivity |]. split; [cbn [List.length]; lia |].
      constructor; assumption.
    + exists w, r, []. split; [reflexivity |]. split; [cbn; lia | constructor].
Qed.

(** X21. Once something is selected on the host and the question is
    answered with yes, and as long as [fs.statSync] throws for no path,
    the local delete button returns, whatever the other listeners do
    while it awaits a removal: its trace is the question, the
    announcement, its removals, and then the clearing of the selections,
    the report and the reload; every removal is made with [rimraf] when
    [fs.statSync] says the path is a directory and with [fs.unlinkSync]
    when it does not; the numbers of deleted items and of errors it
    reports add up to the number of removals; and it leaves both
    selections empty. When nothing else runs meanwhile, there is one
    removal for every item selected at the click, in the order of the
    selection, and the numbers add up to the size of the selection. *)
Theorem local_delete_reports_every_item (host : node_path) (confirm : string -> bool)
    (stat_of : string -> local_stat) (rimraf unlinkSync : string -> promise unit)
    (meanwhile : list (world -> world)) (w : world)
    (Hagreed : local_delete_agreed confirm w = true)
    (Hstat : forall p, stat_fails (stat_of p) = false) :
  let size := live_size (localSelectedItems_now w) in
  let opening :=
    [ShowConfirmationDialog (delete_question size);
     SetStatusText ("Deleting " ++ show_nat size ++ " local item(s)...")] in
  (exists w' r removals,
      localDeleteBtn_click_meanwhile host confirm stat_of rimraf unlinkSync meanwhile w
      = (w',
         (opening ++ removals
          ++ [ClearSelections; SetStatusText (deleted_status r); LoadLocalFiles])%list,
         Resolved tt)
      /\ success r + errors r = List.length removals
      /\ Forall (suits stat_of) removals
      /\ live_values (localSelectedItems_now w') = []
      /\ live_values (androidSelectedItems_now w') = [])
  /\ (exists r,
        localDeleteBtn_click_meanwhile host confirm stat_of rimraf unlinkSync [] w
        = (clearSelections_now w,
           (opening
            ++ map (removal host stat_of w) (live_values (localSelectedItems_now w))
            ++ [ClearSelections; SetStatusText (deleted_status r); LoadLocalFiles])%list,
           Resolved tt)
        /\ success r + errors r = size).
Proof.
  cbn zeta. unfold local_delete_agreed in Hagreed.
  unfold localDeleteBtn_click_meanwhile.
  apply andb_prop in Hagreed. destruct Hagreed as [Hsome Hyes].
  destruct (Nat.eqb (live_size (localSelectedItems_now w)) 0); [discriminate |].
  rewrite Hyes. cbn [negb]. split.
  - destruct (local_delete_live host stat_of rimraf unlinkSync Hstat meanwhile w 0
                {| success := 0; errors := 0 |})
      as (w' & r & removals & -> & Hcount & Hall).
    exists (clearSelections_now w'), r, removals.
    split; [reflexivity |]. split; [exact Hcount |]. split; [exact Hall |].
    cbn [clearSelections_now localSelectedItems_now androidSelectedItems_now].
    rewrite !live_values_clear. split; reflexivity.
  - cbn [for_of_live skipn].
    destruct (local_delete_quiet host stat_of rimraf unlinkSync w Hstat
                (live_values (localSelectedItems_now w))
                {| success := 0; errors := 0 |})
      as (r & -> & Hcount & _).
    exists r. split; [reflexivity |]. exact Hcount.
Qed.

(** While [notes.txt] is being removed, the user selects [cover.jpg] and
    moves to [Music]: three items are dealt with, where two were selected
    at the click. *)
Lemma local_delete_reports_every_item_witness :
  exists w' r removals,
    localDeleteBtn_click_meanwhile posix (fun _ => true) (fun _ => IsFile)
      nothing_removable nothing_removable [selects_and_moves]
      (world_of rendered_list two_selected_on_device)
    = (w',
       ([ShowConfirmationDialog "Delete 2 selected item(s)?";
         SetStatusText "Deleting 2 local item(s)..."]
        ++ removals
        ++ [ClearSelections; SetStatusText (deleted_status r); LoadLocalFiles])%list,
       Resolved tt)
    /\ success r + errors r = List.length removals
    /\ Forall (suits (fun _ => IsFile)) removals
    /\ live_values (localSelectedItems_now w') = []
    /\ live_values (androidSelectedItems_now w') = [].
Proof.
  apply (local_delete_reports_every_item posix (fun _ => true) (fun _ => IsFile)
           nothing_removable nothing_removable [selects_and_moves]
           (world_of rendered_list two_selected_on_device)).
  - reflexivity.
  - intros p. reflexivity.
Defined.

(** Left alone on the state of a click, the local delete button does
    what [localDeleteBtn_click] does. *)
Lemma local_delete_one_now_world_of (host : node_path) (stat_of : string -> local_stat)
    (rimraf unlinkSync : string -> promise unit) (query : string -> dom_query)
    (st : state) (items : list string) :
  forall r,
    for_of_items (local_delete_one_now host stat_of rimraf unlinkSync
                    (world_of query st)) items r
    = for_of_items (local_delete_one host stat_of rimraf unlinkSync st) items r.
Proof.
  induction items as [| name rest IH]; intros r; [reflexivity |].
  cbn [for_of_items].
  change (local_delete_one_now host stat_of rimraf unlinkSync (world_of query st) name r)
    with (local_delete_one host stat_of rimraf unlinkSync st name r).
  destruct (local_delete_one host stat_of rimraf unlinkSync st name r) as [[r1 | m] t1];
    [rewrite IH |]; reflexivity.
Qed.

Lemma live_values_map_Some (items : list string) : live_values (map Some items) = items.
Proof.
  induction items as [| name rest IH]; [reflexivity |].
  cbn [map]. change (live_values (Some name :: map Some rest))
    with (name :: live_values (map Some rest)). rewrite IH. reflexivity.
Qed.

Lemma localDeleteBtn_click_left_alone (host : node_path) (confirm : string -> bool)
    (stat_of : string -> local_stat) (rimraf unlinkSync : string -> promise unit)
    (query : string -> dom_query) (st : state) :
  let '(w', t, outcome) :=
    localDeleteBtn_click_meanwhile host confirm stat_of rimraf unlinkSync []
      (world_of query st) in
  let '(st', t0, outcome0) :=
    localDeleteBtn_click host confirm stat_of rimraf unlinkSync st in
  t = t0 /\ outcome = outcome0
  /\ live_values (localSelectedItems_now w') = localSelectedItems st'
  /\ live_values (androidSelectedItems_now w') = androidSelectedItems st'.
Proof.
  unfold localDeleteBtn_click_meanwhile, localDeleteBtn_click, live_size.
  cbn [world_of localSelectedItems_now androidSelectedItems_now for_of_live skipn].
  rewrite !live_values_map_Some.
  assert (Hkept : live_values (localSelectedItems_now (world_of query st))
                  = localSelectedItems st
                  /\ live_values (androidSelectedItems_now (world_of query st))
                     = androidSelectedItems st).
  { cbn [world_of localSelectedItems_now androidSelectedItems_now].
    rewrite !live_values_map_Some. split; reflexivity. }
  destruct (Nat.eqb (List.length (localSelectedItems st)) 0);
    [split; [reflexivity | split; [reflexivity | exact Hkept]] |].
  destruct (confirm (delete_question (List.length (localSelectedItems st))));
    cbn [negb]; [| split; [reflexivity | split; [reflexivity | exact Hkept]]].
  change (for_of_items
            (local_delete_one_now host stat_of rimraf unlinkSync
               {| selectedDevice_now := selectedDevice st;
                  localPath_now := localPath st;
                  androidPath_now := androidPath st;
                  localSelectedItems_now := map Some (localSelectedItems st);
                  androidSelectedItems_now := map Some (androidSelectedItems st);
                  rendered_now := query |}))
    with (for_of_items
            (local_delete_one_now host stat_of rimraf unlinkSync (world_of query st))).
  rewrite local_delete_one_now_world_of.
  destruct (for_of_items (local_delete_one host stat_of rimraf unlinkSync st)
              (localSelectedItems st) {| success := 0; errors := 0 |})
    as [[r | message] t].
  - cbn [clearSelections_now clearSelections localSelectedItems_now
         androidSelectedItems_now localSelectedItems androidSelectedItems].
    rewrite !live_values_clear. repeat split.
  - split; [reflexivity | split; [reflexivity | exact Hkept]].
Qed.

(** ** New folders and the viewer *)

Lemma createAndroidDirectory_main_process (c : Main.client) (deviceId path : string) :
  createAndroidDirectory (main_process c) deviceId path = Resolved true.
Proof.
  unfold createAndroidDirectory, main_process. cbn [invoke_create_directory].
  unfold Main.create_directory.
  destruct (try_await_resolves (Main.shell c deviceId (Main.mkdir_command path)))
    as [r ->].
  reflexivity.
Qed.

(** Once the container is out of the document, nothing more is seen of
    the dialog, whatever the steps and the answers. *)
Lemma dialog_run_out (host : node_path) (deviceId : option string)
    (customCreateFunction : string -> string -> promise bool) (currentPath : string)
    (schedule : list dialog_step) :
  forall d,
    in_document d = false ->
    snd (dialog_run host deviceId customCreateFunction currentPath d schedule) = [].
Proof.
  induction schedule as [| s later IH]; intros d Hout; [reflexivity |].
  cbn [dialog_run].
  assert (Hnext : snd (dialog_next host deviceId customCreateFunction currentPath d s)
                  = []
                  /\ in_document
                       (fst (dialog_next host deviceId customCreateFunction
                               currentPath d s)) = false).
  { unfold dialog_next. destruct s as [| folderName | k |]; rewrite ?Hout;
      try (split; [reflexivity | first [exact Hout | reflexivity]]).
    destruct (nth_error (awaited d) k) as [[answer | message] |];
      rewrite ?Hout; split; first [reflexivity | exact Hout]. }
  destruct (dialog_next host deviceId customCreateFunction currentPath d s)
    as [d1 t1].
  cbn [fst snd] in Hnext. destruct Hnext as [-> Hout1].
  specialize (IH d1 Hout1).
  destruct (dialog_run host deviceId customCreateFunction currentPath d1 later)
    as [d2 t2].
  cbn [snd] in *. exact IH.
Qed.

(** The dialog sees of [customCreateFunction] its answers only. *)
Lemma dialog_run_answers (host : node_path) (deviceId : option string)
    (f g : string -> string -> promise bool) (currentPath : string)
    (Hsame : forall device path, f device path = g device path)
    (schedule : list dialog_step) :
  forall d,
    dialog_run host deviceId f currentPath d schedule
    = dialog_run host deviceId g currentPath d schedule.
Proof.
  induction schedule as [| s later IH]; intros d; [reflexivity |].
  cbn [dialog_run].
  assert (Hnext : dialog_next host deviceId f currentPath d s
                  = dialog_next host deviceId g currentPath d s).
  { unfold dialog_next. destruct s as [| folderName | k |]; try reflexivity.
    destruct (in_document d); [| reflexivity].
    destruct (is_empty folderName); [reflexivity |].
    destruct deviceId as [[| c rest] |]; try reflexivity.
    rewrite Hsame. reflexivity. }
  rewrite Hnext.
  destruct (dialog_next host deviceId g currentPath d s) as [d1 t1].
  rewrite IH. reflexivity.
Qed.

(** X23. Served by the handler of the main process, the dialog for a new
    folder on the device goes, whatever the bridge answers and however
    the clicks and the answers follow each other, as it goes when every
    creation succeeds. So, with a device selected and a name that is not
    empty: when the answer to a click on Create arrives next, one request
    has been sent, for the current path joined with the name, the dialog
    is removed, the Android view is loaded again and the status bar
    reports the folder as created; when Cancel is clicked before the
    answer arrives, the dialog is removed and nothing is reported, then
    or later; and when Create is clicked a second time before the answer
    arrives, a second request is sent. *)
Theorem android_folder_is_always_reported_created (host : node_path)
    (c : Main.client) (st : state) (schedule later : list dialog_step)
    (folderName second : string)
    (Hdevice : no_device st = false)
    (Hname : folderName <> EmptyString)
    (Hsecond : second <> EmptyString) :
  androidNewFolderBtn_click host (main_process c) st schedule
  = androidNewFolderBtn_click_unfailing host st schedule
  /\ exists device,
       selectedDevice st = Some device
       /\ androidNewFolderBtn_click host (main_process c) st
            (UserCreates folderName :: AnswerArrives 0 :: later)
          = [CallCustomCreateFunction device
               (backslashes_to_slashes (join host (androidPath st) folderName));
             RemoveModal; LoadAndroidFiles; SetStatusText "Android folder created"]
       /\ androidNewFolderBtn_click host (main_process c) st
            (UserCreates folderName :: UserCancels :: later)
          = [CallCustomCreateFunction device
               (backslashes_to_slashes (join host (androidPath st) folderName));
             RemoveModal]
       /\ androidNewFolderBtn_click host (main_process c) st
            (UserCreates folderName :: UserCreates second :: AnswerArrives 0 :: later)
          = [CallCustomCreateFunction device
               (backslashes_to_slashes (join host (androidPath st) folderName));
             CallCustomCreateFunction device
               (backslashes_to_slashes (join host (androidPath st) second));
             RemoveModal; LoadAndroidFiles; SetStatusText "Android folder created"].
Proof.
  unfold androidNewFolderBtn_click, androidNewFolderBtn_click_unfailing.
  rewrite Hdevice. split.
  - rewrite (dialog_run_answers host (selectedDevice st)
               (createAndroidDirectory (main_process c)) (fun _ _ => Resolved true)
               (androidPath st) (createAndroidDirectory_main_process c)).
    reflexivity.
  - unfold no_device in Hdevice.
    destruct (selectedDevice st) as [[| ch d] |]; try discriminate Hdevice.
    exists (String ch d). split; [reflexivity |].
    destruct folderName as [| ch1 name1]; [contradiction |].
    destruct second as [| ch2 name2]; [contradiction |].
    cbn [dialog_run dialog_next dialog_opened in_document resolved_with awaited
         is_empty List.app nth_error without].
    rewrite !createAndroidDirectory_main_process.
    cbn [nth_error without in_document resolved_with awaited].
    split; [| split].
    + match goal with
      | |- context [dialog_run ?h ?dev ?f ?p ?d later] =>
          pose proof (dialog_run_out h dev f p later d eq_refl) as Hout;
          destruct (dialog_run h dev f p d later) as [d2 t2]
      end.
      cbn [snd] in *. rewrite Hout. reflexivity.
    + match goal with
      | |- context [dialog_run ?h ?dev ?f ?p ?d later] =>
          pose proof (dialog_run_out h dev f p later d eq_refl) as Hout;
          destruct (dialog_run h dev f p d later) as [d2 t2]
      end.
      cbn [snd] in *. rewrite Hout. reflexivity.
    + match goal with
      | |- context [dialog_run ?h ?dev ?f ?p ?d later] =>
          pose proof (dialog_run_out h dev f p later d eq_refl) as Hout;
          destruct (dialog_run h dev f p d later) as [d2 t2]
      end.
      cbn [snd] in *. rewrite Hout. reflexivity.
Qed.

Lemma android_folder_is_always_reported_created_witness :
  androidNewFolderBtn_click posix (main_process shell_refusing) two_selected_on_device
    [UserCreates "Holiday"; UserCancels; AnswerArrives 0]
  = androidNewFolderBtn_click_unfailing posix two_selected_on_device
      [UserCreates "Holiday"; UserCancels; AnswerArrives 0]
  /\ exists device,
       selectedDevice two_selected_on_device = Some device
       /\ androidNewFolderBtn_click posix (main_process shell_refusing)
            two_selected_on_device
            (UserCreates "Holiday" :: AnswerArrives 0 :: [UserCancels])
          = [CallCustomCreateFunction device "/sdcard/Holiday";
             RemoveModal; LoadAndroidFiles; SetStatusText "Android folder created"]
       /\ androidNewFolderBtn_click posix (main_process shell_refusing)
            two_selected_on_device
            (UserCreates "Holiday" :: UserCancels :: [UserCancels])
          = [CallCustomCreateFunction device "/sdcard/Holiday"; RemoveModal]
       /\ androidNewFolderBtn_click posix (main_process shell_refusing)
            two_selected_on_device
            (UserCreates "Holiday" :: UserCreates "Work" :: AnswerArrives 0
               :: [UserCancels])
          = [CallCustomCreateFunction device "/sdcard/Holiday";
             CallCustomCreateFunction device "/sdcard/Work";
             RemoveModal; LoadAndroidFiles; SetStatusText "Android folder created"].
Proof.
  apply (android_folder_is_always_reported_created posix shell_refusing
           two_selected_on_device [UserCreates "Holiday"; UserCancels; AnswerArrives 0]
           [UserCancels] "Holiday" "Work").
  - reflexivity.
  - discriminate.
  - discriminate.
Defined.

Lemma local_dialog_retries (host : node_path) (mkdirSync : string -> promise unit)
    (currentPath : string) (retries rest : list dialog_action) :
  Forall (fun a => failed_attempt host mkdirSync currentPath a = true) retries ->
  createNewFolder host false None (Some LoadLocalFiles) (fun _ _ => Resolved true)
    mkdirSync currentPath (retries ++ rest)
  = (fst (createNewFolder host false None (Some LoadLocalFiles)
            (fun _ _ => Resolved true) mkdirSync currentPath rest),
     (attempts host currentPath retries
      ++ snd (createNewFolder host false None (Some LoadLocalFiles)
                (fun _ _ => Resolved true) mkdirSync currentPath rest))%list).
Proof.
  induction 1 as [| action retries Haction _ IH]; cbn [List.app].
  - cbn [attempts flat_map List.app].
    destruct (createNewFolder _ _ _ _ _ _ _ rest); reflexivity.
  - destruct action as [| folderName]; [discriminate Haction |].
    cbn [createNewFolder failed_attempt] in *. unfold createButton_click.
    destruct folderName as [| ch name]; cbn [is_empty orb] in *.
    + rewrite IH. reflexivity.
    + unfold is_rejected in Haction.
      destruct (mkdirSync (join host currentPath (String ch name)));
        [discriminate Haction |].
      rewrite IH. reflexivity.
Qed.

(** X24. On the host, the dialog for a new folder stays open as long as
    the clicks on Create come with an empty name or with a name for which
    [fs.mkdirSync] throws; each of the latter is one attempt. The first
    click on Create that succeeds closes the dialog, loads the local view
    again and has the status bar report the folder as created; a click
    on Cancel closes the dialog with no report; and while neither has
    happened nothing is reported. What the user does after the dialog is
    closed changes nothing. *)
Theorem local_folder_dialog_retries_until_made (host : node_path)
    (mkdirSync : string -> promise unit) (st : state)
    (retries later : list dialog_action) (folderName : string)
    (Hretries : Forall (fun a => failed_attempt host mkdirSync (localPath st) a = true)
                       retries)
    (Hname : folderName <> EmptyString)
    (Hmade : is_resolved (mkdirSync (join host (localPath st) folderName)) = true) :
  localNewFolderBtn_click host mkdirSync st (retries ++ ClickCreate folderName :: later)
  = (attempts host (localPath st) retries
     ++ [MkdirSyncPlain (join host (localPath st) folderName); RemoveModal;
         LoadLocalFiles; SetStatusText "Local folder created"])%list
  /\ localNewFolderBtn_click host mkdirSync st (retries ++ ClickCancel :: later)
     = (attempts host (localPath st) retries ++ [RemoveModal])%list
  /\ localNewFolderBtn_click host mkdirSync st retries
     = attempts host (localPath st) retries.
Proof.
  unfold localNewFolderBtn_click.
  rewrite !(local_dialog_retries host mkdirSync (localPath st) retries _ Hretries).
  rewrite <- (app_nil_r retries) at 3.
  rewrite (local_dialog_retries host mkdirSync (localPath st) retries [] Hretries).
  cbn [createNewFolder fst snd]. unfold createButton_click.
  destruct folderName as [| ch name]; [contradiction |]. cbn [is_empty].
  destruct (mkdirSync (join host (localPath st) (String ch name)));
    [| discriminate Hmade].
  cbn [fst snd close_and_refresh]. rewrite app_nil_r.
  split; [| split; reflexivity].
  rewrite <- app_assoc. reflexivity.
Qed.

Lemma local_folder_dialog_retries_until_made_witness :
  localNewFolderBtn_click posix
    (fun p => if String.eqb p "/home/user/Music" then Rejected "EEXIST" else Resolved tt)
    two_selected_on_device
    ([ClickCreate EmptyString; ClickCreate "Music"] ++ ClickCreate "Films" :: [ClickCancel])
  = [MkdirSyncPlain "/home/user/Music"; MkdirSyncPlain "/home/user/Films"; RemoveModal;
     LoadLocalFiles; SetStatusText "Local folder created"].
Proof.
  apply (local_folder_dialog_retries_until_made posix
           (fun p => if String.eqb p "/home/user/Music" then Rejected "EEXIST"
                     else Resolved tt)
           two_selected_on_device [ClickCreate EmptyString; ClickCreate "Music"]
           [ClickCancel] "Films").
  - repeat constructor.
  - discriminate.
  - reflexivity.
Defined.

(** X25. Served by the handler of the main process, pulling a file of
    the device for the viewer resolves with the path of the temporary
    file whether or not the file was pulled: it rejects only when the
    temporary directory is missing and cannot be made, in which case no
    request is sent; otherwise exactly one request is sent, for the
    temporary directory joined with the name of the file. *)
Theorem viewer_gets_a_path_whatever_the_bridge_does (host : node_path)
    (c : Main.client) (disk : local_disk)
    (tmpdir deviceId androidPath filename : string) :
  let tempDir := join host tmpdir "adb-file-transfer" in
  let tempFile := join host tempDir filename in
  let answer :=
    fst (pullAndroidFileToTemp host (main_process c) disk tmpdir deviceId androidPath
           filename) in
  let t :=
    snd (pullAndroidFileToTemp host (main_process c) disk tmpdir deviceId androidPath
           filename) in
  if exists_before disk tempDir || is_resolved (mkdir disk tempDir) then
    answer = Resolved tempFile /\ pulls t = [(androidPath, tempFile)]
  else
    exists message,
      mkdir disk tempDir = Rejected message
      /\ answer = Rejected message /\ pulls t = [] /\ mkdirs t = [tempDir].
Proof.
  cbn zeta. unfold pullAndroidFileToTemp, ensure_directory.
  cbn [mem existsb orb]. rewrite orb_false_r.
  destruct (exists_before disk (join host tmpdir "adb-file-transfer")); cbn [orb].
  - cbn [main_process invoke_pull_file].
    destruct (try_await_resolves
                (and_then (Main.pull c deviceId androidPath)
                   (fun transfer =>
                      Main.pipe c transfer
                        (join host (join host tmpdir "adb-file-transfer") filename))))
      as [r Hr].
    unfold Main.pull_file. rewrite Hr. split; reflexivity.
  - destruct (mkdir disk (join host tmpdir "adb-file-transfer")) as [[] | message];
      cbn [is_resolved].
    + cbn [main_process invoke_pull_file].
      destruct (try_await_resolves
                  (and_then (Main.pull c deviceId androidPath)
                     (fun transfer =>
                        Main.pipe c transfer
                          (join host (join host tmpdir "adb-file-transfer") filename))))
        as [r Hr].
      unfold Main.pull_file. rewrite Hr. split; reflexivity.
    + exists message. repeat split; reflexivity.
Qed.
